(** * techiesproject.com: extraction, rendering and verification scripts

    A shallow embedding of [scripts/extract.js], [scripts/build.js] and
    [scripts/verify.js], followed by the properties of the three-stage
    pipeline (extract, render, verify).

    Part I holds the model, one module per script, each definition next to
    the JavaScript it embeds.  Part II holds the lemmas and theorems.

    Conventions of the model:
    - a JavaScript string is its sequence of code units, [list ascii]
      (no definition or proof depends on the size of the alphabet);
    - a number that holds a post id is an integer, [Z] (ids are taken to
      be in the range where JavaScript numbers are exact); [NaN] is [None]
      in the one place where it can arise ([parseInt]);
    - an object used as a dictionary is the [gmap] of its own properties,
      read and written as a plain object is ([JsObject]);
    - the regular-expression engine of the runtime is a parameter
      ([RegExp.Engine]); the properties hold for every engine, and a small
      backtracking engine runs the examples;
    - for the extractor the file system is a finite map from a path to
      the content of the file at that path; for the renderer and the
      verifier it is the tree below [_output], with its directories, and
      paths are normalised as [path.join] does ([Fs]);
    - console output is a list of lines, newest last. *)

From Stdlib Require Import ZArith Ascii String List Lia Sorted.
From stdpp Require Import base option list gmap strings pretty.

Abbreviation str := (list ascii).

(** String literals are read as code-unit sequences. *)
Coercion list_ascii_of_string : string >-> list.

(* ====================================================================== *)
(** * Part I.  The model                                                   *)
(* ====================================================================== *)

(** ** JavaScript strings *)

Module JsString.

(** The double quote and the line feed, which literals below splice in. *)
Definition dq : str := ["034"%char].
Definition nl : str := ["010"%char].

(** [s.startsWith(p)] *)
Fixpoint startsWith (p s : str) : bool :=
  match p, s with
  | [], _ => true
  | _ :: _, [] => false
  | c :: p', d :: s' => if Ascii.eqb c d then startsWith p' s' else false
  end.

(** Position of the first occurrence of [m] in [s], scanning from the left. *)
Fixpoint find (m s : str) : option nat :=
  if startsWith m s then Some 0
  else match s with
       | [] => None
       | _ :: s' => S <$> find m s'
       end.

(** An index argument is clamped to [0 .. s.length]. *)
Definition clamp (s : str) (i : Z) : nat :=
  Z.to_nat (Z.min (Z.max i 0) (Z.of_nat (length s))).

(** [s.indexOf(m, from)]: the index of the first occurrence at or after
    [from], or [-1]. *)
Definition indexOf (s m : str) (from : Z) : Z :=
  let k := clamp s from in
  match find m (drop k s) with
  | Some i => Z.of_nat (k + i)
  | None => (-1)%Z
  end.

(** [s.includes(m)] *)
Definition includes (s m : str) : bool :=
  match find m s with
  | Some _ => true
  | None => false
  end.

(** [s.substring(a, b)]: both ends clamped, and swapped when [a > b]. *)
Definition substring (s : str) (a b : Z) : str :=
  let lo := Nat.min (clamp s a) (clamp s b) in
  let hi := Nat.max (clamp s a) (clamp s b) in
  take (hi - lo) (drop lo s).

(** [s.split(sep)] for a non-empty [sep]: cut at the first occurrence and go
    on after it.  Every round drops at least one code unit, so [length s]
    rounds are enough (lemma [split_unfold] in Part II). *)
Fixpoint splitN (fuel : nat) (s sep : str) : list str :=
  match find sep s, fuel with
  | Some i, S n => take i s :: splitN n (drop (i + length sep) s) sep
  | _, _ => [s]
  end.

(** [s.split(sep)]; an empty separator splits into code units. *)
Definition split (s sep : str) : list str :=
  match sep with
  | [] => (λ c, [c]) <$> s
  | _ :: _ => splitN (length s) s sep
  end.

(** [pieces.join(v)] *)
Fixpoint join (v : str) (pieces : list str) : str :=
  match pieces with
  | [] => []
  | [p] => p
  | p :: rest => p ++ v ++ join v rest
  end.

(** White space in the sense of [\s] and of [trim]. *)
Definition isSpace (c : ascii) : bool :=
  let n := nat_of_ascii c in
  (Nat.leb 9 n && Nat.leb n 13) || Nat.eqb n 32 || Nat.eqb n 160.

Fixpoint trimStart (s : str) : str :=
  match s with
  | c :: s' => if isSpace c then trimStart s' else s
  | [] => []
  end.

(** [s.trim()] *)
Definition trim (s : str) : str := rev (trimStart (rev (trimStart s))).

(** A template literal's [${n}] for an integer [n]: its decimal digits. *)
Definition numToString (n : Z) : str := pretty n.

Definition digitVal (c : ascii) : option Z :=
  let n := nat_of_ascii c in
  if Nat.leb 48 n && Nat.leb n 57 then Some (Z.of_nat (n - 48)) else None.

(** The value of the longest prefix of decimal digits, [None] if there is
    no digit. *)
Fixpoint digits (s : str) (acc : option Z) : option Z :=
  match s with
  | c :: s' =>
      match digitVal c with
      | Some d => digits s' (Some (10 * default 0%Z acc + d)%Z)
      | None => acc
      end
  | [] => acc
  end.

(** [parseInt(s, 10)]; [None] is [NaN]. *)
Definition parseInt (s : str) : option Z :=
  match trimStart s with
  | "-"%char :: t => Z.opp <$> digits t None
  | "+"%char :: t => digits t None
  | t => digits t None
  end.

(** [x || d] on numbers: zero and [NaN] are falsy. *)
Definition numOr (x : option Z) (d : Z) : Z :=
  match x with
  | Some n => if decide (n = 0%Z) then d else n
  | None => d
  end.

End JsString.

(** ** Plain objects used as dictionaries *)

Module JsObject.

(** What reading a property of a plain object whose own properties hold
    strings can give, besides [undefined]: a string, a function inherited
    from [Object.prototype], or [Object.prototype] itself. *)
Inductive Value := Str (s : str) | Function | Prototype.

(** The names of the functions every plain object inherits. *)
Definition inherited : list str :=
  [ "constructor" : str; "hasOwnProperty" : str; "isPrototypeOf" : str;
    "propertyIsEnumerable" : str; "toLocaleString" : str; "toString" : str;
    "valueOf" : str; "__defineGetter__" : str; "__defineSetter__" : str;
    "__lookupGetter__" : str; "__lookupSetter__" : str ].

(** An object as the map of its own properties.  [obj[k] = v] for a
    string [v]: the assignment to [__proto__] goes to the setter of
    [Object.prototype], which ignores a value that is not an object. *)
Definition set (obj : gmap str str) (k v : str) : gmap str str :=
  if decide (k = ("__proto__" : str)) then obj else <[k := v]> obj.

(** [obj[k]]; [None] is [undefined]. *)
Definition get (obj : gmap str str) (k : str) : option Value :=
  if decide (k = ("__proto__" : str)) then Some Prototype
  else match obj !! k with
       | Some s => Some (Str s)
       | None => if decide (k ∈ inherited) then Some Function else None
       end.

(** [if (v)], [v || ...]: the empty string and [undefined] are falsy. *)
Definition truthy (v : option Value) : bool :=
  match v with
  | Some (Str []) | None => false
  | _ => true
  end.

End JsObject.

(** ** Regular expressions *)

Module RegExp.
Import JsString.

(** An item of a character class. *)
Inductive item :=
| Chr (c : ascii)
| Range (lo hi : ascii)
| Space                       (* \s *)
| Digit.                      (* \d *)

(** The patterns the scripts use.  [Group n r] is the capturing group whose
    opening parenthesis is the [n]-th of the pattern. *)
Inductive re :=
| Lit (s : str)
| Class (negated : bool) (items : list item)
| Seq (r1 r2 : re)
| Alt (r1 r2 : re)
| Star (greedy : bool) (r : re)
| Group (n : nat) (r : re).

Definition Plus (greedy : bool) (r : re) : re := Seq r (Star greedy r).
Definition Opt (r : re) : re := Alt r (Lit []).
(** [[\s\S]]: any code unit. *)
Definition AnyChar : re := Class true [].
Definition NotOf (cs : str) : re := Class true (Chr <$> cs).
Definition OneOf (cs : str) : re := Class false (Chr <$> cs).
Definition Spaces : re := Star true (Class false [Space]).
Definition Digits : re := Plus true (Class false [Digit]).

Fixpoint seqs (rs : list re) : re :=
  match rs with
  | [] => Lit []
  | [r] => r
  | r :: rs' => Seq r (seqs rs')
  end.

(** The array a successful match returns: [groups] is [m[0]], [m[1]], ...
    and [index] is [m.index]. *)
Record Match := { index : nat; groups : list str }.

(** [m[i]] *)
Definition group (m : Match) (i : nat) : str := nth i (groups m) [].

(** [regex.lastIndex] after the match [m]. *)
Definition lastIndex (m : Match) : nat := index m + length (group m 0).

(** What the scripts ask of the regular-expression engine of the
    JavaScript runtime: [exec r s] is [s.match(r)] for a pattern without
    the g flag, and [execAll r s] is the sequence of results of
    [while ((m = r.exec(s)) !== null)] for a pattern with it. *)
Record Engine := {
  exec : re → str → option Match;
  execAll : re → str → list Match
}.

(** [s.replace(r, v)] for a pattern with the g flag and a replacement text
    without dollar patterns, from the successive matches of [r] in [s]. *)
Fixpoint replaceMatches (ms : list Match) (pos : nat) (s v : str) : str :=
  match ms with
  | [] => drop pos s
  | m :: ms' =>
      take (index m - pos) (drop pos s) ++ v ++ replaceMatches ms' (lastIndex m) s v
  end.

Definition replaceAll (E : Engine) (s : str) (r : re) (v : str) : str :=
  replaceMatches (execAll E r s) 0 s v.

(** *** A backtracking engine

    A matcher in continuation-passing style, with the priorities of the
    JavaScript engine: alternatives left to right, greedy repetition first
    longer, lazy repetition first shorter.  It runs the model on concrete
    documents. *)

Definition inItem (c : ascii) (i : item) : bool :=
  match i with
  | Chr d => Ascii.eqb c d
  | Range lo hi =>
      Nat.leb (nat_of_ascii lo) (nat_of_ascii c) && Nat.leb (nat_of_ascii c) (nat_of_ascii hi)
  | Space => isSpace c
  | Digit => Nat.leb 48 (nat_of_ascii c) && Nat.leb (nat_of_ascii c) 57
  end.

Definition Captures := gmap nat str.
Definition Cont := str → Captures → option (str * Captures).

Fixpoint matchRe (r : re) (s : str) (c : Captures) (k : Cont) : option (str * Captures) :=
  match r with
  | Lit l => if startsWith l s then k (drop (length l) s) c else None
  | Class negated items =>
      match s with
      | ch :: s' => if xorb negated (existsb (inItem ch) items) then k s' c else None
      | [] => None
      end
  | Seq r1 r2 => matchRe r1 s c (λ s' c', matchRe r2 s' c' k)
  | Alt r1 r2 =>
      match matchRe r1 s c k with
      | Some x => Some x
      | None => matchRe r2 s c k
      end
  | Star greedy r' =>
      (fix loop (n : nat) (s : str) (c : Captures) : option (str * Captures) :=
         let more :=
           match n with
           | 0 => None
           | S n' =>
               matchRe r' s c
                 (λ s' c', if Nat.ltb (length s') (length s) then loop n' s' c' else None)
           end in
         if greedy then
           match more with
           | Some x => Some x
           | None => k s c
           end
         else
           match k s c with
           | Some x => Some x
           | None => more
           end) (length s) s c
  | Group n r' => matchRe r' s c (λ s' c', k s' (<[n := take (length s - length s') s]> c'))
  end.

Fixpoint groupCount (r : re) : nat :=
  match r with
  | Lit _ | Class _ _ => 0
  | Seq r1 r2 | Alt r1 r2 => Nat.max (groupCount r1) (groupCount r2)
  | Star _ r' => groupCount r'
  | Group n r' => Nat.max n (groupCount r')
  end.

(** Try every start position of [s], left to right; [i] is the position of
    [s] in the whole input. *)
Fixpoint search (r : re) (i : nat) (s : str) : option Match :=
  match matchRe r s ∅ (λ s' c, Some (s', c)) with
  | Some (s', c) =>
      Some {| index := i;
              groups := take (length s - length s') s
                        :: ((λ n, default [] (c !! n)) <$> seq 1 (groupCount r)) |}
  | None =>
      match s with
      | [] => None
      | _ :: t => search r (S i) t
      end
  end.

(** The loop over [exec]: the next search starts at [lastIndex].  A match
    of a pattern of the scripts is never empty, so there are at most
    [length s] rounds. *)
Fixpoint searchAll (fuel : nat) (r : re) (pos : nat) (s : str) : list Match :=
  match fuel with
  | 0 => []
  | S n =>
      match search r pos (drop pos s) with
      | Some m => m :: searchAll n r (lastIndex m) s
      | None => []
      end
  end.

Definition backtracking : Engine :=
  {| exec := λ r s, search r 0 s;
     execAll := λ r s, searchAll (S (length s)) r 0 s |}.

End RegExp.

(** ** The intermediate store: [people.json] and [categories.json] *)

Module Store.

Record Link := { url : str; label : str }.

(** A [prev] or [next] reference. *)
Record NavRef := { ref_name : str; ref_slug : str }.

(** A field that the extractor fills from a dictionary lookup, as
    [JSON.stringify] writes it and [JSON.parse] reads it back: a string;
    an object without properties, which is what [Object.prototype] is
    written as; or nothing, a function being left out. *)
Inductive Field := Text (s : str) | EmptyObject | Absent.

(** [`${field}`] *)
Definition fieldText (f : Field) : str :=
  match f with
  | Text s => s
  | EmptyObject => "[object Object]"
  | Absent => "undefined"
  end.

Record Person := {
  slug : str;
  post_id : Z;
  name : str;
  hero_image : str;
  thumbnail : str;
  years_in_tech : str;
  role : str;
  location : str;
  interview_date : str;
  abstract : str;
  personal_links : list Link;
  interview_content : str;
  prev : option NavRef;
  next : option NavRef;
  title : Field
}.

Record Category := {
  cat_slug : str;
  display_name : Field;
  post_ids : list Z
}.

(** A line on the console. *)
Inductive Console :=
| Log (line : str)            (* console.log *)
| Warn (line : str)           (* console.warn *)
| Error (line : str)          (* console.error *)
| Write (text : str).         (* process.stdout.write *)

End Store.

(** ** The file system below a directory *)

Module Fs.
Import JsString.

(** What a path names: a regular file with its content, or a
    directory.  Links, devices and permissions are not represented. *)
Inductive Node := File (content : str) | Dir.

Global Instance Node_eq_dec : EqDecision Node.
Proof. solve_decision. Defined.

(** A path below the directory, in normal form: its segments.  The
    empty path is the directory itself. *)
Abbreviation Path := (list str).

(** The entries below the directory, which itself exists.  In a tree
    that stands for a file system every ancestor of an entry is a
    [Dir] ([wf]); the functions below look at the one entry they are
    asked for, so they are defined on every map. *)
Abbreviation Tree := (gmap (list str) Node).

Definition wf (t : Tree) : Prop :=
  ∀ p s, is_Some (t !! (p ++ [s])) → p ≠ [] → t !! p = Some Dir.

(** A segment that names an entry: not empty, not [.] and not [..]. *)
Definition plain (s : str) : Prop := s ≠ [] ∧ s ≠ ("." : str) ∧ s ≠ (".." : str).

Global Instance plain_dec s : Decision (plain s).
Proof. unfold plain. apply _. Defined.

(** The normal form of a sequence of segments, as [path.normalize]
    computes it with a stack ([rstack], innermost first): empty segments
    and [.] are dropped, [..] removes the segment before it.  [None] when
    [..] would leave the directory: where the path then leads depends on
    what is above the directory, which the tree does not hold. *)
Fixpoint resolveFrom (rstack : list str) (segs : list str) : option Path :=
  match segs with
  | [] => Some (rev rstack)
  | s :: rest =>
      if decide (s = [] ∨ s = ("." : str)) then resolveFrom rstack rest
      else if decide (s = (".." : str)) then
        match rstack with
        | [] => None
        | _ :: up => resolveFrom up rest
        end
      else resolveFrom (s :: rstack) rest
  end.

(** The segments of the arguments of [path.join], in order (POSIX
    separators). *)
Definition segments (parts : list str) : list str :=
  concat ((λ part, split part "/") <$> parts).

(** [path.join(DIRECTORY, part, ...)], relative to the directory. *)
Definition pathJoin (parts : list str) : option Path := resolveFrom [] (segments parts).

(** The entry at a path. *)
Definition nodeAt (t : Tree) (p : Path) : option Node :=
  match p with
  | [] => Some Dir
  | _ :: _ => t !! p
  end.

(** [fs.rmSync(p, { recursive: true, force: true })]: the entry at [p]
    goes with everything below it; [p] being the directory itself, all
    its entries go. *)
Definition rmSync (p : Path) (t : Tree) : Tree :=
  filter (λ e, ¬ p `prefix_of` e.1) t.

(** [fs.mkdirSync(p, { recursive: true })] below [base]: every missing
    directory on the way is made; [None] when a segment on the way is a
    regular file (the call throws [EEXIST] or [ENOTDIR], and has made
    nothing, the ancestors of an existing file being there already). *)
Fixpoint mkdirFrom (base : Path) (segs : list str) (t : Tree) : option Tree :=
  match segs with
  | [] => Some t
  | s :: rest =>
      match t !! (base ++ [s]) with
      | Some (File _) => None
      | _ => mkdirFrom (base ++ [s]) rest (<[base ++ [s] := Dir]> t)
      end
  end.

Definition mkdirp (p : Path) (t : Tree) : option Tree := mkdirFrom [] p t.

(** [fs.writeFileSync(p, data)]: [None] (the call throws) when [p] is a
    directory, or when the directory it is to be in is not there. *)
Definition writeFileSync (p : Path) (data : str) (t : Tree) : option Tree :=
  match nodeAt t p, nodeAt t (removelast p) with
  | Some Dir, _ => None
  | _, Some Dir => Some (<[p := File data]> t)
  | _, _ => None
  end.

(** What [fs.cpSync] or [fs.copyFileSync] finds at its source. *)
Inductive Source := Missing | IsFile (content : str) | IsDir (entries : Tree).

(** [fs.cpSync(src, dest, { recursive: true })] for a [dest] that does
    not exist in a directory that does: a directory is copied with all
    its entries, a file as a file; [None] when there is no source. *)
Definition cpSync (src : Source) (dest : Path) (t : Tree) : option Tree :=
  match src with
  | Missing => None
  | IsFile c => Some (<[dest := File c]> t)
  | IsDir entries =>
      Some (foldr (λ e t, <[dest ++ e.1 := e.2]> t) (<[dest := Dir]> t) (map_to_list entries))
  end.

(** [fs.copyFileSync(src, dest)] for a [dest] that does not exist in a
    directory that does: [None] when the source is not a regular file. *)
Definition copyFileSync (src : Source) (dest : Path) (t : Tree) : option Tree :=
  match src with
  | IsFile c => Some (<[dest := File c]> t)
  | _ => None
  end.

(** [fs.existsSync] and [fs.readFileSync(_, 'utf8')] on an entry;
    reading throws ([None]) unless the entry is a regular file. *)
Definition exists_ (n : option Node) : bool := bool_decide (is_Some n).

Definition read (n : option Node) : option str :=
  match n with
  | Some (File c) => Some c
  | _ => None
  end.

End Fs.

(** ** [scripts/extract.js] *)

Module Extract.
Import JsString RegExp Store.

(** A card of the listing, as [parseHomepage] pushes it. *)
Record Entry := {
  entry_post_id : Z;
  entry_slug : str;
  entry_name : str;
  entry_title : str
}.

(** What the run has produced when the loop over the listing ends. *)
Record Run := { people : list Person; console : list Console }.

(** The patterns, in the order in which the script writes them. *)

Definition cardRegex : re :=
  seqs [ Lit ("<div id=" ++ dq ++ "post-"); Group 1 Digits; Lit dq;
         Star true (NotOf ">"); Lit ("class=" ++ dq ++ "techie-gallery");
         Star true (NotOf dq); Lit dq; Star true (NotOf ">"); Lit ">"; Spaces;
         Lit "<a"; Star true (NotOf ">"); Lit ("href=" ++ dq ++ "/");
         Group 2 (Plus false (NotOf dq)); Lit ("/" ++ dq);
         Star true (NotOf ">"); Lit ">"; Star false AnyChar;
         Lit ("<p class=" ++ dq ++ "name" ++ dq ++ ">");
         Group 3 (Plus true (NotOf "<")); Lit "</p>"; Spaces;
         Lit ("<p class=" ++ dq ++ "title" ++ dq ++ ">");
         Group 4 (Star true (NotOf "<")); Lit "</p>" ].

Definition nbspRegex : re := Seq (Lit "&nbsp") (Opt (Lit ";")).
Definition spacesRegex : re := Plus true (Class false [Space]).

Definition shortlinkRegex : re :=
  seqs [ Lit "href='"; Opt (Lit "/"); OneOf "?"; Lit "p="; Group 1 Digits; Lit "'" ].

Definition heroRegex : re :=
  seqs [ Lit ("<div class=" ++ dq ++ "featured-image"); Star true (NotOf dq);
         Lit (dq ++ ">"); Spaces;
         Lit ("<img src=" ++ dq ++ "/d1lhy388c2xgxf/portraits/");
         Group 1 (Plus true (NotOf dq)); Lit dq ].

Definition nameRegex : re :=
  seqs [ Lit ("<div class=" ++ dq ++ "techie-name col-md-12" ++ dq ++ ">"); Spaces;
         Group 1 (Star false AnyChar); Spaces; Lit "</div>" ].

Definition thumbnailRegex : re :=
  seqs [ Lit ("<div class=" ++ dq ++ "col-xs-12 col-md-3 photo" ++ dq ++ ">"); Spaces;
         Lit ("<img src=" ++ dq ++ "/d1lhy388c2xgxf/thumbnails/");
         Group 1 (Plus true (NotOf dq)); Lit dq ].

Definition textRegex : re :=
  seqs [ Lit ("<p class=" ++ dq ++ "text" ++ dq ++ ">");
         Group 1 (Star true (NotOf "<")); Lit "</p>" ].

Definition roleRegex : re :=
  seqs [ Lit ("<p class=" ++ dq ++ "col-xs-12 col-md-8 text" ++ dq ++ ">");
         Group 1 (Star true (NotOf "<")); Lit "</p>" ].

Definition linkRegex : re :=
  seqs [ Lit ("<li><a href=" ++ dq); Group 1 (Plus true (NotOf dq)); Lit (dq ++ ">");
         Group 2 (Plus true (NotOf "<")); Lit "</a></li>" ].

Definition navRegex (rel : str) : re :=
  seqs [ Lit ("<link rel='" ++ rel ++ "' title='"); Group 1 (Plus true (NotOf "'"));
         Lit "' href='/"; Group 2 (Plus true (NotOf "'")); Lit "/' />" ].

Section WithRuntime.

(** The regular-expression engine, and the files under the repository
    root: path relative to the root, content. *)
Variable E : Engine.
Variable fs : gmap str str.

(** [fs.existsSync(path.join(ROOT, filePath))] *)
Definition existsSync (filePath : str) : bool := bool_decide (is_Some (fs !! filePath)).

(** [readFile(filePath)]; [None] when [readFileSync] throws. *)
Definition readFile (filePath : str) : option str := fs !! filePath.

(** <<
    function extractBetween(html, startMarker, endMarker) {
      const startIdx = html.indexOf(startMarker);
      if (startIdx === -1) return '';
      const afterStart = startIdx + startMarker.length;
      const endIdx = html.indexOf(endMarker, afterStart);
      if (endIdx === -1) return '';
      return html.substring(afterStart, endIdx);
    }
    >> *)
Definition extractBetween (html startMarker endMarker : str) : str :=
  let startIdx := indexOf html startMarker 0 in
  if decide (startIdx = (-1)%Z) then []
  else
    let afterStart := (startIdx + Z.of_nat (length startMarker))%Z in
    let endIdx := indexOf html endMarker afterStart in
    if decide (endIdx = (-1)%Z) then []
    else substring html afterStart endIdx.

(** <<
    function extractMatch(html, regex) {
      const m = html.match(regex);
      return m ? m[1] : '';
    }
    >>
    Every pattern the script passes has its first group outside any
    alternative, so [m[1]] is a string whenever [m] is not null. *)
Definition extractMatch (html : str) (regex : re) : str :=
  match exec E regex html with
  | Some m => group m 1
  | None => []
  end.

(** <<
    function trim(s) {
      return s.replace(/&nbsp;?/g, '').replace(/\s+/g, ' ').trim();
    }
    >> *)
Definition trim (s : str) : str :=
  JsString.trim (replaceAll E (replaceAll E s nbspRegex []) spacesRegex " ").

(** [parseHomepage()]: one entry per match of [cardRegex] in [index.html],
    in document order.  [None] when reading [index.html] throws.  A group
    that matched digits always parses, so the default of [numOr] is not
    used. *)
Definition parseHomepage : option (list Entry) :=
  html ← readFile "index.html";
  Some ((λ m, {| entry_post_id := numOr (parseInt (group m 1)) 0;
                 entry_slug := group m 2;
                 entry_name := JsString.trim (group m 3);
                 entry_title := trim (group m 4) |}) <$> execAll E cardRegex html).

(** The abstract: up to the markup that closes the column, or else up to
    the next closing div ([indexOf] may then be [-1], which [substring]
    reads as [0]). *)
Definition parseAbstract (html : str) : str :=
  let marker : str := "<div class=" ++ dq ++ "col-md-6 abstract" ++ dq ++ ">" in
  let abstractStart := indexOf html marker 0 in
  if decide (abstractStart = (-1)%Z) then []
  else
    let afterAbstract := (abstractStart + Z.of_nat (length marker))%Z in
    let abstractEnd :=
      indexOf html (nl ++ "  </div>" ++ nl ++ "</div>" ++ nl ++ "<div class=" ++ dq ++ "row" ++ dq ++ ">")
              afterAbstract in
    if decide (abstractEnd = (-1)%Z) then
      let fallbackEnd := indexOf html "</div>" afterAbstract in
      JsString.trim (substring html afterAbstract fallbackEnd)
    else JsString.trim (substring html afterAbstract abstractEnd).

Definition parseInterview (html : str) : str :=
  let marker : str := "<div class=" ++ dq ++ "col-xs-12 col-md-6 post" ++ dq ++ ">" in
  let postStart := indexOf html marker 0 in
  if decide (postStart = (-1)%Z) then []
  else
    let afterPost := (postStart + Z.of_nat (length marker))%Z in
    let postEnd :=
      indexOf html (nl ++ "  </div>" ++ nl ++ "  <div class=" ++ dq ++ "col-xs-12 col-md-3 photo" ++ dq ++ ">")
              afterPost in
    if decide (postEnd = (-1)%Z) then []
    else JsString.trim (substring html afterPost postEnd).

Definition parseNav (html rel : str) : option NavRef :=
  (λ m, {| ref_name := group m 1; ref_slug := group m 2 |}) <$> exec E (navRegex rel) html.

(** The post id of a person page, from its shortlink:
    [parseInt(extractMatch(html, /href='\/?[?]p=(\d+)'/), 10) || 0]. *)
Definition parsePostId (html : str) : Z :=
  numOr (parseInt (extractMatch html shortlinkRegex)) 0.

(** The record [parsePersonPage] returns for a page that exists.  The
    script adds [title] afterwards; here it starts empty. *)
Definition personOfPage (slug html : str) : Person :=
  let li (cls : str) : str := "<li class=" ++ dq ++ "icon " ++ cls ++ dq ++ ">" in
  let yearsBlock := extractBetween html (li "years") "</li>" in
  let roleBlock := extractBetween html (li "role") "</li>" in
  let locationBlock := extractBetween html (li "location") "</li>" in
  let dateBlock := extractBetween html (li "date") "</li>" in
  let linksSection :=
    extractBetween html ("<div class=" ++ dq ++ "personal-links" ++ dq ++ ">") "</div>" in
  {| slug := slug;
     post_id := parsePostId html;
     name := JsString.trim (extractMatch html nameRegex);
     hero_image := extractMatch html heroRegex;
     thumbnail := extractMatch html thumbnailRegex;
     years_in_tech := JsString.trim (extractMatch yearsBlock textRegex);
     role := trim (extractMatch roleBlock roleRegex);
     location := JsString.trim (extractMatch locationBlock textRegex);
     interview_date := JsString.trim (extractMatch dateBlock textRegex);
     abstract := parseAbstract html;
     personal_links :=
       (λ m, {| url := group m 1; label := group m 2 |}) <$> execAll E linkRegex linksSection;
     interview_content := parseInterview html;
     prev := parseNav html "prev";
     next := parseNav html "next";
     title := Text [] |}.

(** <<
    function parsePersonPage(slug) {
      const filePath = `${slug}/index.html`;
      if (!fs.existsSync(path.join(ROOT, filePath))) {
        console.warn(`  WARNING: ${filePath} not found, skipping`);
        return null;
      }
      const html = readFile(filePath);
      ...
    >>
    The result and the console after the call. *)
Definition parsePersonPage (slug : str) (out : list Console) : option Person * list Console :=
  let filePath := slug ++ "/index.html" in
  match readFile filePath with
  | None => (None, out ++ [Warn ("  WARNING: " ++ filePath ++ " not found, skipping")])
  | Some html => (Some (personOfPage slug html), out)
  end.

(** [titleBySlug]: a later entry of the same slug overwrites an earlier one. *)
Definition titleBySlug (entries : list Entry) : gmap str str :=
  foldl (λ m entry, JsObject.set m (entry_slug entry) (entry_title entry)) ∅ entries.

(** [titleBySlug[entry.slug] || ''], as it is written to [people.json]. *)
Definition titleOf (titles : gmap str str) (slug : str) : Field :=
  match JsObject.get titles slug with
  | Some (JsObject.Str s) => Text s
  | Some JsObject.Function => Absent
  | Some JsObject.Prototype => EmptyObject
  | None => Text []
  end.

(** [person.title = ...; if (!person.post_id) person.post_id = entry.post_id] *)
Definition merge (titles : gmap str str) (entry : Entry) (person : Person) : Person :=
  {| slug := slug person;
     post_id := if decide (post_id person = 0%Z) then entry_post_id entry else post_id person;
     name := name person;
     hero_image := hero_image person;
     thumbnail := thumbnail person;
     years_in_tech := years_in_tech person;
     role := role person;
     location := location person;
     interview_date := interview_date person;
     abstract := abstract person;
     personal_links := personal_links person;
     interview_content := interview_content person;
     prev := prev person;
     next := next person;
     title := titleOf titles (entry_slug entry) |}.

(** One round of the loop over the listing. *)
Definition step (titles : gmap str str) (run : Run) (entry : Entry) : Run :=
  let out := console run ++ [Write ("  " ++ entry_slug entry ++ "...")] in
  match parsePersonPage (entry_slug entry) out with
  | (Some person, out') =>
      {| people := people run ++ [merge titles entry person];
         console := out' ++ [Log " OK"] |}
  | (None, out') => {| people := people run; console := out' ++ [Log " SKIP"] |}
  end.

(** The script up to the end of the loop over the listing; [None] when
    reading [index.html] throws. *)
Definition main : option Run :=
  homepageEntries ← parseHomepage;
  let out :=
    [ Log "Parsing homepage...";
      Log ("  Found " ++ numToString (Z.of_nat (length homepageEntries)) ++ " people on homepage");
      Log "Parsing person pages..." ] in
  Some (foldl (step (titleBySlug homepageEntries)) {| people := []; console := out |}
              homepageEntries).

(** For the statements of Part II: what a round of the loop adds to the
    collection, and the entries whose document exists. *)
Definition personOfEntry (titles : gmap str str) (entry : Entry) : option Person :=
  (λ html, merge titles entry (personOfPage (entry_slug entry) html))
    <$> fs !! (entry_slug entry ++ "/index.html").

Definition hasDocument (entry : Entry) : Prop :=
  is_Some (fs !! (entry_slug entry ++ "/index.html")).

End WithRuntime.

End Extract.

(** ** [scripts/build.js] *)

Module Build.
Import JsString Store Fs.

(** The files of [src/templates]. *)
Record Templates := {
  head : str;                 (* partials/head.html *)
  nav : str;                  (* partials/nav.html *)
  footer : str;               (* partials/footer.html *)
  scripts : str;              (* partials/scripts.html *)
  personTemplate : str;
  homepageTemplate : str;
  categoryTemplate : str;
  aboutTemplate : str;
  submitTemplate : str
}.

(** Everything the script reads: the store, the templates, and what is
    at [assets], [d1lhy388c2xgxf] and [favicon.ico] under the root. *)
Record Site := {
  people : list Person;
  categories : list Category;
  templates : Templates;
  assets : Source;
  d1lhy388c2xgxf : Source;
  favicon : Source
}.

(** How the script ends: normally; by an exception a call of [fs]
    throws; or at a write whose path leaves [_output], where the model
    stops.  Each with the tree below [_output] at that point. *)
Inductive Outcome := Done (t : Tree) | Thrown (t : Tree) | Outside (t : Tree).

Definition andThen (o : Outcome) (f : Tree → Outcome) : Outcome :=
  match o with
  | Done t => f t
  | _ => o
  end.

(** A call of [fs] at tree [t]. *)
Definition orThrow (t : Tree) (r : option Tree) : Outcome :=
  match r with
  | Some t' => Done t'
  | None => Thrown t
  end.

(** <<
    const dir = path.join(OUTPUT, ...);
    mkdirp(dir);
    fs.writeFileSync(path.join(dir, 'index.html'), html);
    >> *)
Definition writePage (dir : option Path) (html : str) (t : Tree) : Outcome :=
  match dir with
  | None => Outside t
  | Some d =>
      andThen (orThrow t (mkdirp d t))
              (λ t, orThrow t (writeFileSync (d ++ ["index.html" : str]) html t))
  end.

(** The text [{{key}}]. *)
Definition placeholder (key : str) : str := "{{" ++ key ++ "}}".

(** One round of the loop of [render]:
    [result.split(`{{${key}}}`).join(value)]. *)
Definition substitute (result key value : str) : str :=
  join value (split result (placeholder key)).

(** <<
    function render(template, vars) {
      let result = template;
      for (const [key, value] of Object.entries(vars)) {
        result = result.split(`{{${key}}}`).join(value);
      }
      return result;
    }
    >>
    [vars] lists the entries in the order of [Object.entries], which for
    the keys of this script is the order in which they are written. *)
Definition render (template : str) (vars : list (str * str)) : str :=
  foldl (λ result kv, substitute result kv.1 kv.2) template vars.

(** [peopleByPostId]: the property key of a post id is its decimal text,
    which is one-to-one, so the dictionary is keyed by the number. *)
Definition peopleByPostId (people : list Person) : gmap Z Person :=
  foldl (λ m p, <[post_id p := p]> m) ∅ people.

(** [.filter(Boolean)] on an array of records and [undefined]. *)
Definition filterBoolean {A} (l : list (option A)) : list A := omap id l.

Section WithSite.

Variable site : Site.

Definition buildHead (headExtra : str) : str :=
  render (head (templates site)) [("HEAD_EXTRA" : str, headExtra)].

Definition buildNav (aboutActive submitActive : bool) : str :=
  render (nav (templates site))
    [ ("ABOUT_ACTIVE" : str, if aboutActive then "active" : str else []);
      ("SUBMIT_ACTIVE" : str, if submitActive then "active" : str else []) ].

(** *** Person pages *)

Definition navLink (rel : str) (r : NavRef) : str :=
  nl ++ "<link rel='" ++ rel ++ "' title='" ++ ref_name r ++ "' href='/" ++ ref_slug r ++ "/' />".

Definition personHeadExtra (person : Person) : str :=
  "<link rel=" ++ dq ++ "canonical" ++ dq ++ " href=" ++ dq ++ "/" ++ slug person ++ "/" ++ dq ++ " />"
  ++ from_option (navLink "prev") [] (prev person)
  ++ from_option (navLink "next") [] (next person).

Definition linksHtml (person : Person) : str :=
  join nl ((λ l, "        <li><a href=" ++ dq ++ url l ++ dq ++ ">" ++ label l ++ "</a></li>")
           <$> personal_links person).

(** The keys of the object [render] gets for a person page, in the order
    of its entries. *)
Definition personKeys : list str :=
  [ "HEAD" : str; "NAV" : str; "FOOTER" : str; "SCRIPTS" : str; "NAME" : str;
    "HERO_IMAGE" : str; "THUMBNAIL" : str; "YEARS_IN_TECH" : str; "ROLE" : str;
    "LOCATION" : str; "INTERVIEW_DATE" : str; "ABSTRACT" : str;
    "PERSONAL_LINKS" : str; "INTERVIEW_CONTENT" : str ].

Definition personVars (person : Person) : list (str * str) :=
  [ ("HEAD" : str, buildHead (personHeadExtra person));
    ("NAV" : str, buildNav false false);
    ("FOOTER" : str, footer (templates site));
    ("SCRIPTS" : str, scripts (templates site));
    ("NAME" : str, name person);
    ("HERO_IMAGE" : str, hero_image person);
    ("THUMBNAIL" : str, thumbnail person);
    ("YEARS_IN_TECH" : str, years_in_tech person);
    ("ROLE" : str, role person);
    ("LOCATION" : str, location person);
    ("INTERVIEW_DATE" : str, interview_date person);
    ("ABSTRACT" : str, abstract person);
    ("PERSONAL_LINKS" : str, linksHtml person);
    ("INTERVIEW_CONTENT" : str, interview_content person) ].

Definition personHtml (person : Person) : str :=
  render (personTemplate (templates site)) (personVars person).

(** [path.join(OUTPUT, person.slug)] and the page in it. *)
Definition personDir (person : Person) : option Path := pathJoin [slug person].

Definition personPath (person : Person) : option Path :=
  (λ d, d ++ ["index.html" : str]) <$> personDir person.

(** *** Homepage *)

Definition categoryListHtml : str :=
  join nl ((λ cat, "              <li id=" ++ dq ++ cat_slug cat ++ dq ++ " class=" ++ dq ++ "cat-item" ++ dq
                   ++ "><a href=" ++ dq ++ "/category/" ++ cat_slug cat ++ "/" ++ dq ++ ">"
                   ++ fieldText (display_name cat) ++ "</a></li>")
           <$> categories site).

Definition homepageCard (person : Person) : str :=
  "  <div id=" ++ dq ++ "post-" ++ numToString (post_id person) ++ dq
  ++ " class=" ++ dq ++ "techie-gallery col-xs-6 col-sm-4 col-md-3" ++ dq ++ ">" ++ nl
  ++ "    <a class=" ++ dq ++ "techie-thumbnail" ++ dq ++ " href=" ++ dq ++ "/" ++ slug person ++ "/" ++ dq ++ ">" ++ nl
  ++ "      <img src=" ++ dq ++ "/d1lhy388c2xgxf/thumbnails/" ++ thumbnail person ++ dq
  ++ " width=" ++ dq ++ "280px" ++ dq ++ " height=" ++ dq ++ "390px" ++ dq ++ ">" ++ nl
  ++ "      <div class=" ++ dq ++ "techie-info" ++ dq ++ ">" ++ nl
  ++ "        <p class=" ++ dq ++ "name" ++ dq ++ ">" ++ name person ++ "</p>" ++ nl
  ++ "        <p class=" ++ dq ++ "title" ++ dq ++ ">" ++ fieldText (title person) ++ "&nbsp</p>" ++ nl
  ++ "      </div>" ++ nl
  ++ "    </a>" ++ nl
  ++ "  </div>".

Definition homepageCardsHtml : str :=
  join (nl ++ nl ++ "  <!-- end loop -->" ++ nl ++ "  ") (homepageCard <$> people site).

Definition homepageHtml : str :=
  render (homepageTemplate (templates site))
    [ ("HEAD" : str, buildHead []);
      ("NAV" : str, buildNav false false);
      ("FOOTER" : str, footer (templates site));
      ("SCRIPTS" : str, scripts (templates site));
      ("CATEGORY_LIST" : str, categoryListHtml);
      ("GALLERY_CARDS" : str, homepageCardsHtml) ].

(** *** Category pages *)

Definition categoryListInline : str :=
  join [] ((λ cat, "<li id=" ++ cat_slug cat ++ " class='cat-item'><a href='/category/"
                   ++ cat_slug cat ++ "/'>" ++ fieldText (display_name cat) ++ "</a></li>")
           <$> categories site).

(** [cat.post_ids.map(id => peopleByPostId[id]).filter(Boolean)] *)
Definition catPeople (cat : Category) : list Person :=
  filterBoolean ((λ id, peopleByPostId (people site) !! id) <$> post_ids cat).

(** The card marker the verifier looks for: the text [id="post-N"]. *)
Definition cardMarker (pid : Z) : str := "id=" ++ dq ++ "post-" ++ numToString pid ++ dq.

Definition categoryCard (person : Person) : str :=
  "  <div " ++ cardMarker (post_id person)
  ++ " class=" ++ dq ++ "techie-gallery col-lg-3 col-md-4 col-sm-6" ++ dq ++ ">" ++ nl
  ++ "    <a class=" ++ dq ++ "techie-thumbnail" ++ dq ++ " href=" ++ dq ++ "/" ++ slug person ++ "/" ++ dq ++ ">" ++ nl
  ++ "      <img src=" ++ dq ++ "/d1lhy388c2xgxf/thumbnails/" ++ thumbnail person ++ dq
  ++ " width=" ++ dq ++ "280px" ++ dq ++ " height=" ++ dq ++ "390px" ++ dq ++ ">" ++ nl
  ++ "      <p class=" ++ dq ++ "name" ++ dq ++ ">" ++ name person ++ "</p>" ++ nl
  ++ "      <p class=" ++ dq ++ "title" ++ dq ++ ">" ++ fieldText (title person) ++ "&nbsp;</p>" ++ nl
  ++ "    </a>" ++ nl
  ++ "  </div>".

Definition cardsHtml (cat : Category) : str :=
  join (nl ++ nl ++ "<!-- end loop -->" ++ nl) (categoryCard <$> catPeople cat).

Definition categoryVars (cat : Category) : list (str * str) :=
  [ ("HEAD" : str, buildHead []);
    ("NAV" : str, buildNav false false);
    ("FOOTER" : str, footer (templates site));
    ("SCRIPTS" : str, scripts (templates site));
    ("CATEGORY_LIST_INLINE" : str, categoryListInline);
    ("GALLERY_CARDS" : str, cardsHtml cat) ].

Definition categoryHtml (cat : Category) : str :=
  render (categoryTemplate (templates site)) (categoryVars cat).

(** [path.join(OUTPUT, 'category', cat.slug)] and the page in it. *)
Definition categoryDir (cat : Category) : option Path := pathJoin ["category" : str; cat_slug cat].

Definition categoryPath (cat : Category) : option Path :=
  (λ d, d ++ ["index.html" : str]) <$> categoryDir cat.

(** *** About and submit *)

Definition aboutHtml : str :=
  render (aboutTemplate (templates site))
    [ ("HEAD" : str, buildHead ("<link rel=" ++ dq ++ "canonical" ++ dq ++ " href=" ++ dq ++ "/about/" ++ dq ++ " />"));
      ("NAV" : str, buildNav true false);
      ("FOOTER" : str, footer (templates site));
      ("SCRIPTS" : str, scripts (templates site)) ].

Definition submitHtml : str :=
  render (submitTemplate (templates site))
    [ ("HEAD" : str,
       buildHead ("<link rel=" ++ dq ++ "canonical" ++ dq ++ " href=" ++ dq ++ "/submit/" ++ dq ++ " />" ++ nl
                  ++ "<link rel='stylesheet' href='/assets/css/wpgform.css' type='text/css' media='all' />"));
      ("NAV" : str, buildNav false true);
      ("FOOTER" : str, footer (templates site));
      ("SCRIPTS" : str, scripts (templates site)) ].

(** *** The run *)

Definition robots : str := "User-agent: *" ++ nl ++ "Allow: /" ++ nl.

(** [people.forEach]: the loop ends at the first call that throws. *)
Definition writePeople (t : Tree) : Outcome :=
  foldl (λ o person, andThen o (writePage (personDir person) (personHtml person)))
        (Done t) (people site).

Definition writeCategories (t : Tree) : Outcome :=
  foldl (λ o cat, andThen o (writePage (categoryDir cat) (categoryHtml cat)))
        (Done t) (categories site).

(** The script from [Preparing output directory...] on: how it ends,
    given the tree it finds.  It begins with
    [fs.rmSync(OUTPUT, { recursive: true, force: true }); mkdirp(OUTPUT)]
    (the root can be made, the script being in one of its
    subdirectories). *)
Definition build (old : Tree) : Outcome :=
  let t := rmSync [] old in
  andThen (orThrow t (cpSync (assets site) ["assets" : str] t)) (λ t,
  andThen (orThrow t (cpSync (d1lhy388c2xgxf site) ["d1lhy388c2xgxf" : str] t)) (λ t,
  andThen (orThrow t (copyFileSync (favicon site) ["favicon.ico" : str] t)) (λ t,
  andThen (orThrow t (writeFileSync ["robots.txt" : str] robots t)) (λ t,
  andThen (writePeople t) (λ t,
  andThen (orThrow t (writeFileSync ["index.html" : str] homepageHtml t)) (λ t,
  andThen (writeCategories t) (λ t,
  andThen (writePage (Some ["about" : str]) aboutHtml t) (λ t,
  writePage (Some ["submit" : str]) submitHtml t)))))))).

(** The tree the script leaves. *)
Definition treeOf (o : Outcome) : Tree :=
  match o with
  | Done t | Thrown t | Outside t => t
  end.

End WithSite.

End Build.

(** ** [scripts/verify.js] *)

Module Verify.
Import JsString RegExp Store Fs.

(** The two counters of the script, and what it has printed. *)
Record Report := { errors : nat; warnings : nat; console : list Console }.

(** <<
    function check(condition, msg) {
      if (!condition) {
        console.error(`  ERROR: ${msg}`);
        errors++;
      }
    }
    >> *)
Definition check (condition : bool) (msg : str) (r : Report) : Report :=
  if condition then r
  else {| errors := S (errors r);
          warnings := warnings r;
          console := console r ++ [Error ("  ERROR: " ++ msg)] |}.

(** <<
    function warn(msg) {
      console.warn(`  WARN: ${msg}`);
      warnings++;
    }
    >> *)
Definition warn (msg : str) (r : Report) : Report :=
  {| errors := errors r;
     warnings := S (warnings r);
     console := console r ++ [Warn ("  WARN: " ++ msg)] |}.

Definition log (line : str) (r : Report) : Report :=
  {| errors := errors r; warnings := warnings r; console := console r ++ [Log line] |}.

(** The pattern of section 5 of the script, for local [src=] and [href=]
    references. *)
Definition refRegex : re :=
  seqs [ Alt (Lit "src") (Lit "href"); Lit "="; OneOf (dq ++ "'");
         Group 1 (seqs [ Lit "/"; Group 2 (Alt (Lit "assets") (Lit "d1lhy388c2xgxf"));
                         Plus true (NotOf (dq ++ "'")) ]);
         OneOf (dq ++ "'") ].

(** The pattern of section 6 of the script, for [url(...)] in the style
    sheet. *)
Definition urlRegex : re :=
  seqs [ Lit "url("; Opt (OneOf ("'" ++ dq));
         Group 1 (seqs [ Lit "/"; Group 2 (Alt (Lit "assets") (Lit "d1lhy388c2xgxf"));
                         Plus true (NotOf ("'" ++ dq ++ ")")) ]);
         Opt (OneOf ("'" ++ dq)); Lit ")" ].

(** [s.split(sep)[0]] *)
Definition firstPiece (s sep : str) : str := hd [] (split s sep).

(** [name.endsWith(suffix)] *)
Definition endsWith (name suffix : str) : bool := startsWith (rev suffix) (rev name).

(** How the process ends: it reaches the end of the script, or a call
    of [fs] throws and nothing catches the exception.  Each with the
    counters and the console at that point. *)
Inductive Run := Completed (r : Report) | Threw (r : Report).

Definition reportOf (run : Run) : Report :=
  match run with
  | Completed r | Threw r => r
  end.

Definition andThen (run : Run) (f : Report → Run) : Run :=
  match run with
  | Completed r => f r
  | Threw _ => run
  end.

Section WithRuntime.

(** The regular-expression engine; what the file system holds at a path
    that leaves [_output], by the segments of the path; the store; and
    the tree below [_output]. *)
Variable E : Engine.
Variable outside : list str → option Node.
Variable people : list Person.
Variable categories : list Category.
Variable tree : Tree.

(** The entry at [path.join(OUTPUT, part, ...)]. *)
Definition entryAt (parts : list str) : option Node :=
  match pathJoin parts with
  | Some p => nodeAt tree p
  | None => outside (segments parts)
  end.

(** [fs.existsSync(path.join(OUTPUT, part, ...))]: true of a directory
    as of a file. *)
Definition existsSync (parts : list str) : bool := exists_ (entryAt parts).

(** [fs.readFileSync(path.join(OUTPUT, part, ...), 'utf8')]; [None] when
    it throws. *)
Definition readFileSync (parts : list str) : option str := read (entryAt parts).

(** *** 1. Person pages *)

Definition verifyPersonHtml (p : Person) (html : str) (r : Report) : Report :=
  let r := check (includes html (name p))
             (slug p ++ ": name " ++ dq ++ name p ++ dq ++ " not found in output") r in
  let r := check (includes html (hero_image p))
             (slug p ++ ": hero image " ++ dq ++ hero_image p ++ dq ++ " not found in output") r in
  let r := check (includes html (thumbnail p))
             (slug p ++ ": thumbnail " ++ dq ++ thumbnail p ++ dq ++ " not found in output") r in
  if Nat.ltb 100 (length (interview_content p)) then
    let snippet := substring (interview_content p) 0 80 in
    check (includes html snippet) (slug p ++ ": interview content not found in output") r
  else r.

Definition verifyPerson (r : Report) (p : Person) : Run :=
  let filePath := [slug p; "index.html" : str] in
  let r := check (existsSync filePath) ("Missing: " ++ slug p ++ "/index.html") r in
  if existsSync filePath then
    match readFileSync filePath with
    | Some html => Completed (verifyPersonHtml p html r)
    | None => Threw r
    end
  else Completed r.

(** *** 2. Category pages *)

Definition verifyCategoryHtml (cat : Category) (html : str) (r : Report) : Report :=
  foldl (λ r pid,
           check (includes html ("id=" ++ dq ++ "post-" ++ numToString pid ++ dq))
                 ("category/" ++ cat_slug cat ++ ": missing post-" ++ numToString pid) r)
        r (post_ids cat).

Definition verifyCategory (r : Report) (cat : Category) : Run :=
  let filePath := ["category" : str; cat_slug cat; "index.html" : str] in
  let r := check (existsSync filePath) ("Missing: category/" ++ cat_slug cat ++ "/index.html") r in
  if existsSync filePath then
    match readFileSync filePath with
    | Some html => Completed (verifyCategoryHtml cat html r)
    | None => Threw r
    end
  else Completed r.

(** *** 3. Static pages *)

Definition verifyStatic (r : Report) : Report :=
  let r := check (existsSync ["index.html" : str]) "Missing: index.html" r in
  let r := check (existsSync ["about" : str; "index.html" : str]) "Missing: about/index.html" r in
  let r := check (existsSync ["submit" : str; "index.html" : str]) "Missing: submit/index.html" r in
  let r := check (existsSync ["favicon.ico" : str]) "Missing: favicon.ico" r in
  check (existsSync ["robots.txt" : str]) "Missing: robots.txt" r.

(** *** 4. Homepage completeness *)

Definition verifyHomepage (homepageHtml : str) (r : Report) : Report :=
  foldl (λ r p,
           let r := check (includes homepageHtml ("id=" ++ dq ++ "post-" ++ numToString (post_id p) ++ dq))
                      ("Homepage missing: post-" ++ numToString (post_id p) ++ " (" ++ slug p ++ ")") r in
           check (includes homepageHtml ("href=" ++ dq ++ "/" ++ slug p ++ "/" ++ dq))
                 ("Homepage missing link to: " ++ slug p) r)
        r people.

(** *** 5 and 6. Asset references *)

(** [findHtmlFiles(OUTPUT)]: the regular files below [_output] whose
    name ends in [.html], each with its path relative to [_output] and
    its content, in an order that stands for the order of the traversal. *)
Definition htmlFiles : list (str * str) :=
  omap (λ e, match e.2 with
             | File c => if endsWith (List.last e.1 []) ".html"
                         then Some (JsString.join "/" e.1, c) else None
             | Dir => None
             end)
       (map_to_list tree).

(** The body of a loop over the matches: [ref] has lost its query part;
    a reference seen before is skipped. *)
Definition checkRef (who ref : str) (st : gset str * Report) : gset str * Report :=
  if decide (ref ∈ st.1) then st
  else
    let checkedPaths := {[ref]} ∪ st.1 in
    if existsSync [ref] then (checkedPaths, st.2)
    else (checkedPaths, warn (who ++ " references " ++ ref ++ " but file not found in output") st.2).

Definition verifyRefs (st : gset str * Report) : gset str * Report :=
  foldl (λ st f,
           foldl (λ st m, checkRef f.1 (firstPiece (group m 1) "?") st) st
                 (execAll E refRegex f.2))
        st htmlFiles.

(** Section 6; [None] when reading the style sheet throws (it is a
    directory). *)
Definition verifyCss (st : gset str * Report) : option (gset str * Report) :=
  let cssPath := ["assets" : str; "css" : str; "techies.css" : str] in
  if existsSync cssPath then
    match readFileSync cssPath with
    | Some css =>
        Some (foldl (λ st m, checkRef "techies.css"
                               (firstPiece (firstPiece (group m 1) "?") "#") st)
                    st (execAll E urlRegex css))
    | None => None
    end
  else Some st.

(** *** 7. WordPress remnants *)

Definition remnants : list (str * str) :=
  [ ("wp-content/" : str, " still references wp-content/" : str);
    ("wp-includes/" : str, " still references wp-includes/" : str);
    ("wp-json/" : str, " still references wp-json/" : str);
    ("xmlrpc.php" : str, " still references xmlrpc.php" : str);
    ("wpemojiSettings" : str, " still contains WordPress emoji script" : str);
    ("s3-us-west-2" : str, " still references s3-us-west-2" : str) ].

Definition verifyRemnants (r : Report) : Report :=
  foldl (λ r f,
           foldl (λ r w, if includes f.2 w.1 then warn (f.1 ++ w.2) r else r) r remnants)
        r htmlFiles.

(** *** The run *)

(** [if (errors > 0) process.exit(1)]; otherwise the script ends and the
    status is 0. *)
Definition exitStatus (r : Report) : Z := if Nat.ltb 0 (errors r) then 1%Z else 0%Z.

(** The run of the script once the store is loaded. *)
Definition verifyRun : Run :=
  let r := {| errors := 0; warnings := 0; console := [] |} in
  andThen (foldl (λ run p, andThen run (λ r, verifyPerson r p))
                 (Completed (log "Checking person pages..." r)) people) (λ r,
  andThen (foldl (λ run cat, andThen run (λ r, verifyCategory r cat))
                 (Completed (log "Checking category pages..." r)) categories) (λ r,
  let r := verifyStatic (log "Checking static pages..." r) in
  let r := log "Checking homepage completeness..." r in
  match readFileSync ["index.html" : str] with
  | None => Threw r
  | Some homepageHtml =>
      let r := verifyHomepage homepageHtml r in
      let st := verifyRefs (∅, log "Checking asset references..." r) in
      match verifyCss (st.1, log "Checking CSS url() references..." st.2) with
      | None => Threw (log "Checking CSS url() references..." st.2)
      | Some st =>
          let r := verifyRemnants (log "Checking for WordPress remnants..." st.2) in
          let r := log (nl ++ "--- Verification complete ---") r in
          let r := log ("Files checked: " ++ numToString (Z.of_nat (length htmlFiles))
                        ++ " HTML files, " ++ numToString (Z.of_nat (size st.1))
                        ++ " asset references") r in
          let r := log ("Errors: " ++ numToString (Z.of_nat (errors r))) r in
          let r := log ("Warnings: " ++ numToString (Z.of_nat (warnings r))) r in
          Completed r
      end
  end)).

(** The exit status: [exitStatus] at the end of the script, 1 after an
    uncaught exception. *)
Definition status (run : Run) : Z :=
  match run with
  | Completed r => exitStatus r
  | Threw _ => 1%Z
  end.

(** The report and the exit status of the process. *)
Definition verify : Report * Z := (reportOf verifyRun, status verifyRun).

End WithRuntime.

(** The whole process: [JSON.parse(fs.readFileSync(...))] of the two
    files of the store comes first, and throws when one cannot be read
    or parsed ([None]). *)
Definition main (E : Engine) (outside : list str → option Node)
    (store : option (list Person * list Category)) (tree : Tree) : Run :=
  match store with
  | None => Threw {| errors := 0; warnings := 0; console := [] |}
  | Some (people, categories) => verifyRun E outside people categories tree
  end.

End Verify.

(** ** Notions used to state the properties *)

Module Notions.

(** [occurs x s]: the text [x] occurs in [s]. *)
Definition occurs (x s : str) : Prop := ∃ a b, s = a ++ x ++ b.

(** One of the two texts is a prefix of the other. *)
Fixpoint compat (a b : str) : bool :=
  match a, b with
  | c :: a', d :: b' => Ascii.eqb c d && compat a' b'
  | _, _ => true
  end.

(** An occurrence of [y] can start inside an occurrence of [x]. *)
Fixpoint meets (x y : str) : bool :=
  match x with
  | [] => false
  | _ :: x' => compat x y || meets x' y
  end.

(** An occurrence of [x] and an occurrence of [sep] can share a code unit
    (the empty text has none to share). *)
Definition clash (x sep : str) : bool :=
  match x with
  | [] => false
  | _ :: _ => meets x sep || meets sep x
  end.

(** A name without braces. *)
Definition braceFree (s : str) : bool :=
  forallb (λ c, negb (Ascii.eqb c "{") && negb (Ascii.eqb c "}")) s.

(** The text [v] overlaps the placeholder of none of [keys]. *)
Definition untouched (v : str) (keys : list str) : bool :=
  forallb (λ k, negb (clash v (Build.placeholder k))) keys.

(** The keys that [render] processes after [k]. *)
Fixpoint keysAfter (k : str) (keys : list str) : list str :=
  match keys with
  | [] => []
  | k' :: rest => if decide (k' = k) then rest else keysAfter k rest
  end.

(** A post id resolves when some record of the store carries it. *)
Definition resolves (people : list Store.Person) (id : Z) : Prop :=
  id ∈ Store.post_id <$> people.

End Notions.

(** ** Concrete inputs for the examples *)

Module Scenario.
Import JsString RegExp Store Fs.

Definition someTemplates : Build.Templates :=
  {| Build.head := "<head><title>Techies</title>{{HEAD_EXTRA}}</head>";
     Build.nav := "<nav><a class='{{ABOUT_ACTIVE}}'>About</a><a class='{{SUBMIT_ACTIVE}}'>Submit</a></nav>";
     Build.footer := "<footer></footer>";
     Build.scripts := "<script src='/assets/js/techies.js'></script>";
     Build.personTemplate :=
       "<html>{{HEAD}}<body>{{NAV}}<h1>{{NAME}}</h1><img src='/d1lhy388c2xgxf/portraits/{{HERO_IMAGE}}'>"
       ++ "<img src='/d1lhy388c2xgxf/thumbnails/{{THUMBNAIL}}'><p>{{YEARS_IN_TECH}}</p><p>{{ROLE}}</p>"
       ++ "<p>{{LOCATION}}</p><p>{{INTERVIEW_DATE}}</p>{{ABSTRACT}}<ul>{{PERSONAL_LINKS}}</ul>"
       ++ "{{INTERVIEW_CONTENT}}{{FOOTER}}{{SCRIPTS}}</body></html>";
     Build.homepageTemplate :=
       "<html>{{HEAD}}<body>{{NAV}}<ul>{{CATEGORY_LIST}}</ul>{{GALLERY_CARDS}}{{FOOTER}}{{SCRIPTS}}</body></html>";
     Build.categoryTemplate :=
       "<html>{{HEAD}}<body>{{NAV}}<ul>{{CATEGORY_LIST_INLINE}}</ul>{{GALLERY_CARDS}}{{FOOTER}}{{SCRIPTS}}</body></html>";
     Build.aboutTemplate := "<html>{{HEAD}}<body>{{NAV}}<p>About</p>{{FOOTER}}{{SCRIPTS}}</body></html>";
     Build.submitTemplate := "<html>{{HEAD}}<body>{{NAV}}<p>Submit</p>{{FOOTER}}{{SCRIPTS}}</body></html>" |}.

Definition ada : Person :=
  {| slug := "ada"; post_id := 42; name := "Ada"; hero_image := "ada.jpg";
     thumbnail := "ada-thumb.jpg"; years_in_tech := "12"; role := "Engineer";
     location := "London"; interview_date := "January 2016";
     abstract := "<p>An engineer.</p>";
     personal_links := [ {| url := "https://example.org/ada"; label := "Home" |} ];
     interview_content := "<p>Tell us about your early years.</p>";
     prev := None; next := None; title := Text "Engineer" |}.

(** A second record with the post id of [ada]. *)
Definition ada2 : Person :=
  {| slug := "ada-again"; post_id := 42; name := "Ada II"; hero_image := "ada2.jpg";
     thumbnail := "ada2-thumb.jpg"; years_in_tech := "13"; role := "Engineer";
     location := "Turin"; interview_date := "February 2016"; abstract := [];
     personal_links := []; interview_content := []; prev := None; next := None;
     title := Text "Analyst" |}.

(** A record whose name is the placeholder text of a later entry. *)
Definition eve : Person :=
  {| slug := "eve"; post_id := 7; name := "{{ROLE}}"; hero_image := "eve.jpg";
     thumbnail := "eve-thumb.jpg"; years_in_tech := "3"; role := "Designer";
     location := "Oslo"; interview_date := "January 2016"; abstract := [];
     personal_links := []; interview_content := []; prev := None; next := None;
     title := Text "Designer" |}.

Definition backend : Category :=
  {| cat_slug := "backend"; display_name := Text "Backend"; post_ids := [42%Z] |}.

Definition frontend : Category :=
  {| cat_slug := "frontend"; display_name := Text "Frontend"; post_ids := [42%Z; 99%Z] |}.

Definition siteOf (people : list Person) (categories : list Category) : Build.Site :=
  {| Build.people := people;
     Build.categories := categories;
     Build.templates := someTemplates;
     Build.assets := IsDir {[ ["js" : str] := Dir;
                              ["js" : str; "techies.js" : str] := File "/* js */" ]};
     Build.d1lhy388c2xgxf := IsDir ∅;
     Build.favicon := IsFile "icon" |}.

(** A record and a category under another slug. *)
Definition withSlug (s : str) (p : Person) : Person :=
  {| slug := s; post_id := post_id p; name := name p; hero_image := hero_image p;
     thumbnail := thumbnail p; years_in_tech := years_in_tech p; role := role p;
     location := location p; interview_date := interview_date p; abstract := abstract p;
     personal_links := personal_links p; interview_content := interview_content p;
     prev := prev p; next := next p; title := title p |}.

Definition withCatSlug (s : str) (c : Category) : Category :=
  {| cat_slug := s; display_name := display_name c; post_ids := post_ids c |}.

(** A file system that holds nothing at the paths that leave [_output]. *)
Definition nothing (segs : list str) : option Node := None.

Definition report0 : Verify.Report :=
  {| Verify.errors := 0; Verify.warnings := 0; Verify.console := [] |}.

(** An output tree with the fixed pages, but where [index.html] is a
    directory. *)
Definition indexIsDirectory : Tree :=
  {[ ["index.html" : str] := Dir;
     ["about" : str] := Dir;
     ["about" : str; "index.html" : str] := File "<html>About</html>";
     ["submit" : str] := Dir;
     ["submit" : str; "index.html" : str] := File "<html>Submit</html>";
     ["favicon.ico" : str] := File "icon";
     ["robots.txt" : str] := File Build.robots ]}.

(** A listing with three cards, and the documents of two of them; the
    document of [cy] has no shortlink. *)
Definition listingCard (id slug name title : str) : str :=
  "<div id=" ++ dq ++ "post-" ++ id ++ dq ++ " class=" ++ dq ++ "techie-gallery col-xs-6" ++ dq ++ ">" ++ nl
  ++ "  <a class=" ++ dq ++ "techie-thumbnail" ++ dq ++ " href=" ++ dq ++ "/" ++ slug ++ "/" ++ dq ++ ">" ++ nl
  ++ "    <p class=" ++ dq ++ "name" ++ dq ++ ">" ++ name ++ "</p>" ++ nl
  ++ "    <p class=" ++ dq ++ "title" ++ dq ++ ">" ++ title ++ "&nbsp</p>" ++ nl
  ++ "  </a>" ++ nl ++ "</div>" ++ nl.

Definition listing : str :=
  "<html><body>" ++ listingCard "42" "ada" "Ada" "Engineer"
  ++ listingCard "7" "bob" "Bob" "Designer" ++ listingCard "9" "cy" "Cy" "Writer"
  ++ "</body></html>".

Definition personDocument (shortlink name : str) : str :=
  "<head>" ++ shortlink ++ "</head><div class=" ++ dq ++ "techie-name col-md-12" ++ dq ++ ">" ++ nl
  ++ "  " ++ name ++ nl ++ "</div>".

Definition files : gmap str str :=
  {[ ("index.html" : str) := listing;
     ("ada/index.html" : str) := personDocument "<link rel='shortlink' href='/?p=42' />" "Ada";
     ("cy/index.html" : str) := personDocument [] "Cy" ]}.

End Scenario.

(** ** The rest of [scripts/extract.js]: markers and categories *)

Module Markers.
Import JsString.

(** The markers [parsePersonPage] looks for around the abstract and
    around the interview. *)
Definition abstractMarker : str := "<div class=" ++ dq ++ "col-md-6 abstract" ++ dq ++ ">".
Definition abstractClosing : str :=
  nl ++ "  </div>" ++ nl ++ "</div>" ++ nl ++ "<div class=" ++ dq ++ "row" ++ dq ++ ">".
Definition postMarker : str := "<div class=" ++ dq ++ "col-xs-12 col-md-6 post" ++ dq ++ ">".
Definition postClosing : str :=
  nl ++ "  </div>" ++ nl ++ "  <div class=" ++ dq ++ "col-xs-12 col-md-3 photo" ++ dq ++ ">".

End Markers.

(** [parseCategories] and the display names.  Directories are not in the
    map of files, so what [readdirSync] and [statSync] report of
    [category] is a parameter of its own. *)

Module ExtractCategories.
Import JsString RegExp Store Extract.

(** The pattern of the feed title, of the cards of a category page and of
    the filter bar of the listing. *)
Definition feedTitleRegex : re :=
  seqs [ Lit "Techies &raquo; "; Group 1 (Plus false (NotOf dq)); Lit " Category Feed" ].

Definition postIdRegex : re :=
  seqs [ Lit ("<div id=" ++ dq ++ "post-"); Group 1 Digits; Lit dq ].

Definition catNameRegex : re :=
  seqs [ Lit ("<li id=" ++ dq); Group 1 (Star true (NotOf dq));
         Lit (dq ++ " class=" ++ dq ++ "cat-item" ++ dq ++ "><a href=" ++ dq);
         Star true (NotOf dq); Lit (dq ++ ">"); Group 2 (Plus true (NotOf "<"));
         Lit "</a></li>" ].

Section WithRuntime.

(** The engine and the files, as in [Extract]; the names
    [readdirSync] lists in [category], each with what [statSync] says of
    it ([true] for a directory), or [None] when [category] does not
    exist; and [localeCompare]. *)
Variable E : Engine.
Variable fs : gmap str str.
Variable categoryDir : option (list (str * bool)).
Variable localeCompare : str → str → Z.

(** [categories.sort((a, b) => a.slug.localeCompare(b.slug))]: the sort
    is stable, and for a consistent comparator, as [localeCompare] is, its
    result is the one of inserting the elements from the left, each after
    the elements that are not after it. *)
Fixpoint insertBySlug (cat : Category) (sorted : list Category) : list Category :=
  match sorted with
  | [] => [cat]
  | c :: rest =>
      if decide (localeCompare (cat_slug cat) (cat_slug c) < 0)%Z then cat :: c :: rest
      else c :: insertBySlug cat rest
  end.

Definition sortBySlug (l : list Category) : list Category :=
  foldl (λ sorted cat, insertBySlug cat sorted) [] l.

(** The order the sort establishes: [c1] is not after [c2]. *)
Definition bySlug (c1 c2 : Category) : Prop :=
  (localeCompare (cat_slug c1) (cat_slug c2) ≤ 0)%Z.

(** The names that are directories and are not [feed]. *)
Definition slugs : list str :=
  match categoryDir with
  | None => []
  | Some names => (filter (λ f, f.2 = true ∧ f.1 ≠ ("feed" : str)) names).*1
  end.

(** The body of the loop over [slugs]; [None] is [continue].  As in
    [parseHomepage], a group of digits always parses. *)
Definition parseCategory (slug : str) : option Category :=
  html ← fs !! ("category/" ++ slug ++ "/index.html");
  let display_name := extractMatch E html feedTitleRegex in
  Some {| cat_slug := slug;
          display_name := Text (if decide (display_name = []) then slug else display_name);
          post_ids := (λ m, numOr (parseInt (group m 1)) 0) <$> execAll E postIdRegex html |}.

Definition parseCategories : list Category := sortBySlug (omap parseCategory slugs).

(** [catDisplayNames]: the names of the filter bar by id; a later item of
    the same id overwrites an earlier one. *)
Definition catDisplayNames (homepageHtml : str) : gmap str str :=
  foldl (λ m c, JsObject.set m (group c 1) (group c 2)) ∅ (execAll E catNameRegex homepageHtml).

(** [if (catDisplayNames[cat.slug]) cat.display_name = catDisplayNames[cat.slug]],
    with the display name as it is written to [categories.json]. *)
Definition updateDisplayName (names : gmap str str) (cat : Category) : Category :=
  match JsObject.get names (cat_slug cat) with
  | Some (JsObject.Str n) =>
      if decide (n = []) then cat
      else {| cat_slug := cat_slug cat; display_name := Text n; post_ids := post_ids cat |}
  | Some JsObject.Function =>
      {| cat_slug := cat_slug cat; display_name := Absent; post_ids := post_ids cat |}
  | Some JsObject.Prototype =>
      {| cat_slug := cat_slug cat; display_name := EmptyObject; post_ids := post_ids cat |}
  | None => cat
  end.

(** The categories the script writes to [categories.json]; [None] when
    reading [index.html] throws. *)
Definition categories : option (list Category) :=
  homepageHtml ← readFile fs "index.html";
  Some (updateDisplayName (catDisplayNames homepageHtml) <$> parseCategories).

End WithRuntime.

End ExtractCategories.

(** ** The tree a run of [build] leaves when every call succeeds *)

Module Layout.
Import JsString Store Fs Build.

(** The directories [mkdirFrom base segs] goes through. *)
Fixpoint dirsFrom (base : Path) (segs : list str) : list Path :=
  match segs with
  | [] => []
  | s :: rest => (base ++ [s]) :: dirsFrom (base ++ [s]) rest
  end.

Definition mkdirs (dirs : list Path) (t : Tree) : Tree :=
  foldl (λ t q, <[q := Dir]> t) t dirs.

(** The tree after [writePage] has made the directory and written the
    page. *)
Definition putPage (d : Path) (html : str) (t : Tree) : Tree :=
  <[d ++ ["index.html" : str] := File html]> (mkdirs (dirsFrom [] d) t).

(** The tree after a copy. *)
Definition copied (src : Source) (dest : Path) (t : Tree) : Tree :=
  default t (cpSync src dest t).

(** Entries that no page can clash with: those below the two asset
    directories, the two files at the top, regular files named
    [index.html], and directories no segment of which is [index.html]. *)
Definition shaped (t : Tree) : Prop :=
  ∀ k n, t !! k = Some n →
    hd [] k ∈ [ "assets" : str; "d1lhy388c2xgxf" : str ]
    ∨ match n with
      | File _ => k = ["favicon.ico" : str] ∨ k = ["robots.txt" : str]
                  ∨ (List.last k [] = ("index.html" : str))
      | Dir => ("index.html" : str) ∉ k
      end.

(** A regular file at [k]. *)
Definition isFile (t : Tree) (k : Path) : Prop := ∃ c, t !! k = Some (File c).

(** The regular files a copy of [src] to the top-level name [a] makes. *)
Definition copiedFile (src : Source) (a : str) (k : Path) : Prop :=
  match src with
  | Missing => False
  | IsFile _ => k = [a]
  | IsDir entries => ∃ e c, entries !! e = Some (File c) ∧ k = a :: e
  end.

(** A directory for a page: at least one segment, none of them
    [index.html], the first not an entry at the top that is not a page. *)
Definition pageDir (d : Path) : Prop :=
  d ≠ [] ∧ (("index.html" : str) ∉ d)
  ∧ hd [] d ∉ [ "assets" : str; "d1lhy388c2xgxf" : str; "favicon.ico" : str;
                "robots.txt" : str ].

Section WithSite.

Variable site : Site.

Definition personSegs (p : Person) : Path := split (slug p) "/".

Definition categorySegs (c : Category) : Path := ("category" : str) :: split (cat_slug c) "/".

Definition statics : Tree :=
  <[["robots.txt" : str] := File robots]>
    (copied (favicon site) ["favicon.ico" : str]
       (copied (d1lhy388c2xgxf site) ["d1lhy388c2xgxf" : str]
          (copied (assets site) ["assets" : str] ∅))).

Definition withPeople (t : Tree) : Tree :=
  foldl (λ t p, putPage (personSegs p) (personHtml site p) t) t (people site).

Definition withCategories (t : Tree) : Tree :=
  foldl (λ t c, putPage (categorySegs c) (categoryHtml site c) t) t (categories site).

Definition expected : Tree :=
  putPage ["submit" : str] (submitHtml site)
    (putPage ["about" : str] (aboutHtml site)
       (withCategories
          (<[["index.html" : str] := File (homepageHtml site)]> (withPeople statics)))).

End WithSite.

End Layout.

(** ** Stores that [build] and [verify] agree on *)

Module Placement.
Import JsString Notions Store Fs Build.

(** The names the script itself puts at the top of [_output]. *)
Definition reserved : list str :=
  [ "assets" : str; "d1lhy388c2xgxf" : str; "favicon.ico" : str; "robots.txt" : str;
    "category" : str; "about" : str; "submit" : str ].

(** A slug that [path.join] only cuts at the separators, and no segment
    of which is [index.html]. *)
Definition pageSlug (slug : str) : Prop :=
  Forall (λ s, plain s ∧ s ≠ ("index.html" : str)) (split slug "/").

(** A slug for a person page: its first segment is none of the names of
    the script. *)
Definition personSlug (slug : str) : Prop :=
  pageSlug slug ∧ hd [] (split slug "/") ∉ reserved.

Definition present (src : Source) : Prop :=
  match src with
  | Missing => False
  | _ => True
  end.

Definition regular (src : Source) : Prop :=
  match src with
  | IsFile _ => True
  | _ => False
  end.

(** A site whose pages all find their place: the slugs are as above,
    the two asset directories are there and the favicon is a file. *)
Definition placed (site : Site) : Prop :=
  Forall (λ p, personSlug (slug p)) (people site)
  ∧ Forall (λ c, pageSlug (cat_slug c)) (categories site)
  ∧ present (assets site) ∧ present (d1lhy388c2xgxf site) ∧ regular (favicon site).

(** The checked fields of a record overlap no placeholder of a later
    entry. *)
Definition personFits (p : Person) : Prop :=
  untouched (name p) (keysAfter "NAME" personKeys) = true
  ∧ untouched (hero_image p) (keysAfter "HERO_IMAGE" personKeys) = true
  ∧ untouched (thumbnail p) (keysAfter "THUMBNAIL" personKeys) = true.

(** The templates carry the placeholders of the checked content. *)
Definition templatesFit (t : Templates) : Prop :=
  includes (personTemplate t) (placeholder "NAME") = true
  ∧ includes (personTemplate t) (placeholder "HERO_IMAGE") = true
  ∧ includes (personTemplate t) (placeholder "THUMBNAIL") = true
  ∧ includes (personTemplate t) (placeholder "INTERVIEW_CONTENT") = true
  ∧ includes (categoryTemplate t) (placeholder "GALLERY_CARDS") = true
  ∧ includes (homepageTemplate t) (placeholder "GALLERY_CARDS") = true.

(** The style sheet of the site, when the assets have an entry of its
    name, is no directory. *)
Definition styleSheet (src : Source) : Prop :=
  match src with
  | IsDir entries => entries !! ["css" : str; "techies.css" : str] ≠ Some Dir
  | _ => True
  end.

(** A store and templates that fit together: the site is placed, slugs
    and category slugs are unique, the records fit, every id of a
    category resolves, the templates fit and the style sheet can be
    read. *)
Definition consistent (site : Site) : Prop :=
  placed site
  ∧ NoDup (slug <$> people site)
  ∧ NoDup (cat_slug <$> categories site)
  ∧ Forall personFits (people site)
  ∧ Forall (λ c, Forall (resolves (people site)) (post_ids c)) (categories site)
  ∧ templatesFit (templates site)
  ∧ styleSheet (assets site).

Global Instance pageSlug_dec slug : Decision (pageSlug slug).
Proof. unfold pageSlug. apply _. Defined.

Global Instance personSlug_dec slug : Decision (personSlug slug).
Proof. unfold personSlug. apply _. Defined.

Global Instance present_dec src : Decision (present src).
Proof. destruct src; apply _. Defined.

Global Instance regular_dec src : Decision (regular src).
Proof. destruct src; apply _. Defined.

Global Instance placed_dec site : Decision (placed site).
Proof. unfold placed. apply _. Defined.

Global Instance personFits_dec p : Decision (personFits p).
Proof. unfold personFits. apply _. Defined.

Global Instance templatesFit_dec t : Decision (templatesFit t).
Proof. unfold templatesFit. apply _. Defined.

Global Instance styleSheet_dec src : Decision (styleSheet src).
Proof. destruct src; apply _. Defined.

Global Instance consistent_dec site : Decision (consistent site).
Proof. unfold consistent, resolves. apply _. Defined.

End Placement.

(** ** The accounting of asset references *)

Module References.
Import JsString Store Fs Verify.

(** A reference that names no entry: [checkRef] warns about it when it
    meets it first. *)
Definition dangling (outside : list str → option Node) (tree : Tree) (ref : str) : Prop :=
  entryAt outside tree [ref] = None.

Global Instance dangling_dec outside tree ref : Decision (dangling outside tree ref).
Proof. unfold dangling. apply _. Defined.


End References.

(** ** What a passed check establishes *)

Module Checks.
Import JsString Store Fs Build Verify.

(** What the checks of a person page and of a category page establish:
    the page is a regular file at the path the verifier reads, and holds
    the texts it looks for. *)
Definition personChecked (outside : list str → option Node) (tree : Tree) (p : Person) : Prop :=
  ∃ html, entryAt outside tree [slug p; "index.html" : str] = Some (File html)
    ∧ includes html (name p) = true
    ∧ includes html (hero_image p) = true
    ∧ includes html (thumbnail p) = true
    ∧ (100 < length (interview_content p) →
       includes html (substring (interview_content p) 0 80) = true).

Definition categoryChecked (outside : list str → option Node) (tree : Tree)
    (cat : Category) : Prop :=
  ∃ html, entryAt outside tree ["category" : str; cat_slug cat; "index.html" : str]
          = Some (File html)
    ∧ ∀ pid, pid ∈ post_ids cat → includes html (cardMarker pid) = true.

End Checks.

(** ** Concrete inputs for the categories *)

Module CategoryScenario.
Import JsString RegExp Store.

(** Code units compared from the left, as [localeCompare] orders slugs of
    lower-case letters, digits and hyphens. *)
Fixpoint compareCodeUnits (a b : str) : Z :=
  match a, b with
  | [], [] => 0%Z
  | [], _ :: _ => (-1)%Z
  | _ :: _, [] => 1%Z
  | c :: a', d :: b' =>
      if decide (nat_of_ascii c = nat_of_ascii d) then compareCodeUnits a' b'
      else if decide (nat_of_ascii c < nat_of_ascii d) then (-1)%Z else 1%Z
  end.

Definition categoryDocument (name : str) (ids : list str) : str :=
  "<link title=" ++ dq ++ "Techies &raquo; " ++ name ++ " Category Feed" ++ dq ++ " />"
  ++ concat ((λ id, "<div id=" ++ dq ++ "post-" ++ id ++ dq ++ " class=x>") <$> ids).

Definition filterItem (id name : str) : str :=
  "<li id=" ++ dq ++ id ++ dq ++ " class=" ++ dq ++ "cat-item" ++ dq ++ "><a href=" ++ dq
  ++ "/category/" ++ id ++ "/" ++ dq ++ ">" ++ name ++ "</a></li>".

(** A listing whose filter bar names [frontend]; the pages of [frontend]
    and [backend]; a directory [design] without a page; [feed]; a file. *)
Definition categoryFiles : gmap str str :=
  {[ ("index.html" : str) := "<ul>" ++ filterItem "frontend" "Front End" ++ "</ul>";
     ("category/frontend/index.html" : str) := categoryDocument "Frontend Developer" ["42" : str; "7" : str];
     ("category/backend/index.html" : str) := "<div id=" ++ dq ++ "post-9" ++ dq ++ ">";
     ("category/feed/index.html" : str) := categoryDocument "Feed" [] ]}.

Definition categoryDir : option (list (str * bool)) :=
  Some [ ("frontend" : str, true); ("feed" : str, true); ("design" : str, true);
         ("notes.txt" : str, false); ("backend" : str, true) ].

End CategoryScenario.

(* ====================================================================== *)
(** * Part II.  Properties                                                 *)
(* ====================================================================== *)

(** ** Strings: occurrences, [split] and [join] *)

Module JsStringFacts.
Import JsString Notions.

Lemma startsWith_app (p k : str) : startsWith p (p ++ k) = true.
Proof. induction p as [|c p IH]; [done|]. simpl. by rewrite Ascii.eqb_refl. Qed.

Lemma startsWith_inv (p s : str) : startsWith p s = true → ∃ k, s = p ++ k.
Proof.
  revert s. induction p as [|c p IH]; intros s H; [by exists s|].
  destruct s as [|d s]; [done|]. simpl in H.
  destruct (Ascii.eqb c d) eqn:Hcd; [|done].
  apply Ascii.eqb_eq in Hcd as ->. destruct (IH _ H) as [k ->]. by exists k.
Qed.

Lemma find_unfold (m s : str) :
  find m s = if startsWith m s then Some 0
             else match s with [] => None | _ :: s' => S <$> find m s' end.
Proof. by destruct s. Qed.

Lemma find_nil (m : str) : m ≠ [] → find m [] = None.
Proof. by destruct m. Qed.

(** [find] returns the position of an occurrence. *)
Lemma find_Some (m s : str) i :
  find m s = Some i → s = take i s ++ m ++ drop (i + length m) s.
Proof.
  revert i. induction s as [|c s IH]; intros i; rewrite find_unfold.
  - destruct (startsWith m []) eqn:Hp; [|done]. intros [= <-].
    apply startsWith_inv in Hp as [k Hk]. by destruct m.
  - destruct (startsWith m (c :: s)) eqn:Hp.
    + intros [= <-]. apply startsWith_inv in Hp as [k Hk].
      rewrite Hk. simpl. by rewrite drop_app_length.
    + destruct (find m s) as [j|] eqn:Hf; [|done]. intros [= <-].
      simpl. f_equal. by apply IH.
Qed.

Lemma find_bound (m s : str) i : find m s = Some i → i + length m ≤ length s.
Proof.
  revert i. induction s as [|c s IH]; intros i; rewrite find_unfold.
  - destruct (startsWith m []) eqn:Hp; [|done]. intros [= <-]. by destruct m.
  - destruct (startsWith m (c :: s)) eqn:Hp.
    + intros [= <-]. apply startsWith_inv in Hp as [k Hk].
      rewrite Hk, length_app. lia.
    + destruct (find m s) as [j|] eqn:Hf; [|done]. intros [= <-].
      specialize (IH j eq_refl). simpl. lia.
Qed.

(** [find] finds an occurrence when there is one. *)
Lemma find_occurs (m a b : str) : is_Some (find m (a ++ m ++ b)).
Proof.
  induction a as [|c a IH]; rewrite find_unfold.
  - simpl. rewrite startsWith_app. eauto.
  - destruct (startsWith m _); [eauto|]. simpl. destruct IH as [j ->]. eauto.
Qed.

Lemma includes_occurs (s x : str) : includes s x = true ↔ occurs x s.
Proof.
  unfold includes, occurs. split.
  - destruct (find x s) as [i|] eqn:Hf; [|done]. intros _.
    apply find_Some in Hf. eauto.
  - intros (a & b & ->). by destruct (find_occurs x a b) as [i ->].
Qed.

Lemma includes_app_l (s x a : str) : includes s x = true → includes (a ++ s) x = true.
Proof.
  rewrite !includes_occurs. intros (u & w & ->). exists (a ++ u), w. by rewrite <- app_assoc.
Qed.

Lemma includes_app_r (s x b : str) : includes s x = true → includes (s ++ b) x = true.
Proof.
  rewrite !includes_occurs. intros (u & w & ->). exists u, (w ++ b). by rewrite <- !app_assoc.
Qed.

Lemma includes_self (x : str) : includes x x = true.
Proof. apply includes_occurs. exists [], []. by rewrite app_nil_r. Qed.

Lemma includes_trans (s y x : str) :
  includes s y = true → includes y x = true → includes s x = true.
Proof.
  rewrite !includes_occurs. intros (a & b & ->) (u & w & ->).
  exists (a ++ u), (w ++ b). by rewrite <- !app_assoc.
Qed.

(** *** [split] and [join] *)

Lemma splitN_nil (sep : str) n : sep ≠ [] → splitN n [] sep = [[]].
Proof. intros H. destruct sep; [done|]. by destruct n. Qed.

Lemma splitN_None (sep : str) n (s : str) : find sep s = None → splitN n s sep = [s].
Proof. intros H. destruct n; simpl; by rewrite H. Qed.

Lemma splitN_S (sep : str) n (s : str) :
  splitN (S n) s sep = match find sep s with
                       | Some i => take i s :: splitN n (drop (i + length sep) s) sep
                       | None => [s]
                       end.
Proof. done. Qed.

Lemma splitN_fuel (sep : str) n m (s : str) :
  sep ≠ [] → length s ≤ n → length s ≤ m → splitN n s sep = splitN m s sep.
Proof.
  intros Hsep. revert m s. induction n as [|n IH]; intros m s Hn Hm.
  - destruct s; [|simpl in Hn; lia]. by rewrite !splitN_nil.
  - destruct (find sep s) as [i|] eqn:Hf; [|by rewrite !splitN_None].
    pose proof (find_bound _ _ _ Hf) as Hb.
    assert (0 < length sep) by (destruct sep; [done|simpl; lia]).
    destruct m as [|m]; [lia|]. rewrite !splitN_S, Hf. f_equal.
    apply IH; rewrite length_drop; lia.
Qed.

Lemma split_unfold (s sep : str) :
  sep ≠ [] →
  split s sep = match find sep s with
                | Some i => take i s :: split (drop (i + length sep) s) sep
                | None => [s]
                end.
Proof.
  intros Hsep. unfold split. destruct sep as [|c sep'] eqn:E; [done|]. rewrite <- E in *.
  destruct s as [|d s'] eqn:Es.
  - by rewrite splitN_nil, find_nil.
  - rewrite <- Es. assert (length s = S (length s')) as -> by (by subst).
    rewrite splitN_S. destruct (find sep s) as [i|] eqn:Hf; [|done].
    f_equal. pose proof (find_bound _ _ _ Hf) as Hb.
    assert (0 < length sep) by (subst sep; simpl; lia).
    apply splitN_fuel; [done| |done]. rewrite length_drop. subst s. simpl in *. lia.
Qed.

Lemma join_cons (v p : str) (ps : list str) :
  ps ≠ [] → join v (p :: ps) = p ++ v ++ join v ps.
Proof. by destruct ps. Qed.

Lemma split_nonempty (s sep : str) : sep ≠ [] → split s sep ≠ [].
Proof. intros H. rewrite split_unfold by done. by destruct (find sep s). Qed.

(** The three equations of replacing every occurrence, read as a scan from
    the left. *)
Lemma replace_nil (sep v : str) : sep ≠ [] → join v (split [] sep) = [].
Proof. intros H. rewrite split_unfold by done. by rewrite find_nil. Qed.

Lemma replace_match (s sep v : str) :
  sep ≠ [] → startsWith sep s = true →
  join v (split s sep) = v ++ join v (split (drop (length sep) s) sep).
Proof.
  intros Hsep Hp. rewrite (split_unfold s) by done. rewrite find_unfold, Hp.
  rewrite join_cons by by apply split_nonempty. done.
Qed.

Lemma replace_skip c (s sep v : str) :
  sep ≠ [] → startsWith sep (c :: s) = false →
  join v (split (c :: s) sep) = c :: join v (split s sep).
Proof.
  intros Hsep Hp. rewrite (split_unfold (c :: s)), (split_unfold s) by done.
  rewrite find_unfold, Hp. destruct (find sep s) as [i|]; [|done]. simpl.
  pose proof (split_nonempty (drop (i + length sep) s) sep Hsep).
  by destruct (split (drop (i + length sep) s) sep).
Qed.

(** *** Occurrences that a replacement cannot touch *)

Lemma compat_common (u w r1 r2 : str) : u ++ r1 = w ++ r2 → compat u w = true.
Proof.
  revert w. induction u as [|c u IH]; intros [|d w]; try done.
  simpl. intros [= -> H]. rewrite Ascii.eqb_refl. simpl. eauto.
Qed.

Lemma startsWith_compat (sep x b : str) : startsWith sep (x ++ b) = true → compat x sep = true.
Proof.
  intros H. apply startsWith_inv in H as [k Hk]. by eapply compat_common.
Qed.

Lemma meets_drop (sep x : str) n :
  n < length sep → compat (drop n sep) x = true → meets sep x = true.
Proof.
  revert n. induction sep as [|c sep IH]; intros n Hn Hc; [simpl in Hn; lia|].
  destruct n as [|n].
  - simpl in *. by rewrite Hc.
  - simpl in Hn, Hc. change (meets (c :: sep) x) with (compat (c :: sep) x || meets sep x).
    rewrite (IH n) by (done || lia). apply orb_true_r.
Qed.

(** No occurrence of [sep] starts inside [x]: the scan copies [x]. *)
Lemma replace_prefix (x b sep v : str) :
  meets x sep = false →
  join v (split (x ++ b) sep) = x ++ join v (split b sep).
Proof.
  induction x as [|c x IH]; [done|]. intros Hm.
  change (meets (c :: x) sep) with (compat (c :: x) sep || meets x sep) in Hm.
  apply orb_false_iff in Hm as [Hc Hm].
  assert (sep ≠ []) as Hsep by (intros ->; done).
  simpl. rewrite replace_skip; [by rewrite IH|done|].
  destruct (startsWith sep (c :: x ++ b)) eqn:Hp; [|done].
  apply (startsWith_compat sep (c :: x) b) in Hp. congruence.
Qed.

(** An occurrence of [x] survives the replacement of every [sep] when the
    two cannot overlap. *)
Lemma replace_keeps (s x sep v : str) :
  clash x sep = false → includes s x = true → includes (join v (split s sep)) x = true.
Proof.
  intros Hc.
  destruct x as [|x0 x'] eqn:Ex; [intros _; apply includes_occurs; by exists [], (join v (split s sep))|].
  apply orb_false_iff in Hc as [Hxs Hsx].
  rewrite <- Ex in *. assert (sep ≠ []) as Hsep.
  { intros ->. subst x. done. }
  assert (0 < length sep) as Hlen by (destruct sep; [done|simpl; lia]).
  remember (length s) as n eqn:Hn. revert s Hn.
  induction n as [n IH] using lt_wf_ind. intros s Hn Hin.
  apply includes_occurs in Hin as (a & b & Hs).
  destruct a as [|c a].
  - subst s. simpl. rewrite replace_prefix by done. apply includes_occurs. by exists [], (join v (split b sep)).
  - destruct (startsWith sep s) eqn:Hp.
    + rewrite replace_match by done. apply includes_app_l.
      destruct (decide (length (c :: a) < length sep)) as [Hlt|Hge].
      * exfalso. apply startsWith_inv in Hp as [k Hk].
        assert (compat (drop (length (c :: a)) sep) x = true) as Hcc.
        { apply (compat_common _ _ k b).
          rewrite <- (drop_app_le sep k) by lia. rewrite <- Hk, Hs.
          by rewrite drop_app_length. }
        rewrite (meets_drop sep x (length (c :: a))) in Hsx; done.
      * pose proof (f_equal length Hs) as Hl. rewrite length_app in Hl.
        apply (IH (length (drop (length sep) s))); [rewrite length_drop; lia|done|].
        apply includes_occurs. exists (drop (length sep) (c :: a)), b.
        rewrite Hs. rewrite drop_app_le by lia. done.
    + subst s. simpl in Hp |- *. rewrite replace_skip by done.
      apply (includes_app_l _ _ [c]).
      apply (IH (length (a ++ x ++ b))); [simpl in Hn; lia|done|].
      apply includes_occurs. by exists a, b.
Qed.

(** The first occurrence: no occurrence starts before the position
    [find] returns. *)
Lemma find_first (m s : str) i (a b : str) :
  find m s = Some i → s = a ++ m ++ b → i ≤ length a.
Proof.
  revert i a. induction s as [|c s IH]; intros i a; rewrite find_unfold.
  - destruct (startsWith m []); [intros [= <-]; lia|done].
  - destruct (startsWith m (c :: s)) eqn:Hp; [intros [= <-]; lia|].
    destruct (find m s) as [j|] eqn:Hf; [|done]. intros [= <-] Hs.
    destruct a as [|d a]; simpl in Hs.
    + rewrite Hs, startsWith_app in Hp. done.
    + injection Hs as -> Hs. specialize (IH j a eq_refl Hs). simpl. lia.
Qed.

Lemma find_None_includes (m s : str) : find m s = None ↔ includes s m = false.
Proof. unfold includes. by destruct (find m s). Qed.

Lemma replace_absent (s sep v : str) :
  sep ≠ [] → includes s sep = false → join v (split s sep) = s.
Proof.
  intros Hsep H. apply find_None_includes in H. rewrite split_unfold by done. by rewrite H.
Qed.

Lemma replace_inserts (s sep v : str) :
  sep ≠ [] → includes s sep = true → includes (join v (split s sep)) v = true.
Proof.
  intros Hsep H. unfold includes in H. rewrite split_unfold by done.
  destruct (find sep s) as [i|]; [|done].
  rewrite join_cons by by apply split_nonempty.
  apply includes_app_l, includes_app_r, includes_self.
Qed.

(** The pieces of a split: joining them with the separator gives the text
    back, and no piece contains the separator. *)
Lemma join_split (s sep : str) : sep ≠ [] → join sep (split s sep) = s.
Proof.
  intros Hsep. remember (length s) as n eqn:Hn. revert s Hn.
  induction n as [n IH] using lt_wf_ind. intros s Hn.
  rewrite split_unfold by done. destruct (find sep s) as [i|] eqn:Hf; [|done].
  rewrite join_cons by by apply split_nonempty.
  pose proof (find_bound _ _ _ Hf).
  assert (0 < length sep) by (destruct sep; [done|simpl; lia]).
  rewrite (IH (length (drop (i + length sep) s))); [|rewrite length_drop; lia|done].
  symmetry. by apply find_Some.
Qed.

Lemma split_pieces (s sep : str) :
  sep ≠ [] → Forall (λ p, includes p sep = false) (split s sep).
Proof.
  intros Hsep. remember (length s) as n eqn:Hn. revert s Hn.
  induction n as [n IH] using lt_wf_ind. intros s Hn.
  rewrite split_unfold by done. destruct (find sep s) as [i|] eqn:Hf.
  - pose proof (find_bound _ _ _ Hf).
    assert (0 < length sep) by (destruct sep; [done|simpl; lia]).
    constructor; [|apply (IH (length (drop (i + length sep) s))); [rewrite length_drop; lia|done]].
    destruct (includes (take i s) sep) eqn:Hin; [|done]. exfalso.
    apply includes_occurs in Hin as (a & b & Ha).
    assert (i ≤ length a); [|apply (f_equal length) in Ha;
      rewrite length_take, !length_app in Ha; lia].
    apply (find_first sep s i a (b ++ drop i s) Hf).
    rewrite <- (take_drop i s) at 1. rewrite Ha. by rewrite <- !app_assoc.
  - constructor; [|done]. by apply find_None_includes.
Qed.

End JsStringFacts.

(** ** Dictionaries filled by a loop *)

Module MapFacts.

(** A loop of assignments [m[key x] = val x]: the last assignment to a key
    wins. *)
Lemma foldl_insert_last `{Countable K} {A V} (key : A → K) (val : A → V)
    (l : list A) (m : gmap K V) (k : K) :
  foldl (λ m x, <[key x := val x]> m) m l !! k
  = match last (filter (λ x, key x = k) l) with
    | Some x => Some (val x)
    | None => m !! k
    end.
Proof.
  induction l as [|x l IH] using rev_ind; [done|].
  rewrite foldl_app, filter_app. simpl.
  destruct (decide (key x = k)) as [<-|Hne].
  - rewrite lookup_insert_eq. rewrite filter_cons_True by done.
    by rewrite filter_nil, last_snoc.
  - rewrite lookup_insert_ne by done. rewrite filter_cons_False by done.
    by rewrite filter_nil, app_nil_r.
Qed.

Lemma foldl_insert_fresh `{Countable K} {A V} (key : A → K) (val : A → V)
    (l : list A) (m : gmap K V) (k : K) :
  (∀ y, y ∈ l → key y ≠ k) →
  foldl (λ m x, <[key x := val x]> m) m l !! k = m !! k.
Proof.
  intros Hl. rewrite foldl_insert_last.
  replace (filter (λ x, key x = k) l) with (@nil A); [done|].
  symmetry. induction l as [|y l IH]; [done|].
  rewrite filter_cons_False by (apply Hl; left).
  apply IH. intros z Hz. apply Hl. by right.
Qed.

Lemma foldl_insert_at `{Countable K} {A V} (key : A → K) (val : A → V)
    (l1 l2 : list A) (x : A) (m : gmap K V) :
  (∀ y, y ∈ l2 → key y ≠ key x) →
  foldl (λ m x, <[key x := val x]> m) m (l1 ++ x :: l2) !! key x = Some (val x).
Proof.
  intros Hl. rewrite foldl_app. simpl.
  rewrite foldl_insert_fresh by done. apply lookup_insert_eq.
Qed.

End MapFacts.

Module BuildFacts.
Import JsString Notions Store Build JsStringFacts MapFacts.

Lemma placeholder_nonempty (key : str) : placeholder key ≠ [].
Proof. done. Qed.

Lemma substitute_nil key value : substitute [] key value = [].
Proof. apply replace_nil, placeholder_nonempty. Qed.

Lemma substitute_match (s key value : str) :
  startsWith (placeholder key) s = true →
  substitute s key value
  = value ++ substitute (drop (length (placeholder key)) s) key value.
Proof. apply replace_match, placeholder_nonempty. Qed.

Lemma substitute_skip c (s key value : str) :
  startsWith (placeholder key) (c :: s) = false →
  substitute (c :: s) key value = c :: substitute s key value.
Proof. apply replace_skip, placeholder_nonempty. Qed.

Lemma render_cons (template key value : str) vars :
  render template ((key, value) :: vars) = render (substitute template key value) vars.
Proof. done. Qed.

Lemma render_app (template : str) vars1 vars2 :
  render template (vars1 ++ vars2) = render (render template vars1) vars2.
Proof. apply foldl_app. Qed.

Lemma braceFree_cons c (s : str) :
  braceFree (c :: s) = true →
  Ascii.eqb c "{" = false ∧ Ascii.eqb c "}" = false ∧ braceFree s = true.
Proof.
  unfold braceFree. cbn -[Ascii.eqb]. rewrite !andb_true_iff, !negb_true_iff. tauto.
Qed.

Lemma compat_closing (a b : str) :
  braceFree a = true → braceFree b = true →
  compat (a ++ "}}") (b ++ "}}") = true → a = b.
Proof.
  revert b. induction a as [|c a IH]; intros [|d b] Ha Hb.
  - done.
  - apply braceFree_cons in Hb as (_ & Hd & _). cbn -[Ascii.eqb].
    rewrite Ascii.eqb_sym, Hd. done.
  - apply braceFree_cons in Ha as (_ & Hc & _). cbn -[Ascii.eqb]. rewrite Hc. done.
  - apply braceFree_cons in Ha as (_ & _ & Ha). apply braceFree_cons in Hb as (_ & _ & Hb).
    cbn -[Ascii.eqb]. intros H. apply andb_true_iff in H as [Hcd H].
    apply Ascii.eqb_eq in Hcd as ->. f_equal. by apply IH.
Qed.

Lemma meets_tail (a y : str) :
  braceFree a = true → meets (a ++ "}}") ("{"%char :: y) = false.
Proof.
  induction a as [|c a IH]; intros Ha; [done|].
  apply braceFree_cons in Ha as (Hc & _ & Ha). cbn -[Ascii.eqb]. rewrite Hc. by apply IH.
Qed.

Lemma meets_placeholders (a b : str) :
  braceFree a = true → braceFree b = true → a ≠ b →
  meets (placeholder a) (placeholder b) = false.
Proof.
  intros Ha Hb Hab. unfold placeholder. cbn -[Ascii.eqb].
  rewrite (meets_tail a) by done. rewrite !Ascii.eqb_refl, !orb_false_r.
  apply orb_false_iff. split.
  - destruct (compat (a ++ "}}") (b ++ "}}")) eqn:E; [|done].
    by apply compat_closing in E.
  - destruct a as [|c a]; [done|].
    apply braceFree_cons in Ha as (Hc & _ & _). cbn -[Ascii.eqb]. by rewrite Hc.
Qed.

(** The placeholders of two different names without braces cannot
    overlap. *)
Lemma clash_placeholders (a b : str) :
  braceFree a = true → braceFree b = true → a ≠ b →
  clash (placeholder a) (placeholder b) = false.
Proof.
  intros Ha Hb Hab. change (clash (placeholder a) (placeholder b))
    with (meets (placeholder a) (placeholder b) || meets (placeholder b) (placeholder a)).
  by rewrite !meets_placeholders.
Qed.

(** Text that overlaps no placeholder of [vars] is still there after
    [render]. *)
Lemma render_keeps (template x : str) (vars : list (str * str)) :
  (∀ kv, kv ∈ vars → clash x (placeholder kv.1) = false) →
  includes template x = true → includes (render template vars) x = true.
Proof.
  revert template. induction vars as [|[k v] vars IH]; intros t Hc Hin; [done|].
  rewrite render_cons. apply IH; [intros kv Hkv; apply Hc; by right|].
  apply replace_keeps; [|done]. apply (Hc (k, v)). by left.
Qed.

(** In particular the placeholder of a name that is not a key of [vars]. *)
Lemma render_keeps_unknown (template name : str) (vars : list (str * str)) :
  braceFree name = true →
  (∀ kv, kv ∈ vars → braceFree kv.1 = true ∧ kv.1 ≠ name) →
  includes template (placeholder name) = true →
  includes (render template vars) (placeholder name) = true.
Proof.
  intros Hn Hvars. apply render_keeps. intros kv Hkv.
  destruct (Hvars kv Hkv) as [Hk Hne]. by apply clash_placeholders.
Qed.

Lemma render_unchanged (template : str) (vars : list (str * str)) :
  (∀ kv, kv ∈ vars → includes template (placeholder kv.1) = false) →
  render template vars = template.
Proof.
  induction vars as [|[k v] vars IH]; intros Hc; [done|].
  rewrite render_cons. unfold substitute. rewrite replace_absent.
  - apply IH. intros kv Hkv. apply Hc. by right.
  - apply placeholder_nonempty.
  - apply (Hc (k, v)). by left.
Qed.

(** The value of an entry is in the result when its placeholder is in the
    template, the earlier entries cannot touch the placeholder and the
    later ones cannot touch the value. *)
Lemma render_inserts (template k v : str) (vars1 vars2 : list (str * str)) :
  includes template (placeholder k) = true →
  (∀ kv, kv ∈ vars1 → clash (placeholder k) (placeholder kv.1) = false) →
  (∀ kv, kv ∈ vars2 → clash v (placeholder kv.1) = false) →
  includes (render template (vars1 ++ (k, v) :: vars2)) v = true.
Proof.
  intros Hin H1 H2. rewrite render_app, render_cons.
  apply render_keeps; [done|].
  apply replace_inserts; [apply placeholder_nonempty|].
  by apply render_keeps.
Qed.

End BuildFacts.

(** ** Paths, directories and writes *)

Module FsFacts.
Import JsString Notions Store Fs Build Layout JsStringFacts MapFacts.

(** *** [path.join] *)

Lemma resolveFrom_plain (rstack segs : list str) :
  Forall plain segs → resolveFrom rstack segs = Some (rev rstack ++ segs).
Proof.
  intros H. revert rstack. induction H as [|s segs (H1 & H2 & H3) _ IH]; intros rstack.
  - by rewrite app_nil_r.
  - cbn [resolveFrom]. rewrite decide_False by (by intros [?|?]).
    rewrite decide_False by done. rewrite IH. cbn [rev]. by rewrite <- app_assoc.
Qed.

Lemma pathJoin_plain (parts : list str) :
  Forall plain (segments parts) → pathJoin parts = Some (segments parts).
Proof. intros H. unfold pathJoin. by rewrite resolveFrom_plain. Qed.

Lemma split_slash_inj (a b : str) : split a "/" = split b "/" → a = b.
Proof.
  intros H. rewrite <- (join_split a "/"), <- (join_split b "/") by done. by rewrite H.
Qed.

(** *** The directories on the way to a path *)

Lemma dirsFrom_elem (base segs : list str) (q : Path) :
  q ∈ dirsFrom base segs ↔ ∃ a b, a ≠ [] ∧ segs = a ++ b ∧ q = base ++ a.
Proof.
  revert base. induction segs as [|s segs IH]; intros base; cbn [dirsFrom].
  - split; [by intros ?%not_elem_of_nil|]. intros (a & b & Ha & Hs & _).
    symmetry in Hs. by apply app_eq_nil in Hs as [-> _].
  - rewrite elem_of_cons, IH. split.
    + intros [->|(a & b & Ha & -> & ->)].
      * by exists [s], segs.
      * exists (s :: a), b. split_and!; [done|done|]. by rewrite <- app_assoc.
    + intros (a & b & Ha & Hs & ->). destruct a as [|s' a]; [done|].
      injection Hs as -> ->. destruct a as [|s'' a]; [by left|].
      right. exists (s'' :: a), b. split_and!; [done|done|]. by rewrite <- app_assoc.
Qed.

Lemma dirsFrom_self (d : Path) : d ≠ [] → d ∈ dirsFrom [] d.
Proof. intros Hd. apply dirsFrom_elem. exists d, []. by rewrite app_nil_r. Qed.

Lemma dirsFrom_prefix (d q : Path) :
  q ∈ dirsFrom [] d → q ≠ [] ∧ hd [] q = hd [] d ∧ (∀ x, x ∈ q → x ∈ d) ∧ length q ≤ length d.
Proof.
  intros (a & b & Ha & -> & ->)%dirsFrom_elem. simpl. split_and!.
  - done.
  - by destruct a.
  - intros x Hx. apply elem_of_app. by left.
  - rewrite length_app. lia.
Qed.

Lemma mkdirs_lookup (dirs : list Path) (t : Tree) (k : Path) :
  mkdirs dirs t !! k = if decide (k ∈ dirs) then Some Dir else t !! k.
Proof.
  unfold mkdirs. revert t. induction dirs as [|q dirs IH]; intros t; [done|].
  cbn [foldl]. rewrite IH. destruct (decide (k ∈ dirs)) as [Hin|Hnin].
  - rewrite decide_True; [done|by right].
  - destruct (decide (k = q)) as [->|Hne].
    + rewrite lookup_insert_eq. rewrite decide_True; [done|by left].
    + rewrite lookup_insert_ne by done. rewrite decide_False; [done|].
      by intros [?|?]%elem_of_cons.
Qed.

Lemma mkdirFrom_ok (base segs : list str) (t : Tree) :
  (∀ q c, q ∈ dirsFrom base segs → t !! q ≠ Some (File c)) →
  mkdirFrom base segs t = Some (mkdirs (dirsFrom base segs) t).
Proof.
  revert base t. induction segs as [|s segs IH]; intros base t H; [done|].
  cbn [mkdirFrom dirsFrom]. unfold mkdirs. cbn [foldl]. fold (mkdirs (dirsFrom (base ++ [s]) segs)).
  assert (mkdirFrom (base ++ [s]) segs (<[base ++ [s] := Dir]> t)
          = Some (mkdirs (dirsFrom (base ++ [s]) segs) (<[base ++ [s] := Dir]> t))) as Hrec.
  { apply IH. intros q c Hq. destruct (decide (q = base ++ [s])) as [->|Hne].
    - by rewrite lookup_insert_eq.
    - rewrite lookup_insert_ne by done. apply H. by right. }
  destruct (t !! (base ++ [s])) as [[c|]|] eqn:Hl; [|done|done].
  exfalso. apply (H (base ++ [s]) c); [by left|done].
Qed.

(** [mkdirp] throws when a directory on the way is a regular file. *)
Lemma mkdirFrom_file (base segs : list str) (t : Tree) (q : Path) (c : str) :
  q ∈ dirsFrom base segs → t !! q = Some (File c) → mkdirFrom base segs t = None.
Proof.
  revert base t. induction segs as [|s segs IH]; intros base t Hq Hf;
    [by apply not_elem_of_nil in Hq|].
  cbn [mkdirFrom dirsFrom] in *. apply elem_of_cons in Hq as [->|Hq]; [by rewrite Hf|].
  destruct (t !! (base ++ [s])) as [[c'|]|] eqn:Hl; [done| |].
  - apply (IH _ _ Hq). destruct (decide (q = base ++ [s])) as [->|Hne]; [congruence|].
    by rewrite lookup_insert_ne.
  - apply (IH _ _ Hq). destruct (decide (q = base ++ [s])) as [->|Hne]; [congruence|].
    by rewrite lookup_insert_ne.
Qed.

(** *** A page in its directory *)

Lemma page_not_dir_on_way (d d' : Path) :
  ("index.html" : str) ∉ d' → d ++ ["index.html" : str] ∉ dirsFrom [] d'.
Proof.
  intros Hi Hin. apply dirsFrom_prefix in Hin as (_ & _ & Hsub & _).
  apply Hi, Hsub, elem_of_app. right. by left.
Qed.

Lemma putPage_lookup (d : Path) (html : str) (t : Tree) (k : Path) :
  putPage d html t !! k
  = if decide (k = d ++ ["index.html" : str]) then Some (File html)
    else if decide (k ∈ dirsFrom [] d) then Some Dir else t !! k.
Proof.
  unfold putPage. destruct (decide (k = d ++ ["index.html" : str])) as [->|Hne].
  - apply lookup_insert_eq.
  - rewrite lookup_insert_ne by done. apply mkdirs_lookup.
Qed.

Lemma putPage_page (d : Path) (html : str) (t : Tree) :
  putPage d html t !! (d ++ ["index.html" : str]) = Some (File html).
Proof. rewrite putPage_lookup. by rewrite decide_True. Qed.

(** The page of another directory is not touched. *)
Lemma putPage_other_page (d d' : Path) (html : str) (t : Tree) :
  d ≠ d' → ("index.html" : str) ∉ d' →
  putPage d' html t !! (d ++ ["index.html" : str]) = t !! (d ++ ["index.html" : str]).
Proof.
  intros Hne Hi. rewrite putPage_lookup.
  rewrite decide_False by (intros H; by apply app_inv_tail in H).
  rewrite decide_False by by apply page_not_dir_on_way. done.
Qed.

Lemma writeFileSync_ok (p : Path) (data : str) (t : Tree) :
  nodeAt t p ≠ Some Dir → nodeAt t (removelast p) = Some Dir →
  writeFileSync p data t = Some (<[p := File data]> t).
Proof.
  intros Hp Hd. unfold writeFileSync. rewrite Hd.
  destruct (nodeAt t p) as [[c|]|]; done.
Qed.

Lemma writePage_ok (d : Path) (html : str) (t : Tree) :
  d ≠ [] →
  (∀ q c, q ∈ dirsFrom [] d → t !! q ≠ Some (File c)) →
  ("index.html" : str) ∉ d →
  t !! (d ++ ["index.html" : str]) ≠ Some Dir →
  writePage (Some d) html t = Done (putPage d html t).
Proof.
  intros Hd Hfiles Hi Hpage. unfold writePage, mkdirp. rewrite mkdirFrom_ok by done.
  cbn [orThrow andThen]. rewrite writeFileSync_ok; [done| |].
  - destruct d as [|s d]; [done|]. cbn [nodeAt app]. rewrite mkdirs_lookup.
    rewrite decide_False by by apply (page_not_dir_on_way (s :: d) (s :: d)). done.
  - rewrite removelast_last. destruct d as [|s d]; [done|]. cbn [nodeAt].
    rewrite mkdirs_lookup. rewrite decide_True; [done|]. by apply dirsFrom_self.
Qed.

(** A slug that runs through a regular file makes [writePage] throw, and
    the tree is as before. *)
Lemma writePage_through_file (d q : Path) (html c : str) (t : Tree) :
  q ∈ dirsFrom [] d → t !! q = Some (File c) → writePage (Some d) html t = Thrown t.
Proof.
  intros Hq Hf. unfold writePage, mkdirp. by rewrite (mkdirFrom_file _ _ _ q c).
Qed.

Lemma rmSync_root (t : Tree) : rmSync [] t = ∅.
Proof.
  unfold rmSync. apply map_eq. intros k. rewrite lookup_empty.
  apply map_lookup_filter_None. right. intros v _ Hk. apply Hk. apply prefix_nil.
Qed.

End FsFacts.

(** ** The run of [build] *)

Module TreeFacts.
Import JsString Notions Store Fs Build Layout Placement JsStringFacts MapFacts FsFacts.

(** *** Slugs and directories *)

Lemma pageSlug_segs (s : str) :
  pageSlug s →
  split s "/" ≠ [] ∧ Forall plain (split s "/") ∧ ("index.html" : str) ∉ split s "/".
Proof.
  intros H. split_and!.
  - by apply split_nonempty.
  - eapply Forall_impl; [exact H|]. by intros x [? _].
  - intros Hin. unfold pageSlug in H. rewrite Forall_forall in H.
    by destruct (H _ Hin) as [_ ?].
Qed.

Lemma personSlug_dir (p : Person) :
  personSlug (slug p) → personDir p = Some (personSegs p) ∧ pageDir (personSegs p).
Proof.
  intros [Hp Hr]. destruct (pageSlug_segs _ Hp) as (Hne & Hpl & Hi). split.
  - unfold personDir, personSegs. rewrite pathJoin_plain; unfold segments; csimpl;
      by rewrite app_nil_r.
  - unfold pageDir, personSegs. split_and!; [done|done|].
    intros Hin. apply Hr. unfold reserved.
    repeat (apply elem_of_cons in Hin as [->|Hin]; [by repeat constructor|]).
    by apply not_elem_of_nil in Hin.
Qed.

Lemma pageSlug_dir (c : Category) :
  pageSlug (cat_slug c) → categoryDir c = Some (categorySegs c) ∧ pageDir (categorySegs c).
Proof.
  intros Hp. destruct (pageSlug_segs _ Hp) as (Hne & Hpl & Hi).
  assert (segments ["category" : str; cat_slug c] = categorySegs c) as Hs.
  { unfold segments, categorySegs. csimpl. rewrite app_nil_r.
    by change (split "category" "/") with [("category" : str)]. }
  split.
  - unfold categoryDir. rewrite pathJoin_plain; rewrite Hs; [done|].
    constructor; [done|exact Hpl].
  - unfold pageDir, categorySegs. split_and!; [done| |].
    2:{ cbn [hd]. intros Hin. repeat (apply elem_of_cons in Hin as [?|Hin]; [done|]).
        by apply not_elem_of_nil in Hin. }
    intros [?|?]%elem_of_cons; done.
Qed.

(** *** Trees no page clashes with *)

Lemma shaped_no_file (t : Tree) (d q : Path) (c : str) :
  shaped t → pageDir d → q ∈ dirsFrom [] d → t !! q ≠ Some (File c).
Proof.
  intros Hs (Hne & Hi & Hr) Hq Hf. apply dirsFrom_prefix in Hq as (Hq & Hhd & Hsub & _).
  destruct (Hs _ _ Hf) as [Ha|[->|[->|Hl]]].
  - rewrite Hhd in Ha. apply Hr. apply elem_of_cons in Ha as [->|Ha]; [by left|].
    apply list_elem_of_singleton in Ha as ->. by right; left.
  - cbn [hd] in Hhd. apply Hr. rewrite <- Hhd. by repeat constructor.
  - cbn [hd] in Hhd. apply Hr. rewrite <- Hhd. by repeat constructor.
  - apply Hi, Hsub. rewrite <- Hl. destruct q as [|x q] using rev_ind; [done|].
    rewrite last_last. apply elem_of_app. right. by left.
Qed.

Lemma shaped_page_free (t : Tree) (d : Path) :
  shaped t → pageDir d → t !! (d ++ ["index.html" : str]) ≠ Some Dir.
Proof.
  intros Hs (Hne & Hi & Hr) Hf. destruct (Hs _ _ Hf) as [Ha|Hn].
  - apply Hr. destruct d; [done|]. cbn [hd app] in *.
    apply elem_of_cons in Ha as [->|Ha]; [by left|].
    apply list_elem_of_singleton in Ha as ->. by right; left.
  - apply Hn, elem_of_app. right. by left.
Qed.

Lemma shaped_putPage (t : Tree) (d : Path) (html : str) :
  shaped t → ("index.html" : str) ∉ d → shaped (putPage d html t).
Proof.
  intros Hs Hi k n. rewrite putPage_lookup.
  destruct (decide (k = d ++ ["index.html" : str])) as [->|Hne].
  - intros [= <-]. right. right. right. by rewrite last_last.
  - destruct (decide (k ∈ dirsFrom [] d)) as [Hin|Hnin]; [|apply Hs].
    intros [= <-]. right. intros Hk. apply dirsFrom_prefix in Hin as (_ & _ & Hsub & _).
    by apply Hi, Hsub.
Qed.

Lemma shaped_insert_index (t : Tree) (c : str) :
  shaped t → shaped (<[["index.html" : str] := File c]> t).
Proof.
  intros Hs k n. destruct (decide (k = ["index.html" : str])) as [->|Hne].
  - rewrite lookup_insert_eq. intros [= <-]. right. by right; right.
  - rewrite lookup_insert_ne by done. apply Hs.
Qed.

(** *** A page at its place *)

Lemma writePage_done (t : Tree) (d : Path) (html : str) :
  shaped t → pageDir d → writePage (Some d) html t = Done (putPage d html t).
Proof.
  intros Hs Hd. pose proof Hd as (Hne & Hi & _). apply writePage_ok; [done| |done|].
  - intros q c Hq. by apply (shaped_no_file t d).
  - by apply shaped_page_free.
Qed.

Lemma writePages_done {A} (dir : A → option Path) (segs : A → Path) (html : A → str)
    (l : list A) (t : Tree) :
  shaped t → Forall (λ x, dir x = Some (segs x) ∧ pageDir (segs x)) l →
  foldl (λ o x, andThen o (writePage (dir x) (html x))) (Done t) l
  = Done (foldl (λ t x, putPage (segs x) (html x) t) t l)
  ∧ shaped (foldl (λ t x, putPage (segs x) (html x) t) t l).
Proof.
  intros Hs Hl. revert t Hs. induction Hl as [|x l [Hx Hd] _ IH]; intros t Hs; [done|].
  cbn [foldl andThen]. rewrite Hx, writePage_done by done.
  apply IH, shaped_putPage; [done|]. by destruct Hd as (_ & ? & _).
Qed.

(** *** Lookups that pages leave alone *)

Lemma putPage_top (d : Path) (html : str) (t : Tree) (k : Path) :
  pageDir d →
  hd [] k ∈ [ "assets" : str; "d1lhy388c2xgxf" : str; "favicon.ico" : str; "robots.txt" : str ] →
  putPage d html t !! k = t !! k.
Proof.
  intros (Hne & Hi & Hr) Hk. rewrite putPage_lookup.
  rewrite decide_False.
  2:{ intros ->. apply Hr. destruct d; [done|]. exact Hk. }
  rewrite decide_False; [done|].
  intros (_ & Hhd & _)%dirsFrom_prefix. apply Hr. by rewrite <- Hhd.
Qed.

Lemma putPages_top {A} (segs : A → Path) (html : A → str) (l : list A) (t : Tree) (k : Path) :
  Forall (λ x, pageDir (segs x)) l →
  hd [] k ∈ [ "assets" : str; "d1lhy388c2xgxf" : str; "favicon.ico" : str; "robots.txt" : str ] →
  foldl (λ t x, putPage (segs x) (html x) t) t l !! k = t !! k.
Proof.
  intros Hl Hk. revert t. induction Hl as [|x l Hx _ IH]; intros t; [done|].
  cbn [foldl]. rewrite IH. by apply putPage_top.
Qed.

Lemma putPages_other_page {A} (segs : A → Path) (html : A → str) (l : list A) (t : Tree)
    (d : Path) :
  Forall (λ x, segs x ≠ d ∧ ("index.html" : str) ∉ segs x) l →
  foldl (λ t x, putPage (segs x) (html x) t) t l !! (d ++ ["index.html" : str])
  = t !! (d ++ ["index.html" : str]).
Proof.
  intros Hl. revert t. induction Hl as [|x l [Hx Hi] _ IH]; intros t; [done|].
  cbn [foldl]. rewrite IH. by apply putPage_other_page.
Qed.

(** The page of an element is there after the loop, unless a later
    element has the same directory. *)
Lemma putPages_page {A} (segs : A → Path) (html : A → str) (l1 l2 : list A) (x : A)
    (t : Tree) :
  Forall (λ y, segs y ≠ segs x ∧ ("index.html" : str) ∉ segs y) l2 →
  foldl (λ t x, putPage (segs x) (html x) t) t (l1 ++ x :: l2)
    !! (segs x ++ ["index.html" : str]) = Some (File (html x)).
Proof.
  intros Hl. rewrite foldl_app. cbn [foldl].
  rewrite putPages_other_page by done. apply putPage_page.
Qed.

End TreeFacts.

(** ** Runs of [build] that end normally *)

Module BuildDone.
Import JsString Notions Store Fs Build Layout Placement JsStringFacts MapFacts FsFacts TreeFacts.

(** *** Copies *)

Lemma cpSync_copied (src : Source) (dest : Path) (t : Tree) :
  present src → cpSync src dest t = Some (copied src dest t).
Proof. unfold copied. by destruct src. Qed.

Lemma copyFileSync_copied (src : Source) (dest : Path) (t : Tree) :
  regular src → copyFileSync src dest t = Some (copied src dest t).
Proof. unfold copied. by destruct src. Qed.

Lemma foldr_copy_lookup (a : str) (l : list (Path * Node)) (t : Tree) (k : Path) :
  hd [] k ≠ a → foldr (λ e t, <[[a] ++ e.1 := e.2]> t) t l !! k = t !! k.
Proof.
  intros Hk. induction l as [|e l IH]; [done|]. cbn [foldr].
  rewrite lookup_insert_ne; [done|]. by intros <-.
Qed.

Lemma foldr_copy_head (a : str) (l : list (Path * Node)) (t : Tree) (k : Path) (n : Node) :
  foldr (λ e t, <[[a] ++ e.1 := e.2]> t) t l !! k = Some n → hd [] k = a ∨ t !! k = Some n.
Proof.
  induction l as [|e l IH]; [by right|]. cbn [foldr].
  destruct (decide ([a] ++ e.1 = k)) as [<-|Hne]; [by left|].
  by rewrite lookup_insert_ne.
Qed.

Lemma foldr_copy_entry (a : str) (l : list (Path * Node)) (t : Tree) (e : Path) (n : Node) :
  NoDup l.*1 → (e, n) ∈ l →
  foldr (λ e t, <[[a] ++ e.1 := e.2]> t) t l !! ([a] ++ e) = Some n.
Proof.
  induction l as [|[e' n'] l IH]; intros Hnd Hin; [by apply not_elem_of_nil in Hin|].
  apply NoDup_cons in Hnd as [He' Hnd]. cbn [foldr].
  apply elem_of_cons in Hin as [[= <- <-]|Hin]; [apply lookup_insert_eq|].
  rewrite lookup_insert_ne; [by apply IH|].
  intros [= ->]. apply He', list_elem_of_fmap. by exists (e, n).
Qed.

Lemma copied_other (src : Source) (a : str) (t : Tree) (k : Path) :
  hd [] k ≠ a → copied src [a] t !! k = t !! k.
Proof.
  intros Hk. unfold copied. destruct src as [|c|entries]; cbn [cpSync default from_option id]; [done| |].
  - rewrite lookup_insert_ne; [done|]. by intros <-.
  - rewrite foldr_copy_lookup by done. rewrite lookup_insert_ne; [done|]. by intros <-.
Qed.

Lemma copied_head (src : Source) (a : str) (t : Tree) (k : Path) (n : Node) :
  copied src [a] t !! k = Some n → hd [] k = a ∨ t !! k = Some n.
Proof.
  unfold copied. destruct src as [|c|entries]; cbn [cpSync default from_option id]; [by right| |].
  - destruct (decide ([a] = k)) as [<-|Hne]; [by left|]. by rewrite lookup_insert_ne; [right|].
  - intros [?|H]%foldr_copy_head; [by left|].
    destruct (decide ([a] = k)) as [<-|Hne]; [by left|]. rewrite lookup_insert_ne in H by done.
    by right.
Qed.

(** An entry of a source directory is in the copy, under the name of
    the destination. *)
Lemma copied_entry (entries : Tree) (a : str) (t : Tree) (e : Path) (n : Node) :
  entries !! e = Some n → copied (IsDir entries) [a] t !! ([a] ++ e) = Some n.
Proof.
  intros He. unfold copied. cbn [cpSync default from_option id]. apply foldr_copy_entry.
  - apply NoDup_fst_map_to_list.
  - by apply elem_of_map_to_list.
Qed.

Section WithSite.
Variable site : Site.

Lemma shaped_statics : regular (favicon site) → shaped (statics site).
Proof.
  intros Hf k n. unfold statics.
  destruct (decide (k = ["robots.txt" : str])) as [->|Hne].
  { rewrite lookup_insert_eq. intros [= <-]. right. by right; left. }
  rewrite lookup_insert_ne by done.
  destruct (favicon site) as [|c|]; [done| |done]. unfold copied at 1. cbn [cpSync default from_option id].
  destruct (decide (k = ["favicon.ico" : str])) as [->|Hne'].
  { rewrite lookup_insert_eq. intros [= <-]. right. by left. }
  rewrite lookup_insert_ne by done.
  intros [Hd|[Ha|H]%copied_head]%copied_head.
  - left. rewrite Hd. by right; left.
  - left. rewrite Ha. by left.
  - by rewrite lookup_empty in H.
Qed.

Lemma statics_top (k : Path) :
  hd [] k ∉ [ "assets" : str; "d1lhy388c2xgxf" : str; "favicon.ico" : str; "robots.txt" : str ] →
  statics site !! k = None.
Proof.
  intros Hk. unfold statics.
  rewrite lookup_insert_ne by (intros <-; apply Hk; by repeat constructor).
  rewrite !copied_other; [apply lookup_empty|..];
    intros Heq; apply Hk; rewrite Heq; by repeat constructor.
Qed.

Hypothesis Hplaced : placed site.

Lemma people_dirs :
  Forall (λ p, personDir p = Some (personSegs p) ∧ pageDir (personSegs p)) (people site).
Proof.
  destruct Hplaced as (Hp & _). eapply Forall_impl; [exact Hp|].
  intros p. apply personSlug_dir.
Qed.

Lemma categories_dirs :
  Forall (λ c, categoryDir c = Some (categorySegs c) ∧ pageDir (categorySegs c))
         (categories site).
Proof.
  destruct Hplaced as (_ & Hc & _). eapply Forall_impl; [exact Hc|].
  intros c. apply pageSlug_dir.
Qed.

Lemma pageDir_about : pageDir ["about" : str].
Proof.
  split_and!; [done|by intros ?%list_elem_of_singleton|].
  cbn [hd]. intros Hin. repeat (apply elem_of_cons in Hin as [?|Hin]; [done|]).
  by apply not_elem_of_nil in Hin.
Qed.

Lemma pageDir_submit : pageDir ["submit" : str].
Proof.
  split_and!; [done|by intros ?%list_elem_of_singleton|].
  cbn [hd]. intros Hin. repeat (apply elem_of_cons in Hin as [?|Hin]; [done|]).
  by apply not_elem_of_nil in Hin.
Qed.

(** When the site is placed every call of the run succeeds, and the
    tree is the one of [expected], whatever the tree found. *)
Lemma build_done (old : Tree) : build site old = Done (expected site).
Proof.
  destruct Hplaced as (_ & _ & Ha & Hd & Hf).
  unfold build. rewrite rmSync_root. rewrite (cpSync_copied _ _ _ Ha). cbn [orThrow andThen].
  rewrite (cpSync_copied _ _ _ Hd). cbn [orThrow andThen].
  rewrite (copyFileSync_copied _ _ _ Hf). cbn [orThrow andThen].
  rewrite writeFileSync_ok; [| |done].
  2:{ cbn [nodeAt]. by rewrite !copied_other by done. }
  cbn [orThrow andThen]. fold (statics site).
  destruct (writePages_done personDir personSegs (personHtml site) (people site) (statics site)
              (shaped_statics Hf) people_dirs) as [Hw Hs].
  unfold writePeople. rewrite Hw. cbn [andThen]. fold (withPeople site (statics site)) in *.
  rewrite writeFileSync_ok; [| |done].
  2:{ cbn [nodeAt]. intros Hdir. destruct (Hs _ _ Hdir) as [Hin|Hn].
      - cbn [hd] in Hin. repeat (apply elem_of_cons in Hin as [?|Hin]; [done|]).
        by apply not_elem_of_nil in Hin.
      - apply Hn. by left. }
  cbn [orThrow andThen].
  destruct (writePages_done categoryDir categorySegs (categoryHtml site) (categories site) _
              (shaped_insert_index _ (homepageHtml site) Hs) categories_dirs) as [Hw' Hs'].
  unfold writeCategories. rewrite Hw'. cbn [andThen].
  fold (withCategories site (<[["index.html" : str] := File (homepageHtml site)]>
                              (withPeople site (statics site)))) in *.
  rewrite writePage_done; [|done|apply pageDir_about]. cbn [andThen].
  rewrite writePage_done; [done| |apply pageDir_submit].
  apply shaped_putPage; [done|]. by intros ?%list_elem_of_singleton.
Qed.

End WithSite.

End BuildDone.

(** ** The tree a run of [build] leaves *)

Module ExpectedFacts.
Import JsString Notions Store Fs Build Layout Placement JsStringFacts MapFacts FsFacts TreeFacts
  BuildDone.

Lemma putPage_files (d : Path) (html : str) (t : Tree) (k : Path) :
  shaped t → pageDir d →
  isFile (putPage d html t) k ↔ k = d ++ ["index.html" : str] ∨ isFile t k.
Proof.
  intros Hs Hd. unfold isFile. rewrite putPage_lookup.
  destruct (decide (k = d ++ ["index.html" : str])) as [->|Hne]; [split; eauto|].
  destruct (decide (k ∈ dirsFrom [] d)) as [Hin|Hnin].
  - split; [by intros [c ?]|]. intros [?|[c Hc]]; [done|].
    by destruct (shaped_no_file t d k c).
  - split; [eauto|]. by intros [?|?].
Qed.

Lemma putPages_files {A} (segs : A → Path) (html : A → str) (l : list A) (t : Tree) (k : Path) :
  shaped t → Forall (λ x, pageDir (segs x)) l →
  isFile (foldl (λ t x, putPage (segs x) (html x) t) t l) k
  ↔ (∃ x, x ∈ l ∧ k = segs x ++ ["index.html" : str]) ∨ isFile t k.
Proof.
  intros Hs Hl. revert t Hs. induction Hl as [|x l Hx _ IH]; intros t Hs.
  - cbn [foldl]. split; [eauto|]. by intros [(x & ?%not_elem_of_nil & _)|?].
  - cbn [foldl]. rewrite IH by (apply shaped_putPage; [done|by destruct Hx as (_ & ? & _)]).
    rewrite putPage_files by done. split.
    + intros [(y & Hy & ->)|[->|?]]; [left; exists y; split; [by right|done]| |by right].
      left. exists x. split; [by left|done].
    + intros [(y & [->|Hy]%elem_of_cons & ->)|?]; eauto.
Qed.

Lemma shaped_putPages {A} (segs : A → Path) (html : A → str) (l : list A) (t : Tree) :
  shaped t → Forall (λ x, pageDir (segs x)) l →
  shaped (foldl (λ t x, putPage (segs x) (html x) t) t l).
Proof.
  intros Hs Hl. revert t Hs. induction Hl as [|x l Hx _ IH]; intros t Hs; [done|].
  cbn [foldl]. apply IH, shaped_putPage; [done|by destruct Hx as (_ & ? & _)].
Qed.

Section WithSite.
Variable site : Site.
Hypothesis Hplaced : placed site.

Lemma people_pageDirs : Forall (λ p, pageDir (personSegs p)) (people site).
Proof. eapply Forall_impl; [apply (people_dirs site Hplaced)|]. by intros p [_ ?]. Qed.

Lemma categories_pageDirs : Forall (λ c, pageDir (categorySegs c)) (categories site).
Proof. eapply Forall_impl; [apply (categories_dirs site Hplaced)|]. by intros p [_ ?]. Qed.

(** The entries at the top that are not pages are those of [statics]. *)
Lemma expected_top (k : Path) :
  hd [] k ∈ [ "assets" : str; "d1lhy388c2xgxf" : str; "favicon.ico" : str; "robots.txt" : str ] →
  expected site !! k = statics site !! k.
Proof.
  intros Hk. unfold expected.
  rewrite putPage_top by (done || apply pageDir_submit).
  rewrite putPage_top by (done || apply pageDir_about).
  unfold withCategories. rewrite putPages_top by (done || apply categories_pageDirs).
  rewrite lookup_insert_ne.
  2:{ intros <-. cbn [hd] in Hk. repeat (apply elem_of_cons in Hk as [?|Hk]; [done|]).
      by apply not_elem_of_nil in Hk. }
  unfold withPeople. by rewrite putPages_top by (done || apply people_pageDirs).
Qed.

Lemma expected_robots : expected site !! ["robots.txt" : str] = Some (File robots).
Proof. rewrite expected_top by by repeat constructor. apply lookup_insert_eq. Qed.

Lemma expected_favicon (c : str) :
  favicon site = IsFile c → expected site !! ["favicon.ico" : str] = Some (File c).
Proof.
  intros Hf. rewrite expected_top by by repeat constructor. unfold statics.
  rewrite lookup_insert_ne by done. rewrite Hf. unfold copied at 1.
  cbn [copyFileSync cpSync default from_option id]. apply lookup_insert_eq.
Qed.

Lemma expected_asset (entries : Tree) (e : Path) (n : Node) :
  assets site = IsDir entries → entries !! e = Some n →
  expected site !! (("assets" : str) :: e) = Some n.
Proof.
  intros Ha He. rewrite expected_top by by repeat constructor. unfold statics.
  rewrite lookup_insert_ne by done. rewrite !copied_other by done.
  rewrite Ha. by apply (copied_entry entries "assets").
Qed.

Lemma expected_d1 (entries : Tree) (e : Path) (n : Node) :
  d1lhy388c2xgxf site = IsDir entries → entries !! e = Some n →
  expected site !! (("d1lhy388c2xgxf" : str) :: e) = Some n.
Proof.
  intros Ha He. rewrite expected_top by by repeat constructor. unfold statics.
  rewrite lookup_insert_ne by done. rewrite copied_other by done.
  rewrite Ha. by apply (copied_entry entries "d1lhy388c2xgxf").
Qed.

Lemma expected_submit :
  expected site !! ["submit" : str; "index.html" : str] = Some (File (submitHtml site)).
Proof. unfold expected. apply (putPage_page ["submit" : str]). Qed.

Lemma expected_about :
  expected site !! ["about" : str; "index.html" : str] = Some (File (aboutHtml site)).
Proof.
  unfold expected.
  rewrite (putPage_other_page ["about" : str] ["submit" : str])
    by (done || by intros ?%list_elem_of_singleton).
  apply (putPage_page ["about" : str]).
Qed.

Lemma expected_index :
  expected site !! ["index.html" : str] = Some (File (homepageHtml site)).
Proof.
  unfold expected.
  rewrite (putPage_other_page [] ["submit" : str])
    by (done || by intros ?%list_elem_of_singleton).
  rewrite (putPage_other_page [] ["about" : str])
    by (done || by intros ?%list_elem_of_singleton).
  unfold withCategories. rewrite (putPages_other_page _ _ _ _ []); [apply lookup_insert_eq|].
  eapply Forall_impl; [apply categories_pageDirs|]. by intros c (? & ? & _).
Qed.

(** The page of a category is in the tree, unless a later category of
    the same slug overwrites it. *)
Lemma expected_category (cs1 cs2 : list Category) (cat : Category) :
  categories site = cs1 ++ cat :: cs2 →
  (∀ c, c ∈ cs2 → cat_slug c ≠ cat_slug cat) →
  expected site !! (categorySegs cat ++ ["index.html" : str])
  = Some (File (categoryHtml site cat)).
Proof.
  intros Hcs Hlater. unfold expected.
  rewrite (putPage_other_page _ ["submit" : str])
    by (done || by intros ?%list_elem_of_singleton).
  rewrite (putPage_other_page _ ["about" : str])
    by (done || by intros ?%list_elem_of_singleton).
  unfold withCategories. rewrite Hcs. apply (putPages_page categorySegs).
  pose proof categories_pageDirs as Hd. rewrite Hcs in Hd.
  apply Forall_app in Hd as [_ Hd]. apply Forall_cons in Hd as [_ Hd].
  apply Forall_forall. intros c Hc. rewrite Forall_forall in Hd.
  split; [|by destruct (Hd c Hc) as (_ & ? & _)].
  intros [= Heq]. by apply (Hlater c Hc), split_slash_inj.
Qed.

(** The page of a person is in the tree, unless a later person of the
    same slug overwrites it. *)
Lemma expected_person (ps1 ps2 : list Person) (p : Person) :
  people site = ps1 ++ p :: ps2 →
  (∀ q, q ∈ ps2 → slug q ≠ slug p) →
  expected site !! (personSegs p ++ ["index.html" : str]) = Some (File (personHtml site p)).
Proof.
  intros Hps Hlater.
  assert (p ∈ people site) as Hp by (rewrite Hps; apply elem_of_app; right; by left).
  destruct Hplaced as (Hsl & _). rewrite Forall_forall in Hsl.
  destruct (Hsl p Hp) as [Hpage Hres]. fold (personSegs p) in Hres.
  destruct (pageSlug_segs _ Hpage) as (Hne & _). fold (personSegs p) in Hne.
  assert (∀ a : str, a ∈ reserved → personSegs p ≠ [a]) as Hnot.
  { intros a Ha Heq. apply Hres. by rewrite Heq. }
  unfold expected.
  rewrite (putPage_other_page _ ["submit" : str]);
    [|apply Hnot; by repeat constructor|by intros ?%list_elem_of_singleton].
  rewrite (putPage_other_page _ ["about" : str]);
    [|apply Hnot; by repeat constructor|by intros ?%list_elem_of_singleton].
  unfold withCategories. rewrite putPages_other_page.
  2:{ eapply Forall_impl; [apply categories_pageDirs|]. intros c (_ & Hi & _).
      split; [|done]. intros Heq. apply Hres. rewrite <- Heq. cbn [hd categorySegs].
      by repeat constructor. }
  rewrite lookup_insert_ne.
  2:{ intros Heq. apply Hne. destruct (personSegs p) as [|s l]; [done|].
      injection Heq as _ Heq. by destruct l. }
  unfold withPeople. rewrite Hps. apply (putPages_page personSegs).
  pose proof people_pageDirs as Hd. rewrite Hps in Hd.
  apply Forall_app in Hd as [_ Hd]. apply Forall_cons in Hd as [_ Hd].
  apply Forall_forall. intros q Hq. rewrite Forall_forall in Hd.
  split; [|by destruct (Hd q Hq) as (_ & ? & _)].
  intros Heq. by apply (Hlater q Hq), split_slash_inj.
Qed.

(** The regular files of the tree. *)
Lemma expected_files (k : Path) :
  isFile (expected site) k
  ↔ k ∈ [ ["submit" : str; "index.html" : str]; ["about" : str; "index.html" : str];
          ["index.html" : str] ]
    ∨ (∃ c, c ∈ categories site ∧ k = categorySegs c ++ ["index.html" : str])
    ∨ (∃ p, p ∈ people site ∧ k = personSegs p ++ ["index.html" : str])
    ∨ isFile (statics site) k.
Proof.
  pose proof (shaped_statics site) as Hs0. destruct Hplaced as (_ & _ & _ & _ & Hf).
  specialize (Hs0 Hf).
  pose proof (shaped_putPages personSegs (personHtml site) _ _ Hs0 people_pageDirs) as Hs1.
  pose proof (shaped_insert_index _ (homepageHtml site) Hs1) as Hs2.
  pose proof (shaped_putPages categorySegs (categoryHtml site) _ _ Hs2 categories_pageDirs)
    as Hs3.
  pose proof (shaped_putPage _ ["about" : str] (aboutHtml site) Hs3) as Hs4.
  unfold expected.
  rewrite putPage_files; [|apply Hs4; by intros ?%list_elem_of_singleton|apply pageDir_submit].
  rewrite putPage_files by (done || apply pageDir_about).
  unfold withCategories. rewrite putPages_files by (done || apply categories_pageDirs).
  assert (isFile (<[["index.html" : str] := File (homepageHtml site)]>
                    (withPeople site (statics site))) k
          ↔ k = ["index.html" : str] ∨ isFile (withPeople site (statics site)) k) as ->.
  { unfold isFile. destruct (decide (k = ["index.html" : str])) as [->|Hne].
    - rewrite lookup_insert_eq. split; eauto.
    - rewrite lookup_insert_ne by done. split; [eauto|]. by intros [?|?]. }
  unfold withPeople. rewrite putPages_files by (done || apply people_pageDirs).
  rewrite !elem_of_cons, elem_of_nil. cbn [app]. tauto.
Qed.

End WithSite.

End ExpectedFacts.

(** ** The renderer *)

Module RenderProps.
Import JsString Notions Store Fs Build Layout Placement JsStringFacts MapFacts BuildFacts
  FsFacts TreeFacts BuildDone ExpectedFacts.

Lemma peopleByPostId_lookup (people : list Person) (id : Z) :
  peopleByPostId people !! id = last (filter (λ p, post_id p = id) people).
Proof.
  unfold peopleByPostId.
  rewrite (foldl_insert_last post_id (λ p, p) people ∅ id).
  by destruct (last _).
Qed.

Lemma peopleByPostId_Some (people : list Person) (id : Z) (p : Person) :
  peopleByPostId people !! id = Some p → p ∈ people ∧ post_id p = id.
Proof.
  rewrite peopleByPostId_lookup. intros H. apply last_Some_elem_of in H.
  by apply list_elem_of_filter in H as [? ?].
Qed.

Lemma peopleByPostId_None (people : list Person) (id : Z) :
  peopleByPostId people !! id = None → ¬ resolves people id.
Proof.
  rewrite peopleByPostId_lookup. intros H. apply last_None in H.
  unfold resolves. intros Hin. apply list_elem_of_fmap in Hin as (p & -> & Hp).
  assert (p ∈ filter (λ q, post_id q = post_id p) people) as Hf
    by by apply list_elem_of_filter.
  rewrite H in Hf. by apply not_elem_of_nil in Hf.
Qed.

Lemma peopleByPostId_resolves (people : list Person) (id : Z) :
  is_Some (peopleByPostId people !! id) ↔ resolves people id.
Proof.
  split.
  - intros [p Hp]. apply peopleByPostId_Some in Hp as [Hin <-].
    unfold resolves. apply list_elem_of_fmap. eauto.
  - intros Hr. destruct (peopleByPostId people !! id) eqn:E; [eauto|].
    by apply peopleByPostId_None in E.
Qed.

Global Instance resolves_dec people id : Decision (resolves people id).
Proof. unfold resolves. apply _. Defined.

Section WithSite.
Variable site : Site.

(** The records of a category page carry exactly the ids that resolve, in
    the order of [post_ids]. *)
Lemma catPeople_ids (cat : Category) :
  post_id <$> catPeople site cat = filter (resolves (people site)) (post_ids cat).
Proof.
  unfold catPeople, filterBoolean. induction (post_ids cat) as [|id ids IH]; [done|].
  csimpl. destruct (peopleByPostId (people site) !! id) as [p|] eqn:E; csimpl.
  - rewrite filter_cons_True by (apply peopleByPostId_resolves; eauto).
    apply peopleByPostId_Some in E as [_ ->]. by rewrite <- IH.
  - rewrite filter_cons_False by by apply peopleByPostId_None. done.
Qed.

Lemma catPeople_elem (cat : Category) (p : Person) :
  p ∈ catPeople site cat ↔
  ∃ id, id ∈ post_ids cat ∧ peopleByPostId (people site) !! id = Some p.
Proof.
  unfold catPeople, filterBoolean. rewrite list_elem_of_omap. split.
  - intros (o & Ho & Hp). apply list_elem_of_fmap in Ho as (id & -> & Hid).
    exists id. by simpl in Hp.
  - intros (id & Hid & Hp). exists (Some p). split; [|done].
    apply list_elem_of_fmap. eauto.
Qed.

(** The cards fragment is in the page when the template has its
    placeholder: [GALLERY_CARDS] is the last entry. *)
Lemma categoryHtml_includes_cards (cat : Category) :
  includes (categoryTemplate (templates site)) (placeholder "GALLERY_CARDS") = true →
  includes (categoryHtml site cat) (cardsHtml site cat) = true.
Proof.
  intros Ht. unfold categoryHtml, categoryVars.
  apply (render_inserts _ "GALLERY_CARDS" _
           [ ("HEAD" : str, _); ("NAV" : str, _); ("FOOTER" : str, _);
             ("SCRIPTS" : str, _); ("CATEGORY_LIST_INLINE" : str, _) ] []);
    [done| |by intros kv Hkv; apply not_elem_of_nil in Hkv].
  apply Forall_forall. by repeat constructor.
Qed.

Lemma includes_join (v x : str) (l : list str) : x ∈ l → includes (join v l) x = true.
Proof.
  induction l as [|y l IH]; intros Hx; [by apply not_elem_of_nil in Hx|].
  destruct l as [|z l].
  - apply list_elem_of_singleton in Hx as ->. apply includes_self.
  - rewrite join_cons by done. apply elem_of_cons in Hx as [->|Hx].
    + apply includes_app_r, includes_self.
    + by apply includes_app_l, includes_app_l, IH.
Qed.

Lemma categoryCard_marker (p : Person) :
  includes (categoryCard p) (cardMarker (post_id p)) = true.
Proof.
  unfold categoryCard. apply includes_app_l, includes_app_r, includes_self.
Qed.

(** The marker of an id that resolves is in the cards fragment. *)
Lemma cardsHtml_marker (cat : Category) (pid : Z) :
  pid ∈ post_ids cat → resolves (people site) pid →
  includes (cardsHtml site cat) (cardMarker pid) = true.
Proof.
  intros Hpid Hr. apply peopleByPostId_resolves in Hr as [p Hp].
  pose proof (peopleByPostId_Some _ _ _ Hp) as [_ <-].
  apply (includes_trans _ (categoryCard p)); [|apply categoryCard_marker].
  apply includes_join, list_elem_of_fmap. exists p. split; [done|].
  apply catPeople_elem. eauto.
Qed.

End WithSite.

(** C3, as stated, fails: the value of [A] holds the placeholder of [B],
    an entry that comes later, and the round of [B] substitutes it. *)
Lemma render_substitutes_inside_values :
  render "{{A}}" [("A" : str, "{{B}}" : str); ("B" : str, "x" : str)] = "x"
  ∧ includes (render "{{A}}" [("A" : str, "{{B}}" : str); ("B" : str, "x" : str)])
             (placeholder "B") = false.
Proof. split; reflexivity. Qed.

(** C3 (amended).  [render] makes one round per entry, in the order of the
    entries.  A round cuts the text at every occurrence of the placeholder
    of the entry (the pieces contain none) and puts the value between the
    pieces; read as a scan from the left: where the placeholder starts, it
    writes the value and goes on after the placeholder, without reading the
    value again; elsewhere it copies one code unit.  Text that can overlap
    no placeholder of the entries is still in the result, in particular the
    placeholder of a name that is not among the entries (names without
    braces), and a template without any placeholder of the entries comes
    back unchanged.  (A placeholder inside a value is replaced by the
    rounds of the later entries.) *)
Theorem render_rounds_in_entry_order :
  (∀ template : str, render template [] = template)
  ∧ (∀ (template key value : str) vars,
       render template ((key, value) :: vars)
       = render (substitute template key value) vars)
  ∧ (∀ s key value : str,
       join (placeholder key) (split s (placeholder key)) = s
       ∧ Forall (λ piece, includes piece (placeholder key) = false)
                (split s (placeholder key))
       ∧ substitute s key value = join value (split s (placeholder key)))
  ∧ (∀ key value : str, substitute [] key value = [])
  ∧ (∀ s key value : str,
       startsWith (placeholder key) s = true →
       substitute s key value
       = value ++ substitute (drop (length (placeholder key)) s) key value)
  ∧ (∀ c (s key value : str),
       startsWith (placeholder key) (c :: s) = false →
       substitute (c :: s) key value = c :: substitute s key value)
  ∧ (∀ (template x : str) (vars : list (str * str)),
       (∀ kv, kv ∈ vars → clash x (placeholder kv.1) = false) →
       includes template x = true → includes (render template vars) x = true)
  ∧ (∀ (template name : str) (vars : list (str * str)),
       braceFree name = true →
       (∀ kv, kv ∈ vars → braceFree kv.1 = true ∧ kv.1 ≠ name) →
       includes template (placeholder name) = true →
       includes (render template vars) (placeholder name) = true)
  ∧ (∀ (template : str) (vars : list (str * str)),
       (∀ kv, kv ∈ vars → includes template (placeholder kv.1) = false) →
       render template vars = template).
Proof.
  split_and!.
  - done.
  - apply render_cons.
  - intros s key value. split_and!; [|apply split_pieces, placeholder_nonempty|done].
    apply join_split, placeholder_nonempty.
  - apply substitute_nil.
  - apply substitute_match.
  - apply substitute_skip.
  - apply render_keeps.
  - apply render_keeps_unknown.
  - apply render_unchanged.
Qed.

(** An instance: the placeholder of [B] is replaced everywhere, the
    placeholder of the unknown name [C] stays. *)
Lemma render_rounds_witness :
  render "{{B}}-{{C}}-{{B}}" [("A" : str, "a" : str); ("B" : str, "b" : str)] = "b-{{C}}-b"
  ∧ includes (render "{{B}}-{{C}}-{{B}}" [("A" : str, "a" : str); ("B" : str, "b" : str)])
             (placeholder "C") = true.
Proof.
  split; [reflexivity|].
  apply (proj1 (proj2 (proj2 (proj2 (proj2 (proj2 (proj2 (proj2
           render_rounds_in_entry_order)))))))).
  - reflexivity.
  - intros kv Hkv. repeat (apply elem_of_cons in Hkv as [->|Hkv]; [by split|]).
    by apply not_elem_of_nil in Hkv.
  - reflexivity.
Defined.

Lemma includes_head3 (a b c rest : str) :
  includes (a ++ b ++ c ++ rest) (a ++ b ++ c) = true.
Proof. apply includes_occurs. exists [], rest. by rewrite <- !app_assoc. Qed.

Lemma includes_head6 (a b c d e f rest : str) :
  includes (a ++ b ++ c ++ d ++ e ++ f ++ rest) (a ++ b ++ c ++ d ++ e ++ f) = true.
Proof. apply includes_occurs. exists [], rest. by rewrite <- !app_assoc. Qed.

Lemma includes_head7 (a b c d e f g rest : str) :
  includes (a ++ b ++ c ++ d ++ e ++ f ++ g ++ rest) (a ++ b ++ c ++ d ++ e ++ f ++ g) = true.
Proof. apply includes_occurs. exists [], rest. by rewrite <- !app_assoc. Qed.

(** What a card of a category page shows of its record: it starts with
    the marker of the id, and holds the link to the page of the record,
    the path of its thumbnail, and the lines of its name and title. *)
Lemma categoryCard_shows (p : Person) :
  startsWith ("  <div " ++ cardMarker (post_id p)) (categoryCard p) = true
  ∧ includes (categoryCard p) (" href=" ++ dq ++ "/" ++ slug p ++ "/" ++ dq) = true
  ∧ includes (categoryCard p) ("/d1lhy388c2xgxf/thumbnails/" ++ thumbnail p ++ dq) = true
  ∧ includes (categoryCard p)
      ("      <p class=" ++ dq ++ "name" ++ dq ++ ">" ++ name p ++ "</p>") = true
  ∧ includes (categoryCard p)
      ("      <p class=" ++ dq ++ "title" ++ dq ++ ">" ++ fieldText (title p) ++ "&nbsp;</p>")
    = true.
Proof.
  split_and!.
  - unfold categoryCard. rewrite app_assoc. apply startsWith_app.
  - unfold categoryCard. do 12 apply includes_app_l. apply includes_head6.
  - unfold categoryCard. do 22 apply includes_app_l. apply includes_head3.
  - unfold categoryCard. do 35 apply includes_app_l. apply includes_head7.
  - unfold categoryCard. do 43 apply includes_app_l. apply includes_head7.
Qed.

(** C10.  The lookup by post id holds, for every id, the last record of
    the input that carries it.  The cards of a category page are the
    cards of these records: for an id of the category that several records
    share, the cards fragment, and with it the page, holds the card of
    the last of them, and this card starts with the marker of the id and
    shows the slug, the thumbnail, the name and the title of that
    record. *)
Theorem last_record_wins_post_id (site : Site) (cat : Category) :
  (∀ id : Z,
     peopleByPostId (people site) !! id
     = last (filter (λ p, post_id p = id) (people site)))
  ∧ catPeople site cat
    = omap (λ id, last (filter (λ p, post_id p = id) (people site))) (post_ids cat)
  ∧ cardsHtml site cat
    = join (nl ++ nl ++ "<!-- end loop -->" ++ nl)
        (categoryCard
           <$> omap (λ id, last (filter (λ p, post_id p = id) (people site))) (post_ids cat))
  ∧ (∀ id p, id ∈ post_ids cat →
       last (filter (λ q, post_id q = id) (people site)) = Some p →
       post_id p = id
       ∧ includes (cardsHtml site cat) (categoryCard p) = true
       ∧ (includes (categoryTemplate (templates site)) (placeholder "GALLERY_CARDS") = true →
          includes (categoryHtml site cat) (categoryCard p) = true)
       ∧ startsWith ("  <div " ++ cardMarker id) (categoryCard p) = true
       ∧ includes (categoryCard p) (" href=" ++ dq ++ "/" ++ slug p ++ "/" ++ dq) = true
       ∧ includes (categoryCard p) ("/d1lhy388c2xgxf/thumbnails/" ++ thumbnail p ++ dq) = true
       ∧ includes (categoryCard p)
           ("      <p class=" ++ dq ++ "name" ++ dq ++ ">" ++ name p ++ "</p>") = true
       ∧ includes (categoryCard p)
           ("      <p class=" ++ dq ++ "title" ++ dq ++ ">" ++ fieldText (title p)
            ++ "&nbsp;</p>")
         = true).
Proof.
  assert (catPeople site cat
          = omap (λ id, last (filter (λ p, post_id p = id) (people site))) (post_ids cat))
    as Hcat.
  { unfold catPeople, filterBoolean. induction (post_ids cat) as [|id ids IH]; [done|].
    csimpl. rewrite peopleByPostId_lookup, IH. done. }
  split_and!; [apply peopleByPostId_lookup|done|unfold cardsHtml; by rewrite Hcat|].
  intros id p Hid Hlast.
  assert (post_id p = id) as Hp.
  { apply last_Some_elem_of in Hlast. by apply list_elem_of_filter in Hlast as [? _]. }
  assert (includes (cardsHtml site cat) (categoryCard p) = true) as Hcard.
  { apply includes_join, list_elem_of_fmap. exists p. split; [done|].
    apply catPeople_elem. exists id. by rewrite peopleByPostId_lookup. }
  destruct (categoryCard_shows p) as (H1 & H2 & H3 & H4 & H5). rewrite Hp in H1.
  split_and!; try done. intros Ht.
  eapply includes_trans; [by apply categoryHtml_includes_cards|done].
Qed.


(** C4.  For a site whose pages find their place, [build] ends normally
    whatever the [post_ids] of its categories: an id that no record
    carries raises nothing.  The page of a category that no later
    category overwrites is in the tree.  Its cards are those of the ids
    that resolve, in the order of [post_ids], one card for each, and an
    id that does not resolve leaves none; every card is the card of a
    record of the store, starts with the marker of its id and shows the
    slug, thumbnail, name and title of the record.  When the template
    has the [GALLERY_CARDS] placeholder the page contains the cards. *)
Theorem category_page_drops_dangling_ids (site : Site) (old : Tree)
    (cs1 cs2 : list Category) (cat : Category) :
  placed site →
  categories site = cs1 ++ cat :: cs2 →
  (∀ c, c ∈ cs2 → cat_slug c ≠ cat_slug cat) →
  build site old = Done (expected site)
  ∧ categoryPath cat = Some (categorySegs cat ++ ["index.html" : str])
  ∧ expected site !! (categorySegs cat ++ ["index.html" : str])
    = Some (File (categoryHtml site cat))
  ∧ cardsHtml site cat
    = join (nl ++ nl ++ "<!-- end loop -->" ++ nl) (categoryCard <$> catPeople site cat)
  ∧ post_id <$> catPeople site cat = filter (resolves (people site)) (post_ids cat)
  ∧ (∀ id, id ∈ post_ids cat → ¬ resolves (people site) id →
       id ∉ (post_id <$> catPeople site cat))
  ∧ (∀ p, p ∈ catPeople site cat
          ↔ ∃ id, id ∈ post_ids cat ∧ peopleByPostId (people site) !! id = Some p)
  ∧ (∀ p, p ∈ catPeople site cat →
       p ∈ people site
       ∧ includes (cardsHtml site cat) (categoryCard p) = true
       ∧ startsWith ("  <div " ++ cardMarker (post_id p)) (categoryCard p) = true
       ∧ includes (categoryCard p) (" href=" ++ dq ++ "/" ++ slug p ++ "/" ++ dq) = true
       ∧ includes (categoryCard p) ("/d1lhy388c2xgxf/thumbnails/" ++ thumbnail p ++ dq) = true
       ∧ includes (categoryCard p)
           ("      <p class=" ++ dq ++ "name" ++ dq ++ ">" ++ name p ++ "</p>") = true
       ∧ includes (categoryCard p)
           ("      <p class=" ++ dq ++ "title" ++ dq ++ ">" ++ fieldText (title p)
            ++ "&nbsp;</p>")
         = true)
  ∧ (includes (categoryTemplate (templates site)) (placeholder "GALLERY_CARDS") = true →
     includes (categoryHtml site cat) (cardsHtml site cat) = true).
Proof.
  intros Hpl Hcs Hlater. split_and!.
  - by apply build_done.
  - assert (cat ∈ categories site) as Hc by (rewrite Hcs; apply elem_of_app; right; by left).
    pose proof (categories_dirs site Hpl) as Hd. rewrite Forall_forall in Hd.
    destruct (Hd cat Hc) as [Hdir _]. unfold categoryPath. by rewrite Hdir.
  - by apply (expected_category site Hpl cs1 cs2).
  - done.
  - apply catPeople_ids.
  - intros id Hid Hno. rewrite catPeople_ids. by intros [? _]%list_elem_of_filter.
  - apply catPeople_elem.
  - intros p Hp. destruct (categoryCard_shows p) as (H1 & H2 & H3 & H4 & H5).
    split_and!; try done.
    + apply catPeople_elem in Hp as (id & _ & Hp).
      by apply peopleByPostId_Some in Hp as [? _].
    + apply includes_join, list_elem_of_fmap. eauto.
  - apply categoryHtml_includes_cards.
Qed.

End RenderProps.

(** ** The verifier *)

Module VerifyProps.
Import JsString RegExp Notions Store Fs Build Layout Placement Verify JsStringFacts MapFacts
  BuildFacts FsFacts TreeFacts BuildDone ExpectedFacts RenderProps.

Lemma errors_check (condition : bool) (msg : str) (r : Report) :
  errors (check condition msg r) = if condition then errors r else S (errors r).
Proof. by destruct condition. Qed.

Lemma errors_check_true (msg : str) (r : Report) : check true msg r = r.
Proof. done. Qed.

Lemma errors_check_le (condition : bool) (msg : str) (r : Report) :
  errors r ≤ errors (check condition msg r).
Proof. rewrite errors_check. destruct condition; lia. Qed.

Lemma errors_warn (msg : str) (r : Report) : errors (warn msg r) = errors r.
Proof. done. Qed.

Lemma errors_log (line : str) (r : Report) : errors (log line r) = errors r.
Proof. done. Qed.

Lemma exitStatus_pos (r : Report) : exitStatus r ≠ 0%Z ↔ 0 < errors r.
Proof.
  unfold exitStatus. destruct (Nat.ltb_spec 0 (errors r)); split; (done || lia).
Qed.

Lemma warnings_keep_status (msgs : list str) (r : Report) :
  errors (foldr warn r msgs) = errors r ∧ exitStatus (foldr warn r msgs) = exitStatus r.
Proof.
  assert (errors (foldr warn r msgs) = errors r) as H
    by (induction msgs as [|msg msgs IH]; [done|]; simpl; by rewrite IH).
  split; [done|]. unfold exitStatus. by rewrite H.
Qed.

(** The checks of a category page: one error for every id of [post_ids]
    whose marker is not in the page. *)
Lemma verifyCategoryHtml_errors (cat : Category) (html : str) (r : Report) :
  errors (verifyCategoryHtml cat html r)
  = errors r + length (filter (λ pid, includes html (cardMarker pid) = false) (post_ids cat)).
Proof.
  unfold verifyCategoryHtml. revert r.
  induction (post_ids cat) as [|pid ids IH]; intros r; [simpl; lia|].
  cbn [foldl]. rewrite IH, errors_check. fold (cardMarker pid).
  destruct (includes html (cardMarker pid)) eqn:Hin.
  - rewrite filter_cons_False by (by rewrite Hin). done.
  - rewrite filter_cons_True by done. simpl. lia.
Qed.

Lemma filter_length_le {A} (P Q : A → Prop) `{∀ x, Decision (P x)} `{∀ x, Decision (Q x)}
    (l : list A) :
  (∀ x, x ∈ l → P x → Q x) → length (filter P l) ≤ length (filter Q l).
Proof.
  induction l as [|x l IH]; intros HPQ; [done|].
  assert (length (filter P l) ≤ length (filter Q l)) as IH'.
  { apply IH. intros y Hy. apply HPQ. by right. }
  destruct (decide (P x)) as [HP|HP].
  - rewrite filter_cons_True by done.
    rewrite (filter_cons_True Q) by (apply HPQ; [by left|done]). simpl. lia.
  - rewrite filter_cons_False by done.
    destruct (decide (Q x)); [rewrite (filter_cons_True Q) by done; simpl; lia|].
    by rewrite (filter_cons_False Q).
Qed.

Lemma includes_substring (s : str) (a b : Z) : includes s (substring s a b) = true.
Proof.
  unfold substring. apply includes_occurs.
  set (lo := Nat.min (clamp s a) (clamp s b)). set (hi := Nat.max (clamp s a) (clamp s b)).
  exists (take lo s), (drop (hi - lo) (drop lo s)).
  by rewrite take_drop, take_drop.
Qed.

Lemma untouched_vars (v : str) (vars : list (str * str)) :
  untouched v vars.*1 = true → ∀ kv, kv ∈ vars → clash v (placeholder kv.1) = false.
Proof.
  unfold untouched. rewrite forallb_forall. intros H kv Hkv.
  apply negb_true_iff, H, list_elem_of_In, list_elem_of_fmap. eauto.
Qed.

(** *** The entries the verifier looks at *)

Section WithTree.
Variable outside : list str → option Node.
Variable tree : Tree.

Lemma entryAt_person (p : Person) :
  pageSlug (slug p) →
  entryAt outside tree [slug p; "index.html" : str]
  = tree !! (personSegs p ++ ["index.html" : str]).
Proof.
  intros Hp. destruct (pageSlug_segs _ Hp) as (Hne & Hpl & _). unfold entryAt.
  assert (segments [slug p; "index.html" : str] = personSegs p ++ ["index.html" : str]) as Hs.
  { unfold segments, personSegs. csimpl.
    by change (split "index.html" "/") with [("index.html" : str)]. }
  rewrite pathJoin_plain; rewrite Hs.
  - unfold personSegs. by destruct (split (slug p) "/").
  - apply Forall_app. split; [done|]. by repeat constructor.
Qed.

Lemma entryAt_category (c : Category) :
  pageSlug (cat_slug c) →
  entryAt outside tree ["category" : str; cat_slug c; "index.html" : str]
  = tree !! (categorySegs c ++ ["index.html" : str]).
Proof.
  intros Hp. destruct (pageSlug_segs _ Hp) as (Hne & Hpl & _). unfold entryAt.
  assert (segments ["category" : str; cat_slug c; "index.html" : str]
          = categorySegs c ++ ["index.html" : str]) as Hs.
  { unfold segments, categorySegs. csimpl.
    change (split "index.html" "/") with [("index.html" : str)].
    by change (split "category" "/") with [("category" : str)]. }
  rewrite pathJoin_plain; rewrite Hs; [done|].
  unfold categorySegs. constructor; [done|]. apply Forall_app. split; [done|].
  by repeat constructor.
Qed.

Lemma entryAt_index : entryAt outside tree ["index.html" : str] = tree !! ["index.html" : str].
Proof. unfold entryAt. by change (pathJoin ["index.html" : str]) with (Some [("index.html" : str)]). Qed.

Lemma entryAt_about :
  entryAt outside tree ["about" : str; "index.html" : str]
  = tree !! ["about" : str; "index.html" : str].
Proof.
  unfold entryAt.
  by change (pathJoin ["about" : str; "index.html" : str])
    with (Some [("about" : str); ("index.html" : str)]).
Qed.

Lemma entryAt_submit :
  entryAt outside tree ["submit" : str; "index.html" : str]
  = tree !! ["submit" : str; "index.html" : str].
Proof.
  unfold entryAt.
  by change (pathJoin ["submit" : str; "index.html" : str])
    with (Some [("submit" : str); ("index.html" : str)]).
Qed.

Lemma entryAt_favicon : entryAt outside tree ["favicon.ico" : str] = tree !! ["favicon.ico" : str].
Proof. unfold entryAt. by change (pathJoin ["favicon.ico" : str]) with (Some [("favicon.ico" : str)]). Qed.

Lemma entryAt_robots : entryAt outside tree ["robots.txt" : str] = tree !! ["robots.txt" : str].
Proof. unfold entryAt. by change (pathJoin ["robots.txt" : str]) with (Some [("robots.txt" : str)]). Qed.

(** *** A page that is a file, a directory, or missing *)

Lemma verifyCategory_file (cat : Category) (html : str) (r : Report) :
  entryAt outside tree ["category" : str; cat_slug cat; "index.html" : str] = Some (File html) →
  verifyCategory outside tree r cat = Completed (verifyCategoryHtml cat html r).
Proof.
  intros He. unfold verifyCategory, existsSync, readFileSync, exists_, read. rewrite He.
  by rewrite bool_decide_eq_true_2 by eauto.
Qed.

Lemma verifyCategory_dir (cat : Category) (r : Report) :
  entryAt outside tree ["category" : str; cat_slug cat; "index.html" : str] = Some Dir →
  verifyCategory outside tree r cat = Threw r.
Proof.
  intros He. unfold verifyCategory, existsSync, readFileSync, exists_, read. rewrite He.
  by rewrite bool_decide_eq_true_2 by eauto.
Qed.

Lemma verifyCategory_missing (cat : Category) (r : Report) :
  entryAt outside tree ["category" : str; cat_slug cat; "index.html" : str] = None →
  verifyCategory outside tree r cat
  = Completed (check false ("Missing: category/" ++ cat_slug cat ++ "/index.html") r).
Proof.
  intros He. unfold verifyCategory, existsSync, readFileSync, exists_, read. rewrite He.
  by rewrite bool_decide_eq_false_2 by (by intros [? ?]).
Qed.

Lemma verifyPerson_file (p : Person) (html : str) (r : Report) :
  entryAt outside tree [slug p; "index.html" : str] = Some (File html) →
  verifyPerson outside tree r p = Completed (verifyPersonHtml p html r).
Proof.
  intros He. unfold verifyPerson, existsSync, readFileSync, exists_, read. rewrite He.
  by rewrite bool_decide_eq_true_2 by eauto.
Qed.

Lemma verifyPerson_dir (p : Person) (r : Report) :
  entryAt outside tree [slug p; "index.html" : str] = Some Dir →
  verifyPerson outside tree r p = Threw r.
Proof.
  intros He. unfold verifyPerson, existsSync, readFileSync, exists_, read. rewrite He.
  by rewrite bool_decide_eq_true_2 by eauto.
Qed.

Lemma verifyPerson_missing (p : Person) (r : Report) :
  entryAt outside tree [slug p; "index.html" : str] = None →
  verifyPerson outside tree r p
  = Completed (check false ("Missing: " ++ slug p ++ "/index.html") r).
Proof.
  intros He. unfold verifyPerson, existsSync, readFileSync, exists_, read. rewrite He.
  by rewrite bool_decide_eq_false_2 by (by intros [? ?]).
Qed.

Lemma verifyPersonHtml_pass (p : Person) (html : str) (r : Report) :
  includes html (name p) = true →
  includes html (hero_image p) = true →
  includes html (thumbnail p) = true →
  includes html (substring (interview_content p) 0 80) = true →
  verifyPersonHtml p html r = r.
Proof.
  intros Hn Hh Hth Hs. unfold verifyPersonHtml. rewrite Hn, Hh, Hth, Hs. cbn [check].
  by destruct (Nat.ltb _ _).
Qed.

End WithTree.

Lemma status_nonzero (run : Run) :
  status run ≠ 0%Z ↔ 0 < errors (reportOf run) ∨ ∃ r, run = Threw r.
Proof.
  destruct run as [r|r]; cbn [status reportOf].
  - rewrite exitStatus_pos. split; [by left|]. by intros [?|[? ?]].
  - split; [eauto|done].
Qed.

(** *** Runs that reach the end *)

Lemma verifyPerson_completes (outside : list str → option Node) (tree : Tree)
    (r : Report) (p : Person) :
  entryAt outside tree [slug p; "index.html" : str] ≠ Some Dir →
  verifyPerson outside tree r p = Completed (reportOf (verifyPerson outside tree r p)).
Proof.
  intros Hd. destruct (entryAt outside tree [slug p; "index.html" : str]) as [[html|]|] eqn:He.
  - by rewrite (verifyPerson_file _ _ _ html).
  - done.
  - by rewrite verifyPerson_missing.
Qed.

Lemma verifyCategory_completes (outside : list str → option Node) (tree : Tree)
    (r : Report) (cat : Category) :
  entryAt outside tree ["category" : str; cat_slug cat; "index.html" : str] ≠ Some Dir →
  verifyCategory outside tree r cat
  = Completed (reportOf (verifyCategory outside tree r cat)).
Proof.
  intros Hd.
  destruct (entryAt outside tree ["category" : str; cat_slug cat; "index.html" : str])
    as [[html|]|] eqn:He.
  - by rewrite (verifyCategory_file _ _ _ html).
  - done.
  - by rewrite verifyCategory_missing.
Qed.

Lemma foldl_andThen_completed {A} (f : Report → A → Run) (l : list A) (r : Report) :
  (∀ x r, x ∈ l → f r x = Completed (reportOf (f r x))) →
  foldl (λ run x, andThen run (λ r, f r x)) (Completed r) l
  = Completed (foldl (λ r x, reportOf (f r x)) r l).
Proof.
  revert r. induction l as [|x l IH]; intros r Hl; [done|]. cbn [foldl andThen].
  rewrite (Hl x r) by by left. apply IH. intros y r' Hy. apply Hl. by right.
Qed.

Lemma foldl_andThen_threw {A} (f : Report → A → Run) (l : list A) (r : Report) :
  foldl (λ run x, andThen run (λ r, f r x)) (Threw r) l = Threw r.
Proof. induction l as [|x l IH]; [done|]. cbn [foldl andThen]. apply IH. Qed.

Lemma verifyRun_completes (E : Engine) (outside : list str → option Node)
    (people : list Person) (categories : list Category) (tree : Tree) :
  (∀ p, p ∈ people → entryAt outside tree [slug p; "index.html" : str] ≠ Some Dir) →
  (∀ c, c ∈ categories →
     entryAt outside tree ["category" : str; cat_slug c; "index.html" : str] ≠ Some Dir) →
  (∃ html, entryAt outside tree ["index.html" : str] = Some (File html)) →
  entryAt outside tree ["assets" : str; "css" : str; "techies.css" : str] ≠ Some Dir →
  ∃ r, verifyRun E outside people categories tree = Completed r.
Proof.
  intros Hp Hc [html Hi] Hcss. unfold verifyRun.
  rewrite foldl_andThen_completed by (intros p r Hin; by apply verifyPerson_completes, Hp).
  cbn [andThen].
  rewrite foldl_andThen_completed by (intros c r Hin; by apply verifyCategory_completes, Hc).
  cbn [andThen]. unfold readFileSync at 1. rewrite Hi. cbn [read].
  unfold verifyCss, existsSync, readFileSync.
  destruct (entryAt outside tree ["assets" : str; "css" : str; "techies.css" : str])
    as [[css|]|] eqn:He; [| done |]; cbn [exists_ read]; eauto.
Qed.

(** C2 (amended).  The exit status of the verifier is not zero exactly
    when its count of errors is not zero or an uncaught exception of a
    read ends the run; for a run that reaches the end of the script, the
    status is not zero exactly when the count of errors is not zero.  A
    run reaches the end when the store is read, no page it reads is a
    directory, [index.html] is a regular file and the style sheet is no
    directory; it does not when the store cannot be read.  Warnings, in
    any number, change neither the count of errors nor the status, and
    only a check that fails raises the count. *)
Theorem exit_status_reflects_errors (E : Engine) (outside : list str → option Node)
    (store : option (list Person * list Category)) (tree : Tree) :
  (status (main E outside store tree) ≠ 0%Z
   ↔ 0 < errors (reportOf (main E outside store tree))
     ∨ ∃ r, main E outside store tree = Threw r)
  ∧ (∀ r, main E outside store tree = Completed r →
       (status (main E outside store tree) ≠ 0%Z ↔ 0 < errors r))
  ∧ (∀ people categories, store = Some (people, categories) →
       (∀ p, p ∈ people → entryAt outside tree [slug p; "index.html" : str] ≠ Some Dir) →
       (∀ c, c ∈ categories →
          entryAt outside tree ["category" : str; cat_slug c; "index.html" : str] ≠ Some Dir) →
       (∃ html, entryAt outside tree ["index.html" : str] = Some (File html)) →
       entryAt outside tree ["assets" : str; "css" : str; "techies.css" : str] ≠ Some Dir →
       ∃ r, main E outside store tree = Completed r
            ∧ (verify E outside people categories tree).1 = r
            ∧ (verify E outside people categories tree).2 = exitStatus r)
  ∧ (store = None →
       status (main E outside store tree) = 1%Z
       ∧ errors (reportOf (main E outside store tree)) = 0)
  ∧ (∀ (msgs : list str) (r : Report),
       errors (foldr warn r msgs) = errors r
       ∧ exitStatus (foldr warn r msgs) = exitStatus r)
  ∧ (∀ (condition : bool) (msg : str) (r : Report),
       errors (check condition msg r) = if condition then errors r else S (errors r)).
Proof.
  split_and!; [apply status_nonzero| | | |apply warnings_keep_status|apply errors_check].
  - intros r Hr. rewrite Hr. cbn [status]. apply exitStatus_pos.
  - intros people categories -> Hp Hc Hi Hcss. cbn [main].
    destruct (verifyRun_completes E outside people categories tree Hp Hc Hi Hcss) as [r Hr].
    exists r. unfold verify. by rewrite Hr.
  - by intros ->.
Qed.

(** C1 (amended).  For a site whose pages find their place, a category
    whose slug no later category has, and a template with the
    [GALLERY_CARDS] placeholder: [build] ends normally, the page is
    written, its cards are those of the ids that resolve, the marker of
    every id that resolves is in the page, and the verifier reads the
    page and counts one error for every id of [post_ids] whose marker is
    not in the page, so at most one for every id that does not
    resolve. *)
Theorem category_page_errors_count_missing_markers (site : Site) (old : Tree)
    (outside : list str → option Node)
    (cs1 cs2 : list Category) (cat : Category) (r : Report) :
  placed site →
  categories site = cs1 ++ cat :: cs2 →
  (∀ c, c ∈ cs2 → cat_slug c ≠ cat_slug cat) →
  includes (categoryTemplate (templates site)) (placeholder "GALLERY_CARDS") = true →
  build site old = Done (expected site)
  ∧ expected site !! (categorySegs cat ++ ["index.html" : str])
    = Some (File (categoryHtml site cat))
  ∧ post_id <$> catPeople site cat = filter (resolves (Build.people site)) (post_ids cat)
  ∧ (∀ pid, pid ∈ post_ids cat → resolves (Build.people site) pid →
       includes (categoryHtml site cat) (cardMarker pid) = true)
  ∧ verifyCategory outside (expected site) r cat
    = Completed (verifyCategoryHtml cat (categoryHtml site cat) r)
  ∧ errors (reportOf (verifyCategory outside (expected site) r cat))
    = errors r
      + length (filter (λ pid, includes (categoryHtml site cat) (cardMarker pid) = false)
                       (post_ids cat))
  ∧ errors (reportOf (verifyCategory outside (expected site) r cat))
    ≤ errors r + length (filter (λ pid, ¬ resolves (Build.people site) pid) (post_ids cat)).
Proof.
  intros Hpl Hcs Hlater Ht.
  pose proof (expected_category site Hpl cs1 cs2 cat Hcs Hlater) as Hpage.
  assert (cat ∈ categories site) as Hc by (rewrite Hcs; apply elem_of_app; right; by left).
  assert (pageSlug (cat_slug cat)) as Hslug.
  { destruct Hpl as (_ & Hcats & _). rewrite Forall_forall in Hcats. by apply Hcats. }
  assert (verifyCategory outside (expected site) r cat
          = Completed (verifyCategoryHtml cat (categoryHtml site cat) r)) as Hrun.
  { apply verifyCategory_file. by rewrite entryAt_category. }
  assert (∀ pid, pid ∈ post_ids cat → resolves (Build.people site) pid →
            includes (categoryHtml site cat) (cardMarker pid) = true) as Hmark.
  { intros pid Hpid Hr.
    apply (includes_trans _ (cardsHtml site cat)); [by apply categoryHtml_includes_cards|].
    by apply cardsHtml_marker. }
  split_and!; [by apply build_done|done|apply catPeople_ids|done|done| |].
  - rewrite Hrun. cbn [reportOf]. apply verifyCategoryHtml_errors.
  - rewrite Hrun. cbn [reportOf]. rewrite verifyCategoryHtml_errors.
    apply Nat.add_le_mono_l.
    apply filter_length_le. intros pid Hpid Hno Hr.
    rewrite (Hmark pid Hpid Hr) in Hno. done.
Qed.

(** C5 (amended).  For a site whose pages find their place, a person
    whose slug no later person has, a person template with the
    placeholders [NAME], [HERO_IMAGE], [THUMBNAIL] and
    [INTERVIEW_CONTENT], and a name, hero image and thumbnail that
    overlap no placeholder of a later entry: [build] ends normally, the
    page is in the output tree and contains the name, the hero image and
    the thumbnail verbatim, and the whole interview content, hence its
    first 80 code units; the verifier reads the page and counts no error
    for this person. *)
Theorem person_page_contains_fields (site : Site) (old : Tree)
    (outside : list str → option Node)
    (ps1 ps2 : list Person) (p : Person) (r : Report) :
  placed site →
  Build.people site = ps1 ++ p :: ps2 →
  (∀ q, q ∈ ps2 → slug q ≠ slug p) →
  includes (personTemplate (templates site)) (placeholder "NAME") = true →
  includes (personTemplate (templates site)) (placeholder "HERO_IMAGE") = true →
  includes (personTemplate (templates site)) (placeholder "THUMBNAIL") = true →
  includes (personTemplate (templates site)) (placeholder "INTERVIEW_CONTENT") = true →
  untouched (name p) (keysAfter "NAME" personKeys) = true →
  untouched (hero_image p) (keysAfter "HERO_IMAGE" personKeys) = true →
  untouched (thumbnail p) (keysAfter "THUMBNAIL" personKeys) = true →
  build site old = Done (expected site)
  ∧ expected site !! (personSegs p ++ ["index.html" : str]) = Some (File (personHtml site p))
  ∧ includes (personHtml site p) (name p) = true
  ∧ includes (personHtml site p) (hero_image p) = true
  ∧ includes (personHtml site p) (thumbnail p) = true
  ∧ includes (personHtml site p) (interview_content p) = true
  ∧ includes (personHtml site p) (substring (interview_content p) 0 80) = true
  ∧ verifyPerson outside (expected site) r p = Completed r.
Proof.
  intros Hpl Hps Hlater Hn Hh Ht Hc Un Uh Ut.
  pose proof (expected_person site Hpl ps1 ps2 p Hps Hlater) as Hpage.
  assert (p ∈ Build.people site) as Hp by (rewrite Hps; apply elem_of_app; right; by left).
  assert (personSlug (slug p)) as Hslug.
  { destruct Hpl as (Hpeople & _). rewrite Forall_forall in Hpeople. by apply Hpeople. }
  assert (includes (personHtml site p) (name p) = true) as In.
  { unfold personHtml, personVars.
    apply (render_inserts _ "NAME" _
             [ ("HEAD" : str, _); ("NAV" : str, _); ("FOOTER" : str, _); ("SCRIPTS" : str, _) ]
             [ ("HERO_IMAGE" : str, _); ("THUMBNAIL" : str, _); ("YEARS_IN_TECH" : str, _);
               ("ROLE" : str, _); ("LOCATION" : str, _); ("INTERVIEW_DATE" : str, _);
               ("ABSTRACT" : str, _); ("PERSONAL_LINKS" : str, _);
               ("INTERVIEW_CONTENT" : str, _) ]); [done| |by apply untouched_vars].
    apply Forall_forall. by repeat constructor. }
  assert (includes (personHtml site p) (hero_image p) = true) as Ih.
  { unfold personHtml, personVars.
    apply (render_inserts _ "HERO_IMAGE" _
             [ ("HEAD" : str, _); ("NAV" : str, _); ("FOOTER" : str, _); ("SCRIPTS" : str, _);
               ("NAME" : str, _) ]
             [ ("THUMBNAIL" : str, _); ("YEARS_IN_TECH" : str, _);
               ("ROLE" : str, _); ("LOCATION" : str, _); ("INTERVIEW_DATE" : str, _);
               ("ABSTRACT" : str, _); ("PERSONAL_LINKS" : str, _);
               ("INTERVIEW_CONTENT" : str, _) ]); [done| |by apply untouched_vars].
    apply Forall_forall. by repeat constructor. }
  assert (includes (personHtml site p) (thumbnail p) = true) as Ith.
  { unfold personHtml, personVars.
    apply (render_inserts _ "THUMBNAIL" _
             [ ("HEAD" : str, _); ("NAV" : str, _); ("FOOTER" : str, _); ("SCRIPTS" : str, _);
               ("NAME" : str, _); ("HERO_IMAGE" : str, _) ]
             [ ("YEARS_IN_TECH" : str, _);
               ("ROLE" : str, _); ("LOCATION" : str, _); ("INTERVIEW_DATE" : str, _);
               ("ABSTRACT" : str, _); ("PERSONAL_LINKS" : str, _);
               ("INTERVIEW_CONTENT" : str, _) ]); [done| |by apply untouched_vars].
    apply Forall_forall. by repeat constructor. }
  assert (includes (personHtml site p) (interview_content p) = true) as Ic.
  { unfold personHtml, personVars.
    apply (render_inserts _ "INTERVIEW_CONTENT" _
             [ ("HEAD" : str, _); ("NAV" : str, _); ("FOOTER" : str, _); ("SCRIPTS" : str, _);
               ("NAME" : str, _); ("HERO_IMAGE" : str, _); ("THUMBNAIL" : str, _);
               ("YEARS_IN_TECH" : str, _); ("ROLE" : str, _); ("LOCATION" : str, _);
               ("INTERVIEW_DATE" : str, _); ("ABSTRACT" : str, _);
               ("PERSONAL_LINKS" : str, _) ] []);
      [done| |by intros kv Hkv; apply not_elem_of_nil in Hkv].
    apply Forall_forall. by repeat constructor. }
  assert (includes (personHtml site p) (substring (interview_content p) 0 80) = true) as Is.
  { eapply includes_trans; [exact Ic|apply includes_substring]. }
  split_and!; try done; [by apply build_done|].
  rewrite (verifyPerson_file _ _ _ (personHtml site p))
    by (rewrite entryAt_person; [done|apply Hslug]).
  f_equal. by apply verifyPersonHtml_pass.
Qed.

End VerifyProps.

(** ** The extractor *)

Module ExtractProps.
Import JsString RegExp Notions Store Extract JsStringFacts.

Lemma clamp_nat (s : str) (n : nat) : n ≤ length s → clamp s (Z.of_nat n) = n.
Proof. unfold clamp. lia. Qed.

Lemma indexOf_found (s m : str) (n i : nat) :
  n ≤ length s → find m (drop n s) = Some i → indexOf s m (Z.of_nat n) = Z.of_nat (n + i).
Proof. intros Hn Hf. unfold indexOf. by rewrite clamp_nat, Hf. Qed.

Lemma indexOf_missing (s m : str) (n : nat) :
  n ≤ length s → find m (drop n s) = None → indexOf s m (Z.of_nat n) = (-1)%Z.
Proof. intros Hn Hf. unfold indexOf. by rewrite clamp_nat, Hf. Qed.

Lemma indexOf_zero (s m : str) :
  indexOf s m 0 = match find m s with Some i => Z.of_nat i | None => (-1)%Z end.
Proof.
  unfold indexOf. assert (clamp s 0 = 0) as -> by (unfold clamp; lia). done.
Qed.

Lemma find_None_occurs (m s : str) : find m s = None ↔ ¬ occurs m s.
Proof.
  rewrite find_None_includes, <- includes_occurs. by destruct (includes s m).
Qed.

Lemma substring_nat (s : str) (a b : nat) :
  a ≤ b → b ≤ length s → substring s (Z.of_nat a) (Z.of_nat b) = take (b - a) (drop a s).
Proof.
  intros Hab Hb. unfold substring. rewrite !clamp_nat by lia.
  by rewrite Nat.min_l, Nat.max_r by lia.
Qed.

Lemma extractBetween_no_start (html startMarker endMarker : str) :
  find startMarker html = None → extractBetween html startMarker endMarker = [].
Proof.
  intros Hf. unfold extractBetween. rewrite indexOf_zero, Hf. by rewrite decide_True.
Qed.

Lemma extractBetween_start (html startMarker endMarker : str) (i : nat) :
  find startMarker html = Some i →
  extractBetween html startMarker endMarker
  = match find endMarker (drop (i + length startMarker) html) with
    | Some j => take j (drop (i + length startMarker) html)
    | None => []
    end.
Proof.
  intros Hf. pose proof (find_bound _ _ _ Hf) as Hb. unfold extractBetween.
  rewrite indexOf_zero, Hf.
  rewrite decide_False by lia. rewrite <- Nat2Z.inj_add.
  destruct (find endMarker (drop (i + length startMarker) html)) as [j|] eqn:He.
  - pose proof (find_bound _ _ _ He) as Hb'. rewrite length_drop in Hb'.
    rewrite (indexOf_found _ _ _ j) by (done || lia).
    rewrite decide_False by lia.
    rewrite substring_nat by lia. f_equal. lia.
  - rewrite indexOf_missing by (done || lia). by rewrite decide_True.
Qed.

(** C9.  The two helpers return a string on every input.
    [extractBetween] returns the empty string when the start marker does
    not occur, and when the end marker does not occur after the first start
    marker; otherwise it returns the text between the two.  [extractMatch]
    returns the empty string when the pattern does not match, and the
    first group of the match otherwise. *)
Theorem extraction_helpers_total (E : Engine) (html startMarker endMarker : str)
    (regex : re) :
  (¬ occurs startMarker html → extractBetween html startMarker endMarker = [])
  ∧ (∀ i, find startMarker html = Some i →
       ¬ occurs endMarker (drop (i + length startMarker) html) →
       extractBetween html startMarker endMarker = [])
  ∧ (∀ i j, find startMarker html = Some i →
       find endMarker (drop (i + length startMarker) html) = Some j →
       extractBetween html startMarker endMarker
       = take j (drop (i + length startMarker) html))
  ∧ (exec E regex html = None → extractMatch E html regex = [])
  ∧ (∀ m, exec E regex html = Some m → extractMatch E html regex = group m 1).
Proof.
  split_and!.
  - intros H. by apply extractBetween_no_start, find_None_occurs.
  - intros i Hi H. apply find_None_occurs in H.
    by rewrite (extractBetween_start _ _ _ i), H.
  - intros i j Hi Hj. by rewrite (extractBetween_start _ _ _ i), Hj.
  - intros H. unfold extractMatch. by rewrite H.
  - intros m H. unfold extractMatch. by rewrite H.
Qed.

Section WithRuntime.
Variable E : Engine.
Variable fs : gmap str str.

Global Instance hasDocument_dec entry : Decision (hasDocument fs entry).
Proof. unfold hasDocument. apply _. Defined.

Lemma step_people (titles : gmap str str) (run : Run) (entry : Entry) :
  people (step E fs titles run entry)
  = people run ++ option_list (personOfEntry E fs titles entry).
Proof.
  unfold step, parsePersonPage, readFile, personOfEntry.
  destruct (fs !! (entry_slug entry ++ "/index.html")); simpl; [done|].
  by rewrite app_nil_r.
Qed.

Lemma loop_people (titles : gmap str str) (entries : list Entry) (run : Run) :
  people (foldl (step E fs titles) run entries)
  = people run ++ omap (personOfEntry E fs titles) entries.
Proof.
  revert run. induction entries as [|entry entries IH]; intros run.
  - simpl. by rewrite app_nil_r.
  - cbn [foldl]. rewrite IH, step_people. rewrite <- app_assoc. f_equal.
    csimpl. by destruct (personOfEntry E fs titles entry).
Qed.

Lemma step_console (titles : gmap str str) (run : Run) (entry : Entry) :
  ∃ more, console (step E fs titles run entry) = console run ++ more
          ∧ (fs !! (entry_slug entry ++ "/index.html") = None →
             Warn ("  WARNING: " ++ (entry_slug entry ++ "/index.html") ++ " not found, skipping")
             ∈ more).
Proof.
  unfold step, parsePersonPage, readFile.
  destruct (fs !! (entry_slug entry ++ "/index.html")); simpl.
  - eexists. rewrite <- app_assoc. split; [done|done].
  - eexists. rewrite <- !app_assoc. split; [done|]. intros _.
    apply elem_of_app. right. apply elem_of_app. left. by apply list_elem_of_singleton.
Qed.

Lemma loop_console (titles : gmap str str) (entries : list Entry) (run : Run) :
  ∃ more, console (foldl (step E fs titles) run entries) = console run ++ more
          ∧ ∀ entry, entry ∈ entries →
              fs !! (entry_slug entry ++ "/index.html") = None →
              Warn ("  WARNING: " ++ (entry_slug entry ++ "/index.html") ++ " not found, skipping")
              ∈ more.
Proof.
  revert run. induction entries as [|entry entries IH]; intros run.
  - exists []. rewrite app_nil_r. split; [done|]. intros e He. by apply not_elem_of_nil in He.
  - cbn [foldl]. destruct (IH (step E fs titles run entry)) as (more2 & Hc2 & Hw2).
    destruct (step_console titles run entry) as (more1 & Hc1 & Hw1).
    exists (more1 ++ more2). rewrite Hc2, Hc1, <- app_assoc. split; [done|].
    intros e He Hnone. apply elem_of_app. apply elem_of_cons in He as [->|He]; eauto.
Qed.

Lemma main_runs (home : str) :
  fs !! ("index.html" : str) = Some home →
  ∃ entries run, parseHomepage E fs = Some entries ∧ main E fs = Some run
    ∧ people run = omap (personOfEntry E fs (titleBySlug entries)) entries
    ∧ ∀ entry, entry ∈ entries →
        fs !! (entry_slug entry ++ "/index.html") = None →
        Warn ("  WARNING: " ++ (entry_slug entry ++ "/index.html") ++ " not found, skipping")
        ∈ console run.
Proof.
  intros Hhome. unfold main, parseHomepage, readFile. rewrite Hhome. csimpl.
  eexists _, _. split; [reflexivity|]. split; [reflexivity|]. split.
  - by rewrite loop_people.
  - intros entry He Hnone.
    match goal with |- context [foldl ?f ?r ?l] =>
      destruct (loop_console (titleBySlug l) l r) as (more & -> & Hw) end.
    apply elem_of_app. right. exact (Hw entry He Hnone).
Qed.

(** The records of the collection and the entries that have a document
    correspond one to one, in order. *)
Lemma loop_correspondence (titles : gmap str str) (entries : list Entry) :
  Forall2 (λ entry person,
             ∃ html, fs !! (entry_slug entry ++ "/index.html") = Some html
                     ∧ person = merge titles entry (personOfPage E (entry_slug entry) html))
          (filter (hasDocument fs) entries)
          (omap (personOfEntry E fs titles) entries).
Proof.
  induction entries as [|entry entries IH]; [constructor|].
  csimpl. unfold personOfEntry at 1.
  destruct (fs !! (entry_slug entry ++ "/index.html")) as [html|] eqn:Hdoc; csimpl.
  - rewrite filter_cons_True by (unfold hasDocument; rewrite Hdoc; eauto).
    constructor; [eauto|done].
  - rewrite filter_cons_False; [done|]. unfold hasDocument. rewrite Hdoc. by intros [? ?].
Qed.

End WithRuntime.

Lemma Forall2_slugs (entries : list Entry) (persons : list Person) :
  Forall2 (λ entry person, slug person = entry_slug entry) entries persons →
  slug <$> persons = entry_slug <$> entries.
Proof. induction 1; csimpl; congruence. Qed.

(** C7.  When the listing can be read the run ends with a collection
    whose records are, in order, those of the listing entries that have a
    document; the post id of a record is the id of its document's
    shortlink when that is not zero, and the id of the listing entry when
    the document yields zero. *)
Theorem post_id_falls_back_to_listing (E : Engine) (fs : gmap str str) (home : str) :
  fs !! ("index.html" : str) = Some home →
  ∃ entries run,
    parseHomepage E fs = Some entries ∧ main E fs = Some run
    ∧ Forall2 (λ entry person,
                 ∃ html, fs !! (entry_slug entry ++ "/index.html") = Some html
                         ∧ slug person = entry_slug entry
                         ∧ post_id person
                           = if decide (parsePostId E html = 0%Z)
                             then entry_post_id entry
                             else parsePostId E html)
              (filter (hasDocument fs) entries) (people run).
Proof.
  intros Hhome. destruct (main_runs E fs home Hhome) as (entries & run & He & Hm & Hp & _).
  exists entries, run. split_and!; [done|done|]. rewrite Hp.
  eapply Forall2_impl; [apply loop_correspondence|].
  intros entry person (html & Hdoc & ->). by exists html.
Qed.

(** The run on the three-card listing: [ada] keeps the id 42 of its
    shortlink, [cy], whose document has none, gets the id 9 of its card. *)
Lemma post_id_fallback_witness :
  ∃ entries run,
    parseHomepage backtracking Scenario.files = Some entries
    ∧ main backtracking Scenario.files = Some run
    ∧ Forall2 (λ entry person,
                 ∃ html, Scenario.files !! (entry_slug entry ++ "/index.html") = Some html
                         ∧ slug person = entry_slug entry
                         ∧ post_id person
                           = if decide (parsePostId backtracking html = 0%Z)
                             then entry_post_id entry
                             else parsePostId backtracking html)
              (filter (hasDocument Scenario.files) entries) (people run).
Proof.
  apply (post_id_falls_back_to_listing backtracking Scenario.files Scenario.listing).
  reflexivity.
Defined.

(** C8.  When the listing can be read the run ends normally whatever
    documents are missing: the slugs of the collection are those of the
    entries that have a document, so the slug of an entry without one is
    not in the collection, and the console holds the warning for it. *)
Theorem missing_document_skips_entry (E : Engine) (fs : gmap str str) (home : str) :
  fs !! ("index.html" : str) = Some home →
  ∃ entries run,
    parseHomepage E fs = Some entries ∧ main E fs = Some run
    ∧ slug <$> people run = entry_slug <$> filter (hasDocument fs) entries
    ∧ ∀ entry, entry ∈ entries →
        fs !! (entry_slug entry ++ "/index.html") = None →
        (entry_slug entry ∉ (slug <$> people run))
        ∧ Warn ("  WARNING: " ++ (entry_slug entry ++ "/index.html") ++ " not found, skipping")
          ∈ console run.
Proof.
  intros Hhome. destruct (main_runs E fs home Hhome) as (entries & run & He & Hm & Hp & Hw).
  exists entries, run.
  assert (slug <$> people run = entry_slug <$> filter (hasDocument fs) entries) as Hslugs.
  { rewrite Hp. apply Forall2_slugs.
    eapply Forall2_impl; [apply loop_correspondence|].
    by intros entry person (html & _ & ->). }
  split_and!; [done|done|done|]. intros entry Hentry Hnone. split; [|by apply Hw].
  rewrite Hslugs. intros Hin. apply list_elem_of_fmap in Hin as (e' & Heq & He').
  apply list_elem_of_filter in He' as [[html Hdoc] _].
  rewrite <- Heq in Hdoc. congruence.
Qed.

Lemma missing_document_witness :
  ∃ entries run,
    parseHomepage backtracking Scenario.files = Some entries
    ∧ main backtracking Scenario.files = Some run
    ∧ slug <$> people run = entry_slug <$> filter (hasDocument Scenario.files) entries
    ∧ ∀ entry, entry ∈ entries →
        Scenario.files !! (entry_slug entry ++ "/index.html") = None →
        (entry_slug entry ∉ (slug <$> people run))
        ∧ Warn ("  WARNING: " ++ (entry_slug entry ++ "/index.html") ++ " not found, skipping")
          ∈ console run.
Proof.
  apply (missing_document_skips_entry backtracking Scenario.files Scenario.listing).
  reflexivity.
Defined.

(** The same run, evaluated: [bob] has no document. *)
Example extraction_of_the_listing :
  ((λ run, (λ p, (slug p, post_id p, title p)) <$> people run)
     <$> main backtracking Scenario.files)
  = Some [ ("ada" : str, 42%Z, Text "Engineer"); ("cy" : str, 9%Z, Text "Writer") ]
  ∧ ((λ run, omap (λ c, match c with Warn line => Some line | _ => None end) (console run))
       <$> main backtracking Scenario.files)
    = Some [ "  WARNING: bob/index.html not found, skipping" : str ].
Proof. split; by vm_compute. Qed.

End ExtractProps.

(** ** The scenarios *)

Module ScenarioProps.
Import JsString RegExp Notions Store Fs Build Layout Placement Verify Scenario BuildDone
  RenderProps VerifyProps.

Lemma scenario_placed : placed (siteOf [ada] [backend; frontend]).
Proof. apply (bool_decide_unpack _). by vm_compute. Qed.

(** C1, as stated, fails.  With the categories [backend] (ids 42) and
    [frontend] (ids 42 and 99) and one record, of id 42, [build] ends
    normally, the page of [frontend] has the card of 42 only, and the
    verifier counts one error for this page, for the id 99; its exit
    status is 1. *)
Lemma dangling_id_is_counted_as_error :
  build (siteOf [ada] [backend; frontend]) ∅ = Done (expected (siteOf [ada] [backend; frontend]))
  ∧ expected (siteOf [ada] [backend; frontend]) !! ["category" : str; "frontend" : str; "index.html" : str]
    = Some (File (categoryHtml (siteOf [ada] [backend; frontend]) frontend))
  ∧ post_id <$> catPeople (siteOf [ada] [backend; frontend]) frontend = [42%Z]
  ∧ includes (categoryHtml (siteOf [ada] [backend; frontend]) frontend) (cardMarker 42) = true
  ∧ includes (categoryHtml (siteOf [ada] [backend; frontend]) frontend) (cardMarker 99) = false
  ∧ errors (reportOf (verifyCategory nothing (expected (siteOf [ada] [backend; frontend])) report0 frontend)) = 1
  ∧ errors (verify backtracking nothing [ada] [backend; frontend] (expected (siteOf [ada] [backend; frontend]))).1 = 1
  ∧ (verify backtracking nothing [ada] [backend; frontend] (expected (siteOf [ada] [backend; frontend]))).2 = 1%Z.
Proof. split; [apply build_done, scenario_placed|]. by vm_compute. Qed.

Lemma category_page_errors_witness :
  errors (reportOf (verifyCategory nothing (expected (siteOf [ada] [backend; frontend])) report0 frontend))
  = errors report0
    + length (filter (λ pid, includes (categoryHtml (siteOf [ada] [backend; frontend]) frontend) (cardMarker pid) = false)
                     (post_ids frontend)).
Proof.
  refine (proj1 (proj2 (proj2 (proj2 (proj2 (proj2
    (category_page_errors_count_missing_markers (siteOf [ada] [backend; frontend]) ∅ nothing
       [backend] [] frontend report0 _ _ _ _))))))).
  - apply (bool_decide_unpack _). by vm_compute.
  - reflexivity.
  - intros c Hc. by apply not_elem_of_nil in Hc.
  - reflexivity.
Defined.

(** C2, as stated, fails.  [index.html] is a directory and the other
    fixed pages are there: no check fails, so the count of errors is 0
    when reading [index.html] throws, and the exit status is 1.  So it
    is when a file of the store cannot be read. *)
Lemma index_directory_fails_without_error :
  entryAt nothing indexIsDirectory ["index.html" : str] = Some Dir
  ∧ verifyRun backtracking nothing [] [] indexIsDirectory
    = Threw (reportOf (verifyRun backtracking nothing [] [] indexIsDirectory))
  ∧ errors (verify backtracking nothing [] [] indexIsDirectory).1 = 0
  ∧ (verify backtracking nothing [] [] indexIsDirectory).2 = 1%Z
  ∧ errors (reportOf (main backtracking nothing None indexIsDirectory)) = 0
  ∧ status (main backtracking nothing None indexIsDirectory) = 1%Z.
Proof. by vm_compute. Qed.

(** A run with three warnings (assets that are not in the tree) and no
    error: the exit status is 0. *)
Example warnings_do_not_fail_the_run :
  errors (verify backtracking nothing [ada] [backend] (treeOf (build (siteOf [ada] [backend]) ∅))).1 = 0
  ∧ warnings (verify backtracking nothing [ada] [backend] (treeOf (build (siteOf [ada] [backend]) ∅))).1 = 3
  ∧ (verify backtracking nothing [ada] [backend] (treeOf (build (siteOf [ada] [backend]) ∅))).2 = 0%Z.
Proof. by vm_compute. Qed.

Lemma exit_status_witness :
  status (main backtracking nothing (Some ([ada], [backend])) (expected (siteOf [ada] [backend]))) ≠ 0%Z
  ↔ 0 < errors (reportOf (main backtracking nothing (Some ([ada], [backend]))
                            (expected (siteOf [ada] [backend]))))
    ∨ ∃ r, main backtracking nothing (Some ([ada], [backend])) (expected (siteOf [ada] [backend]))
           = Threw r.
Proof.
  exact (proj1 (exit_status_reflects_errors backtracking nothing (Some ([ada], [backend]))
                  (expected (siteOf [ada] [backend])))).
Defined.

Lemma category_page_witness :
  build (siteOf [ada] [backend; frontend]) ∅ = Done (expected (siteOf [ada] [backend; frontend]))
  ∧ categoryPath frontend = Some (categorySegs frontend ++ ["index.html" : str])
  ∧ expected (siteOf [ada] [backend; frontend]) !! (categorySegs frontend ++ ["index.html" : str])
    = Some (File (categoryHtml (siteOf [ada] [backend; frontend]) frontend))
  ∧ cardsHtml (siteOf [ada] [backend; frontend]) frontend
    = join (nl ++ nl ++ "<!-- end loop -->" ++ nl)
        (categoryCard <$> catPeople (siteOf [ada] [backend; frontend]) frontend)
  ∧ post_id <$> catPeople (siteOf [ada] [backend; frontend]) frontend
    = filter (resolves (people (siteOf [ada] [backend; frontend]))) (post_ids frontend).
Proof.
  pose proof (category_page_drops_dangling_ids (siteOf [ada] [backend; frontend]) ∅
                [backend] [] frontend) as H.
  destruct H as (H1 & H2 & H3 & H4 & H5 & _).
  - apply (bool_decide_unpack _). by vm_compute.
  - reflexivity.
  - intros c Hc. by apply not_elem_of_nil in Hc.
  - by split_and!.
Defined.

(** C5, as stated, fails.  The name of [eve] is the text of the [ROLE]
    placeholder: the round of [NAME] writes it into the page and the
    round of [ROLE], which comes later, replaces it by the role.  The
    template has the [NAME] placeholder, [build] ends normally and the
    page is the one in the output tree, yet it does not contain the
    name, and the verifier counts an error. *)
Lemma name_with_placeholder_text_is_replaced :
  includes (personTemplate someTemplates) (placeholder "NAME") = true
  ∧ build (siteOf [eve] [backend; frontend]) ∅
    = Done (treeOf (build (siteOf [eve] [backend; frontend]) ∅))
  ∧ treeOf (build (siteOf [eve] [backend; frontend]) ∅) !! ["eve" : str; "index.html" : str]
    = Some (File (personHtml (siteOf [eve] [backend; frontend]) eve))
  ∧ includes (personHtml (siteOf [eve] [backend; frontend]) eve) (name eve) = false
  ∧ errors (reportOf (verifyPerson nothing (treeOf (build (siteOf [eve] [backend; frontend]) ∅))
                        report0 eve)) = 1.
Proof. by vm_compute. Qed.

Lemma person_page_witness :
  build (siteOf [ada] [backend; frontend]) ∅ = Done (expected (siteOf [ada] [backend; frontend]))
  ∧ expected (siteOf [ada] [backend; frontend]) !! (personSegs ada ++ ["index.html" : str])
    = Some (File (personHtml (siteOf [ada] [backend; frontend]) ada))
  ∧ includes (personHtml (siteOf [ada] [backend; frontend]) ada) (name ada) = true
  ∧ includes (personHtml (siteOf [ada] [backend; frontend]) ada) (hero_image ada) = true
  ∧ includes (personHtml (siteOf [ada] [backend; frontend]) ada) (thumbnail ada) = true
  ∧ includes (personHtml (siteOf [ada] [backend; frontend]) ada) (interview_content ada) = true
  ∧ includes (personHtml (siteOf [ada] [backend; frontend]) ada) (substring (interview_content ada) 0 80) = true
  ∧ verifyPerson nothing (expected (siteOf [ada] [backend; frontend])) report0 ada
    = Completed report0.
Proof.
  apply (person_page_contains_fields (siteOf [ada] [backend; frontend]) ∅ nothing [] [] ada report0);
    try reflexivity.
  - apply (bool_decide_unpack _). by vm_compute.
  - intros q Hq. by apply not_elem_of_nil in Hq.
Defined.


(** Two records share the id 42: the card of the category page is the card
    of the later one, with its slug, thumbnail, name and title. *)
Lemma last_record_wins_witness :
  peopleByPostId [ada; ada2] !! 42%Z = Some ada2
  ∧ catPeople (siteOf [ada; ada2] [backend; frontend]) backend = [ada2]
  ∧ cardsHtml (siteOf [ada; ada2] [backend; frontend]) backend = categoryCard ada2
  ∧ includes (categoryHtml (siteOf [ada; ada2] [backend; frontend]) backend) (categoryCard ada2) = true
  ∧ includes (categoryCard ada2) (" href=" ++ dq ++ "/ada-again/" ++ dq) = true
  ∧ includes (categoryCard ada2) ("/d1lhy388c2xgxf/thumbnails/ada2-thumb.jpg" ++ dq) = true
  ∧ includes (categoryCard ada2) ("      <p class=" ++ dq ++ "name" ++ dq ++ ">Ada II</p>") = true
  ∧ includes (categoryCard ada2) ("      <p class=" ++ dq ++ "title" ++ dq ++ ">Analyst&nbsp;</p>") = true.
Proof.
  destruct (last_record_wins_post_id (siteOf [ada; ada2] [backend; frontend]) backend)
    as (H1 & H2 & H3 & H4).
  destruct (H4 42%Z ada2) as (_ & _ & H5 & _ & H6 & H7 & H8 & H9); [by left|reflexivity|].
  split_and!.
  - etrans; [exact (H1 42%Z)|reflexivity].
  - etrans; [exact H2|reflexivity].
  - etrans; [exact H3|reflexivity].
  - apply H5. reflexivity.
  - exact H6.
  - exact H7.
  - exact H8.
  - exact H9.
Defined.

(** The years block of a person page, and a page without the closing tag. *)
Lemma extraction_helpers_witness :
  Extract.extractBetween "<ul><li class=years>12</li></ul>" "<li class=years>" "</li>" = "12"
  ∧ Extract.extractBetween "<ul><li class=years>12" "<li class=years>" "</li>" = [].
Proof.
  split.
  - apply (proj1 (proj2 (proj2 (ExtractProps.extraction_helpers_total backtracking
             "<ul><li class=years>12</li></ul>" "<li class=years>" "</li>" (Lit []))))
           4 2); reflexivity.
  - apply (proj1 (proj2 (ExtractProps.extraction_helpers_total backtracking
             "<ul><li class=years>12" "<li class=years>" "</li>" (Lit [])))
           4); [reflexivity|].
    apply ExtractProps.find_None_occurs. reflexivity.
Defined.

End ScenarioProps.

(** ** Lists, folds and maps *)

Module ListFacts.
Import MapFacts.

Lemma foldl_fix {A B} (f : A → B → A) (l : list B) (a : A) :
  (∀ x, x ∈ l → ∀ a, f a x = a) → foldl f a l = a.
Proof.
  induction l as [|x l IH]; intros H; [done|]. simpl.
  rewrite H by by left. apply IH. intros y Hy. apply H. by right.
Qed.

Lemma foldl_keeps {A B C} (g : A → C) (f : A → B → A) (l : list B) (a : A) :
  (∀ a x, g (f a x) = g a) → g (foldl f a l) = g a.
Proof.
  intros H. revert a. induction l as [|x l IH]; intros a; [done|]. simpl.
  by rewrite IH.
Qed.

Lemma foldl_insert_is_Some `{Countable K} {A V} (key : A → K) (val : A → V)
    (l : list A) (m : gmap K V) (k : K) :
  is_Some (foldl (λ m x, <[key x := val x]> m) m l !! k)
  ↔ (∃ x, x ∈ l ∧ key x = k) ∨ is_Some (m !! k).
Proof.
  rewrite foldl_insert_last. destruct (last (filter (λ x, key x = k) l)) as [x|] eqn:E.
  - apply last_Some_elem_of, list_elem_of_filter in E as [Hk Hx]. split; eauto.
  - apply last_None in E. split; [eauto|]. intros [(x & Hx & Hk)|?]; [|done].
    assert (x ∈ filter (λ x, key x = k) l) as Hf by by apply list_elem_of_filter.
    rewrite E in Hf. by apply not_elem_of_nil in Hf.
Qed.

Lemma NoDup_fmap_split {A B} (f : A → B) (l : list A) (x : A) :
  NoDup (f <$> l) → x ∈ l → ∃ l1 l2, l = l1 ++ x :: l2 ∧ ∀ y, y ∈ l2 → f y ≠ f x.
Proof.
  intros Hnd Hx. apply list_elem_of_split in Hx as (l1 & l2 & ->).
  exists l1, l2. split; [done|]. intros y Hy Heq.
  rewrite fmap_app, fmap_cons in Hnd. apply NoDup_app in Hnd as (_ & _ & Hnd).
  apply NoDup_cons in Hnd as [Hnotin _]. apply Hnotin.
  rewrite <- Heq. apply list_elem_of_fmap. eauto.
Qed.

Lemma Forall2_elem {A B} (P : A → B → Prop) (l : list A) (k : list B) :
  Forall2 P l k → Forall2 (λ x y, x ∈ l ∧ P x y) l k.
Proof.
  induction 1 as [|x y l k HP _ IH]; constructor.
  - split; [by left|done].
  - eapply Forall2_impl; [exact IH|]. intros a b [Ha Hab]. split; [by right|done].
Qed.

Lemma Forall2_fmap_eq {A B C} (f : B → C) (g : A → C) (l : list A) (k : list B) :
  Forall2 (λ x y, f y = g x) l k → f <$> k = g <$> l.
Proof. induction 1; csimpl; congruence. Qed.

Lemma filter_none {A} (P : A → Prop) `{∀ x, Decision (P x)} (l : list A) :
  (∀ x, x ∈ l → ¬ P x) → filter P l = [].
Proof.
  induction l as [|y l IH]; intros Hl; [done|].
  rewrite filter_cons_False by (apply Hl; by left).
  apply IH. intros x Hx. apply Hl. by right.
Qed.

Lemma filter_key_unique {A B} `{EqDecision B} (f : A → B) (l : list A) (x : A) :
  NoDup (f <$> l) → x ∈ l → filter (λ y, f y = f x) l = [x].
Proof.
  induction l as [|y l IH]; intros Hnd Hx; [by apply not_elem_of_nil in Hx|].
  rewrite fmap_cons in Hnd. apply NoDup_cons in Hnd as [Hy Hnd].
  apply elem_of_cons in Hx as [->|Hx].
  - rewrite filter_cons_True by done. f_equal.
    apply filter_none. intros z Hz Heq. apply Hy.
    rewrite <- Heq. apply list_elem_of_fmap. eauto.
  - rewrite filter_cons_False; [by apply IH|].
    intros Heq. apply Hy. rewrite Heq. apply list_elem_of_fmap. eauto.
Qed.

End ListFacts.

(** ** More on [render]: what a round leaves behind *)

Module PlaceholderProps.
Import JsString Notions Store Build JsStringFacts MapFacts BuildFacts.

(** An occurrence in a concatenation lies in one of the two parts or
    straddles the seam. *)
Lemma occurs_app (x u w : str) :
  occurs x (u ++ w) →
  occurs x u ∨ occurs x w
  ∨ ∃ x1 x2 u' w', x = x1 ++ x2 ∧ x1 ≠ [] ∧ x2 ≠ [] ∧ u = u' ++ x1 ∧ w = x2 ++ w'.
Proof.
  intros (a & b & H). symmetry in H. apply app_eq_inv in H as [(k & -> & ->)|(k & -> & H)].
  - right. left. by exists k, b.
  - apply app_eq_inv in H as [(k' & -> & ->)|(k' & -> & ->)].
    + destruct k as [|c k]; [right; left; by exists [], b|].
      destruct k' as [|d k']; [left; exists a, []; by rewrite !app_nil_r|].
      right. right. by exists (c :: k), (d :: k'), a, b.
    + left. by exists a, k'.
Qed.

Lemma meets_inside (v x a b : str) : x ≠ [] → v = a ++ x ++ b → meets v x = true.
Proof.
  intros Hx ->. apply (meets_drop _ _ (length a)).
  - rewrite !length_app. destruct x; [done|simpl; lia].
  - rewrite drop_app_length. apply (compat_common _ _ [] b). by rewrite app_nil_r.
Qed.

Lemma meets_suffix (v x v' x1 x2 : str) :
  x1 ≠ [] → v = v' ++ x1 → x = x1 ++ x2 → meets v x = true.
Proof.
  intros Hx -> ->. apply (meets_drop _ _ (length v')).
  - rewrite length_app. destruct x1; [done|simpl; lia].
  - rewrite drop_app_length. apply (compat_common _ _ x2 []). by rewrite app_nil_r.
Qed.

Lemma meets_prefix (x v x1 x2 t w' : str) :
  x2 ≠ [] → x = x1 ++ x2 → v ++ t = x2 ++ w' → meets x v = true.
Proof.
  intros Hx -> H. apply (meets_drop _ _ (length x1)).
  - rewrite length_app. destruct x2; [done|simpl; lia].
  - rewrite drop_app_length. by apply (compat_common _ _ w' t).
Qed.

(** Putting [v] between two texts that do not contain [x] gives a text
    that does not contain [x], when [x] and [v] cannot overlap. *)
Lemma includes_seam (p v t x : str) :
  clash x v = false →
  includes p x = false → includes t x = false → includes (p ++ v ++ t) x = false.
Proof.
  intros Hc Hp Ht. destruct x as [|x0 x'] eqn:Ex.
  { by rewrite (proj2 (includes_occurs p []) (ex_intro _ [] (ex_intro _ p eq_refl))) in Hp. }
  rewrite <- Ex in *. assert (x ≠ []) as Hx by by subst.
  assert (meets x v = false ∧ meets v x = false) as [Hxv Hvx].
  { subst x. by apply orb_false_iff in Hc. }
  destruct (includes (p ++ v ++ t) x) eqn:Hin; [exfalso|done].
  apply includes_occurs, occurs_app in Hin
    as [Hin|[Hin|(x1 & x2 & u' & w' & Hxx & H1 & H2 & Hu & Hw)]].
  - apply includes_occurs in Hin. congruence.
  - apply occurs_app in Hin as [(a & b & Hin)|[Hin|(x1 & x2 & u' & w' & Hxx & H1 & H2 & Hu & Hw)]].
    + rewrite (meets_inside v x a b) in Hvx; done.
    + apply includes_occurs in Hin. congruence.
    + rewrite (meets_suffix v x u' x1 x2) in Hvx; done.
  - rewrite (meets_prefix x v x1 x2 t w') in Hxv; done.
Qed.

Lemma includes_join_free (v x : str) (pieces : list str) :
  clash x v = false →
  Forall (λ p, includes p x = false) pieces →
  pieces ≠ [] → includes (join v pieces) x = false.
Proof.
  intros Hc Hall Hne. induction Hall as [|p ps Hp Hps IH]; [done|].
  destruct ps as [|q ps]; [done|]. rewrite join_cons by done.
  apply includes_seam; [done|done|]. by apply IH.
Qed.

(** The pieces of a split are parts of the text. *)
Lemma split_pieces_occur (s sep : str) :
  sep ≠ [] → Forall (λ p, includes s p = true) (split s sep).
Proof.
  intros Hsep. remember (length s) as n eqn:Hn. revert s Hn.
  induction n as [n IH] using lt_wf_ind. intros s Hn.
  rewrite split_unfold by done. destruct (find sep s) as [i|] eqn:Hf.
  - pose proof (find_bound _ _ _ Hf).
    assert (0 < length sep) by (destruct sep; [done|simpl; lia]).
    constructor.
    + apply includes_occurs. exists [], (drop i s). by rewrite take_drop.
    + eapply Forall_impl;
        [apply (IH (length (drop (i + length sep) s))); [rewrite length_drop; lia|done]|].
      intros p Hp. eapply includes_trans; [|exact Hp].
      apply includes_occurs. exists (take (i + length sep) s), []. by rewrite app_nil_r, take_drop.
  - constructor; [apply includes_self|done].
Qed.

(** A round of [render] leaves no occurrence of its placeholder when the
    value cannot overlap it. *)
Lemma substitute_removes (s key value : str) :
  clash (placeholder key) value = false →
  includes (substitute s key value) (placeholder key) = false.
Proof.
  intros Hc. unfold substitute. apply includes_join_free; [done| |].
  - apply split_pieces, placeholder_nonempty.
  - apply split_nonempty, placeholder_nonempty.
Qed.

(** A round creates no occurrence of a text that its value cannot overlap. *)
Lemma substitute_no_new (s x key value : str) :
  clash x value = false →
  includes s x = false → includes (substitute s key value) x = false.
Proof.
  intros Hc Hs. unfold substitute. apply includes_join_free; [done| |].
  - eapply Forall_impl; [apply (split_pieces_occur s), placeholder_nonempty|].
    intros p Hp. destruct (includes p x) eqn:Hpx; [|done].
    by rewrite (includes_trans s p x Hp Hpx) in Hs.
  - apply split_nonempty, placeholder_nonempty.
Qed.

Lemma render_no_new (template x : str) (vars : list (str * str)) :
  (∀ kv, kv ∈ vars → clash x kv.2 = false) →
  includes template x = false → includes (render template vars) x = false.
Proof.
  revert template. induction vars as [|[k v] vars IH]; intros t Hc Ht; [done|].
  rewrite render_cons. apply IH; [intros kv Hkv; apply Hc; by right|].
  apply substitute_no_new; [|done]. apply (Hc (k, v)). by left.
Qed.

(** X1.  [render] replaces every occurrence of the placeholder of an entry:
    none is left in the result, when neither the value of the entry nor
    the values of the later entries can overlap the placeholder. *)
Theorem render_leaves_no_placeholder (template key value : str)
    (vars1 vars2 : list (str * str)) :
  clash (placeholder key) value = false →
  (∀ kv, kv ∈ vars2 → clash (placeholder key) kv.2 = false) →
  includes (render template (vars1 ++ (key, value) :: vars2)) (placeholder key) = false.
Proof.
  intros Hv Hlater. rewrite render_app, render_cons.
  apply render_no_new; [done|]. by apply substitute_removes.
Qed.


(** Both occurrences of the placeholder of [A] are replaced, and the value
    of [B], which comes later, brings none back. *)
Lemma render_leaves_no_placeholder_witness :
  includes (render "a{{A}}b{{B}}{{A}}" [("A" : str, "x" : str); ("B" : str, "y" : str)])
           (placeholder "A") = false.
Proof.
  apply (render_leaves_no_placeholder "a{{A}}b{{B}}{{A}}" "A" "x" [] [("B" : str, "y" : str)]).
  - reflexivity.
  - intros kv Hkv. apply list_elem_of_singleton in Hkv as ->. reflexivity.
Defined.

End PlaceholderProps.

(** ** The output tree *)

Module OutputProps.
Import JsString RegExp Notions Store Fs Build Layout Placement Verify JsStringFacts MapFacts
  ListFacts BuildFacts FsFacts TreeFacts BuildDone ExpectedFacts RenderProps VerifyProps.

(** *** The copies *)

Lemma foldr_copy_inv (a : str) (l : list (Path * Node)) (t : Tree) (k : Path) (n : Node) :
  foldr (λ e t, <[[a] ++ e.1 := e.2]> t) t l !! k = Some n →
  (∃ e, (e, n) ∈ l ∧ k = a :: e) ∨ t !! k = Some n.
Proof.
  induction l as [|[e' n'] l IH]; [by right|]. cbn [foldr fst snd].
  destruct (decide ([a] ++ e' = k)) as [<-|Hne].
  - rewrite lookup_insert_eq. intros [= <-]. left. exists e'. split; [by left|done].
  - rewrite lookup_insert_ne by done. intros [(e & He & ->)|H]%IH; [|by right].
    left. exists e. split; [by right|done].
Qed.

Lemma copied_files (src : Source) (a : str) (t : Tree) (k : Path) :
  (∀ q n, t !! q = Some n → hd [] q ≠ a) →
  isFile (copied src [a] t) k ∧ hd [] k = a ↔ copiedFile src a k.
Proof.
  intros Ht. unfold copied, copiedFile, isFile.
  destruct src as [|c|entries]; cbn [cpSync default from_option id].
  - split; [|done]. intros [[c Hc] Hk]. by apply Ht in Hc.
  - split.
    + intros [[c' Hc] Hk]. destruct (decide ([a] = k)) as [<-|Hne]; [done|].
      rewrite lookup_insert_ne in Hc by done. by apply Ht in Hc.
    + intros ->. split; [|done]. exists c. apply lookup_insert_eq.
  - split.
    + intros [[c Hc] Hk]. apply foldr_copy_inv in Hc as [(e & He & ->)|Hc].
      * exists e, c. split; [|done]. by apply elem_of_map_to_list in He.
      * destruct (decide ([a] = k)) as [<-|Hne]; [by rewrite lookup_insert_eq in Hc|].
        rewrite lookup_insert_ne in Hc by done. by apply Ht in Hc.
    + intros (e & c & He & ->). split; [|done]. exists c.
      by apply (copied_entry entries a).
Qed.

Section WithSite.
Variable site : Site.
Hypothesis Hplaced : placed site.

Lemma statics_files (k : Path) :
  isFile (statics site) k
  ↔ k = ["favicon.ico" : str] ∨ k = ["robots.txt" : str]
    ∨ copiedFile (assets site) "assets" k
    ∨ copiedFile (d1lhy388c2xgxf site) "d1lhy388c2xgxf" k.
Proof.
  destruct Hplaced as (_ & _ & _ & _ & Hf).
  rewrite <- (copied_files (assets site) "assets" ∅ k) by (intros q n; by rewrite lookup_empty).
  rewrite <- (copied_files (d1lhy388c2xgxf site) "d1lhy388c2xgxf"
                (copied (assets site) ["assets" : str] ∅) k)
    by (intros q n [Hq|Hq]%copied_head; [by rewrite Hq|by rewrite lookup_empty in Hq]).
  unfold statics, isFile.
  destruct (decide (k = ["robots.txt" : str])) as [->|Hr].
  { rewrite lookup_insert_eq. split; [intros _; right; by left|]. intros _. by eexists. }
  rewrite lookup_insert_ne by done.
  destruct (favicon site) as [|c|]; [done| |done]. unfold copied at 1.
  cbn [cpSync default from_option id].
  destruct (decide (k = ["favicon.ico" : str])) as [->|Hfa].
  { rewrite lookup_insert_eq. split; [intros _; by left|]. intros _. by eexists. }
  rewrite lookup_insert_ne by done.
  destruct (decide (hd [] k = "d1lhy388c2xgxf")) as [Hd|Hd].
  { split; [intros H; by right; right; right|].
    intros [?|[?|[[_ Ha]|[H _]]]]; [done|done| |done]. rewrite Hd in Ha. done. }
  assert (∀ P : Prop, P ∧ hd [] k = ("d1lhy388c2xgxf" : str) ↔ False) as Hno by (intros P; tauto).
  rewrite Hno.
  rewrite copied_other by done.
  split.
  - intros [c' Hc]. right; right; left. split; [by exists c'|].
    apply copied_head in Hc as [?|Hc]; [done|]. by rewrite lookup_empty in Hc.
  - intros [?|[?|[[H _]|[]]]]; done.
Qed.

Lemma verifyStatic_expected (outside : list str → option Node) (r : Report) :
  verifyStatic outside (expected site) r = r.
Proof.
  destruct Hplaced as (_ & _ & _ & _ & Hf).
  destruct (favicon site) as [|c|] eqn:Hfav; [done| |done].
  unfold verifyStatic, existsSync.
  rewrite entryAt_index, entryAt_about, entryAt_submit, entryAt_favicon, entryAt_robots.
  rewrite expected_index, expected_about, expected_submit, expected_robots by done.
  by rewrite (expected_favicon site Hplaced c Hfav).
Qed.

End WithSite.

(** X2.  For a site whose pages find their place, [build] ends normally
    and the five files the verifier requires are in the tree it leaves,
    with the content the script gives them: no page of a person or of a
    category takes their place.  The static checks of the verifier do
    not fail on this tree. *)
Theorem build_fixed_files (site : Site) (old : Tree) (outside : list str → option Node) :
  placed site →
  build site old = Done (expected site)
  ∧ expected site !! ["index.html" : str] = Some (File (homepageHtml site))
  ∧ expected site !! ["about" : str; "index.html" : str] = Some (File (aboutHtml site))
  ∧ expected site !! ["submit" : str; "index.html" : str] = Some (File (submitHtml site))
  ∧ (∃ c, favicon site = IsFile c
          ∧ expected site !! ["favicon.ico" : str] = Some (File c))
  ∧ expected site !! ["robots.txt" : str]
    = Some (File ("User-agent: *" ++ nl ++ "Allow: /" ++ nl))
  ∧ ∀ r : Report, verifyStatic outside (expected site) r = r.
Proof.
  intros Hpl. split_and!;
    [by apply build_done|by apply expected_index|by apply expected_about
    |by apply expected_submit| |by apply expected_robots
    |intros r; by apply verifyStatic_expected].
  pose proof Hpl as (_ & _ & _ & _ & Hf).
  destruct (favicon site) as [|c|] eqn:Hfav; [done| |done].
  exists c. split; [done|]. by apply expected_favicon.
Qed.

(** *** The homepage *)

Lemma includes_marker (pre n post : str) :
  includes (pre ++ "id=" ++ dq ++ "post-" ++ n ++ dq ++ post)
           ("id=" ++ dq ++ "post-" ++ n ++ dq) = true.
Proof.
  apply includes_occurs. exists pre, post. f_equal. simpl. by rewrite <- app_assoc.
Qed.

Lemma includes_href (pre s post : str) :
  includes (pre ++ "href=" ++ dq ++ "/" ++ s ++ "/" ++ dq ++ post)
           ("href=" ++ dq ++ "/" ++ s ++ "/" ++ dq) = true.
Proof.
  apply includes_occurs. exists pre, post. f_equal. simpl. by rewrite <- app_assoc.
Qed.

Lemma homepageCard_marker (p : Person) :
  includes (homepageCard p) ("id=" ++ dq ++ "post-" ++ numToString (post_id p) ++ dq) = true.
Proof. unfold homepageCard. apply (includes_marker "  <div "). Qed.

Lemma homepageCard_href (p : Person) :
  includes (homepageCard p) ("href=" ++ dq ++ "/" ++ slug p ++ "/" ++ dq) = true.
Proof.
  unfold homepageCard. do 15 apply includes_app_l. apply (includes_href " ").
Qed.

Lemma homepageHtml_includes_cards (site : Site) :
  includes (homepageTemplate (templates site)) (placeholder "GALLERY_CARDS") = true →
  includes (homepageHtml site) (homepageCardsHtml site) = true.
Proof.
  intros Ht. unfold homepageHtml.
  apply (render_inserts _ "GALLERY_CARDS" _
           [ ("HEAD" : str, _); ("NAV" : str, _); ("FOOTER" : str, _);
             ("SCRIPTS" : str, _); ("CATEGORY_LIST" : str, _) ] []);
    [done| |by intros kv Hkv; apply not_elem_of_nil in Hkv].
  apply Forall_forall. by repeat constructor.
Qed.

Lemma homepageHtml_lists (site : Site) (p : Person) :
  includes (homepageTemplate (templates site)) (placeholder "GALLERY_CARDS") = true →
  p ∈ people site →
  includes (homepageHtml site) ("id=" ++ dq ++ "post-" ++ numToString (post_id p) ++ dq) = true
  ∧ includes (homepageHtml site) ("href=" ++ dq ++ "/" ++ slug p ++ "/" ++ dq) = true.
Proof.
  intros Ht Hp.
  assert (includes (homepageHtml site) (homepageCard p) = true) as Hcard.
  { eapply includes_trans; [by apply homepageHtml_includes_cards|].
    apply includes_join, list_elem_of_fmap. eauto. }
  split; (eapply includes_trans; [exact Hcard|]);
    [apply homepageCard_marker|apply homepageCard_href].
Qed.

Lemma verifyHomepage_pass (people : list Person) (html : str) (r : Report) :
  (∀ p, p ∈ people →
     includes html ("id=" ++ dq ++ "post-" ++ numToString (post_id p) ++ dq) = true
     ∧ includes html ("href=" ++ dq ++ "/" ++ slug p ++ "/" ++ dq) = true) →
  verifyHomepage people html r = r.
Proof.
  unfold verifyHomepage. induction people as [|p people IH]; intros H; [done|].
  cbn [foldl]. destruct (H p) as [-> ->]; [by left|]. cbn [check].
  apply IH. intros q Hq. apply H. by right.
Qed.

(** X3.  For a site whose pages find their place and a homepage
    template with the [GALLERY_CARDS] placeholder, the homepage [build]
    writes has the card marker and the link of every record of the
    store, and the homepage checks of the verifier pass. *)
Theorem homepage_lists_everyone (site : Site) (old : Tree) (r : Report) :
  placed site →
  includes (homepageTemplate (templates site)) (placeholder "GALLERY_CARDS") = true →
  build site old = Done (expected site)
  ∧ expected site !! ["index.html" : str] = Some (File (homepageHtml site))
  ∧ (∀ p, p ∈ people site →
       includes (homepageHtml site) ("id=" ++ dq ++ "post-" ++ numToString (post_id p) ++ dq) = true
       ∧ includes (homepageHtml site) ("href=" ++ dq ++ "/" ++ slug p ++ "/" ++ dq) = true)
  ∧ verifyHomepage (people site) (homepageHtml site) r = r.
Proof.
  intros Hpl Ht.
  split_and!; [by apply build_done|by apply expected_index
              |intros p Hp; by apply homepageHtml_lists|].
  apply verifyHomepage_pass. intros p Hp. by apply homepageHtml_lists.
Qed.

(** *** What is in the tree *)

(** X4.  For a site whose pages find their place, the regular files of
    the tree [build] leaves are the five fixed files, the person pages,
    the category pages and the copies of the regular files of the two
    asset directories, and nothing else: nothing of the tree found at
    the start is left. *)
Theorem build_domain (site : Site) (old : Tree) (k : Path) :
  placed site →
  build site old = Done (expected site)
  ∧ (isFile (expected site) k
     ↔ k ∈ [ ["index.html" : str]; ["about" : str; "index.html" : str];
             ["submit" : str; "index.html" : str]; ["favicon.ico" : str];
             ["robots.txt" : str] ]
       ∨ (∃ p, p ∈ people site ∧ personPath p = Some k)
       ∨ (∃ c, c ∈ categories site ∧ categoryPath c = Some k)
       ∨ copiedFile (assets site) "assets" k
       ∨ copiedFile (d1lhy388c2xgxf site) "d1lhy388c2xgxf" k).
Proof.
  intros Hpl. split; [by apply build_done|].
  pose proof (people_dirs site Hpl) as Hp. rewrite Forall_forall in Hp.
  pose proof (categories_dirs site Hpl) as Hc. rewrite Forall_forall in Hc.
  rewrite (expected_files site Hpl), (statics_files site Hpl).
  rewrite !elem_of_cons, !elem_of_nil. split.
  - intros [[->|[->|[->|[]]]]|[(c & Hin & ->)|[(p & Hin & ->)|[->|[->|[H|H]]]]]]; try tauto.
    + right; right; left. exists c. split; [done|].
      destruct (Hc c Hin) as [Hdir _]. unfold categoryPath. by rewrite Hdir.
    + right; left. exists p. split; [done|].
      destruct (Hp p Hin) as [Hdir _]. unfold personPath. by rewrite Hdir.
  - intros [[->|[->|[->|[->|[->|[]]]]]]|[(p & Hin & Hk)|[(c & Hin & Hk)|[H|H]]]]; try tauto.
    + right; right; left. exists p. split; [done|].
      destruct (Hp p Hin) as [Hdir _]. unfold personPath in Hk. rewrite Hdir in Hk.
      by injection Hk as <-.
    + right; left. exists c. split; [done|].
      destruct (Hc c Hin) as [Hdir _]. unfold categoryPath in Hk. rewrite Hdir in Hk.
      by injection Hk as <-.
Qed.

(** X5.  For a site whose pages find their place, an entry of one of
    the two asset directories is in the output tree under the name of
    its directory, as it is in the source: no page is written over
    it. *)
Theorem build_copies_assets (site : Site) (old : Tree) (a : str) (entries : Tree)
    (e : Path) (n : Node) :
  placed site →
  (a = "assets" ∧ assets site = IsDir entries)
  ∨ (a = "d1lhy388c2xgxf" ∧ d1lhy388c2xgxf site = IsDir entries) →
  entries !! e = Some n →
  build site old = Done (expected site)
  ∧ expected site !! (a :: e) = Some n.
Proof.
  intros Hpl Hsrc He. split; [by apply build_done|].
  destruct Hsrc as [[-> Ha]|[-> Ha]].
  - by apply (expected_asset site Hpl entries).
  - by apply (expected_d1 site Hpl entries).
Qed.

End OutputProps.

(** ** From the store to the report *)

Module PipelineProps.
Import JsString RegExp Notions Store Fs Build Layout Placement Verify JsStringFacts MapFacts
  ListFacts BuildFacts FsFacts TreeFacts BuildDone ExpectedFacts RenderProps VerifyProps
  OutputProps.

Section WithTree.
Variable E : Engine.
Variable outside : list str → option Node.
Variable tree : Tree.

Lemma errors_checkRef (who ref : str) (st : gset str * Report) :
  errors (checkRef outside tree who ref st).2 = errors st.2.
Proof.
  unfold checkRef. destruct (decide _); [done|]. by destruct (Verify.existsSync _ _ _).
Qed.

Lemma errors_verifyRefs (st : gset str * Report) :
  errors (verifyRefs E outside tree st).2 = errors st.2.
Proof.
  unfold verifyRefs. apply (foldl_keeps (λ st, errors st.2)). intros a f.
  apply (foldl_keeps (λ st, errors st.2)). intros b m. apply errors_checkRef.
Qed.

Lemma errors_verifyCss (st st' : gset str * Report) :
  verifyCss E outside tree st = Some st' → errors st'.2 = errors st.2.
Proof.
  unfold verifyCss. destruct (Verify.existsSync _ _ _); [|by intros [= <-]].
  destruct (Verify.readFileSync _ _ _); [|done]. intros [= <-].
  apply (foldl_keeps (λ st, errors st.2)). intros b m. apply errors_checkRef.
Qed.

Lemma verifyCss_reads (st : gset str * Report) :
  entryAt outside tree ["assets" : str; "css" : str; "techies.css" : str] ≠ Some Dir →
  is_Some (verifyCss E outside tree st).
Proof.
  intros Hd. unfold verifyCss, Verify.existsSync, Verify.readFileSync.
  destruct (entryAt outside tree _) as [[css|]|]; [|done|]; cbn [exists_ read]; eauto.
Qed.

Lemma errors_verifyRemnants (r : Report) :
  errors (verifyRemnants tree r) = errors r.
Proof.
  unfold verifyRemnants. apply (foldl_keeps errors). intros a f.
  apply (foldl_keeps errors). intros b w. by destruct (includes _ _).
Qed.

Lemma verifyCategoryHtml_pass (cat : Category) (html : str) (r : Report) :
  (∀ pid, pid ∈ post_ids cat → includes html (cardMarker pid) = true) →
  verifyCategoryHtml cat html r = r.
Proof.
  intros Hall. unfold verifyCategoryHtml. apply foldl_fix. intros pid Hpid a.
  fold (cardMarker pid). by rewrite Hall.
Qed.

Lemma foldl_andThen_fix {A} (f : Report → A → Run) (l : list A) (r : Report) :
  (∀ x r, x ∈ l → f r x = Completed r) →
  foldl (λ run x, andThen run (λ r, f r x)) (Completed r) l = Completed r.
Proof.
  induction l as [|x l IH]; intros Hl; [done|]. cbn [foldl andThen].
  rewrite (Hl x r) by by left. apply IH. intros y r' Hy. apply Hl. by right.
Qed.

(** The sections after the homepage only warn: a run that reads the
    homepage and the style sheet reaches the end, with the errors of the
    first four sections. *)
Lemma verifyRun_after_pages (people : list Person) (categories : list Category)
    (home : str) (r1 r2 : Report) :
  foldl (λ run p, andThen run (λ r, verifyPerson outside tree r p))
        (Completed (log "Checking person pages..."
                      {| errors := 0; warnings := 0; console := [] |})) people
  = Completed r1 →
  foldl (λ run cat, andThen run (λ r, verifyCategory outside tree r cat))
        (Completed (log "Checking category pages..." r1)) categories
  = Completed r2 →
  entryAt outside tree ["index.html" : str] = Some (File home) →
  entryAt outside tree ["assets" : str; "css" : str; "techies.css" : str] ≠ Some Dir →
  ∃ r, verifyRun E outside people categories tree = Completed r
       ∧ errors r
         = errors (verifyHomepage people home
                     (log "Checking homepage completeness..."
                        (verifyStatic outside tree (log "Checking static pages..." r2)))).
Proof.
  intros H1 H2 Hi Hcss. unfold verifyRun. rewrite H1. cbn [andThen]. rewrite H2.
  cbn [andThen]. unfold Verify.readFileSync at 1. rewrite Hi. cbn [read].
  match goal with
  | |- context [verifyCss E outside tree ?st] =>
      destruct (verifyCss_reads st Hcss) as [st' Hst]; rewrite Hst;
      pose proof (errors_verifyCss _ _ Hst) as Hst'
  end.
  eexists. split; [reflexivity|].
  rewrite !errors_log, errors_verifyRemnants, errors_log, Hst'.
  cbn [fst snd]. rewrite errors_log, errors_verifyRefs. cbn [fst snd].
  by rewrite !errors_log.
Qed.

End WithTree.

Section WithSite.
Variable site : Site.

(** The four texts the verifier looks for in a person page are in the
    page the templates give. *)
Lemma personHtml_fields (p : Person) :
  templatesFit (templates site) → personFits p →
  includes (personHtml site p) (name p) = true
  ∧ includes (personHtml site p) (hero_image p) = true
  ∧ includes (personHtml site p) (thumbnail p) = true
  ∧ includes (personHtml site p) (substring (interview_content p) 0 80) = true.
Proof.
  intros (Hn & Hh & Ht & Hc & _) (Un & Uh & Ut).
  split_and!.
  - unfold personHtml, personVars.
    apply (render_inserts _ "NAME" _
             [ ("HEAD" : str, _); ("NAV" : str, _); ("FOOTER" : str, _); ("SCRIPTS" : str, _) ]
             [ ("HERO_IMAGE" : str, _); ("THUMBNAIL" : str, _); ("YEARS_IN_TECH" : str, _);
               ("ROLE" : str, _); ("LOCATION" : str, _); ("INTERVIEW_DATE" : str, _);
               ("ABSTRACT" : str, _); ("PERSONAL_LINKS" : str, _);
               ("INTERVIEW_CONTENT" : str, _) ]); [done| |by apply untouched_vars].
    apply Forall_forall. by repeat constructor.
  - unfold personHtml, personVars.
    apply (render_inserts _ "HERO_IMAGE" _
             [ ("HEAD" : str, _); ("NAV" : str, _); ("FOOTER" : str, _); ("SCRIPTS" : str, _);
               ("NAME" : str, _) ]
             [ ("THUMBNAIL" : str, _); ("YEARS_IN_TECH" : str, _);
               ("ROLE" : str, _); ("LOCATION" : str, _); ("INTERVIEW_DATE" : str, _);
               ("ABSTRACT" : str, _); ("PERSONAL_LINKS" : str, _);
               ("INTERVIEW_CONTENT" : str, _) ]); [done| |by apply untouched_vars].
    apply Forall_forall. by repeat constructor.
  - unfold personHtml, personVars.
    apply (render_inserts _ "THUMBNAIL" _
             [ ("HEAD" : str, _); ("NAV" : str, _); ("FOOTER" : str, _); ("SCRIPTS" : str, _);
               ("NAME" : str, _); ("HERO_IMAGE" : str, _) ]
             [ ("YEARS_IN_TECH" : str, _);
               ("ROLE" : str, _); ("LOCATION" : str, _); ("INTERVIEW_DATE" : str, _);
               ("ABSTRACT" : str, _); ("PERSONAL_LINKS" : str, _);
               ("INTERVIEW_CONTENT" : str, _) ]); [done| |by apply untouched_vars].
    apply Forall_forall. by repeat constructor.
  - eapply includes_trans; [|apply includes_substring].
    unfold personHtml, personVars.
    apply (render_inserts _ "INTERVIEW_CONTENT" _
             [ ("HEAD" : str, _); ("NAV" : str, _); ("FOOTER" : str, _); ("SCRIPTS" : str, _);
               ("NAME" : str, _); ("HERO_IMAGE" : str, _); ("THUMBNAIL" : str, _);
               ("YEARS_IN_TECH" : str, _); ("ROLE" : str, _); ("LOCATION" : str, _);
               ("INTERVIEW_DATE" : str, _); ("ABSTRACT" : str, _);
               ("PERSONAL_LINKS" : str, _) ] []);
      [done| |by intros kv Hkv; apply not_elem_of_nil in Hkv].
    apply Forall_forall. by repeat constructor.
Qed.

Lemma verifyPerson_pass (outside : list str → option Node) (p : Person) (r : Report) :
  consistent site → p ∈ people site →
  verifyPerson outside (expected site) r p = Completed r.
Proof.
  intros (Hpl & Hnd & _ & Hfit & _ & Ht & _) Hp.
  rewrite Forall_forall in Hfit. pose proof (Hfit p Hp) as Hpf.
  destruct (NoDup_fmap_split slug _ p Hnd Hp) as (ps1 & ps2 & Hps & Hlater).
  destruct (personHtml_fields p Ht Hpf) as (In & Ih & Ith & Is).
  assert (personSlug (slug p)) as Hslug.
  { destruct Hpl as (Hpeople & _). rewrite Forall_forall in Hpeople. by apply Hpeople. }
  rewrite (verifyPerson_file _ _ _ (personHtml site p)).
  - f_equal. by apply verifyPersonHtml_pass.
  - rewrite entryAt_person by apply Hslug. by apply (expected_person site Hpl ps1 ps2).
Qed.

Lemma verifyCategory_build_pass (outside : list str → option Node) (cat : Category)
    (r : Report) :
  consistent site → cat ∈ categories site →
  verifyCategory outside (expected site) r cat = Completed r.
Proof.
  intros (Hpl & _ & Hnd & _ & Hres & Ht & _) Hc.
  rewrite Forall_forall in Hres. pose proof (Hres cat Hc) as Hids.
  rewrite Forall_forall in Hids.
  destruct (NoDup_fmap_split cat_slug _ cat Hnd Hc) as (cs1 & cs2 & Hcs & Hlater).
  destruct Ht as (_ & _ & _ & _ & Hg & _).
  assert (pageSlug (cat_slug cat)) as Hslug.
  { destruct Hpl as (_ & Hcats & _). rewrite Forall_forall in Hcats. by apply Hcats. }
  rewrite (verifyCategory_file _ _ _ (categoryHtml site cat)).
  - f_equal. apply verifyCategoryHtml_pass. intros pid Hpid.
    apply (includes_trans _ (cardsHtml site cat)); [by apply categoryHtml_includes_cards|].
    apply cardsHtml_marker; [done|by apply Hids].
  - rewrite entryAt_category by done. by apply (expected_category site Hpl cs1 cs2).
Qed.

Lemma expected_css (outside : list str → option Node) :
  placed site → styleSheet (assets site) →
  entryAt outside (expected site) ["assets" : str; "css" : str; "techies.css" : str]
  ≠ Some Dir.
Proof.
  intros Hpl Hss. unfold entryAt.
  change (pathJoin ["assets" : str; "css" : str; "techies.css" : str])
    with (Some [("assets" : str); ("css" : str); ("techies.css" : str)]).
  cbn [nodeAt]. rewrite (expected_top site Hpl) by by repeat constructor.
  unfold statics. rewrite lookup_insert_ne by done. rewrite !copied_other by done.
  unfold copied. destruct (assets site) as [|c|entries];
    cbn [cpSync default from_option id].
  - by rewrite lookup_empty.
  - by rewrite lookup_insert_ne.
  - intros [(e & He & [= <-])|H]%foldr_copy_inv.
    + apply elem_of_map_to_list in He. done.
    + by rewrite lookup_insert_ne, lookup_empty in H.
Qed.

End WithSite.

(** X6.  For a consistent site, [build] ends normally and the verifier
    run on the tree it leaves reaches the end of the script, counts no
    error and ends with status 0, whatever the engine of regular
    expressions finds, whatever tree [build] found and whatever is
    outside the output directory. *)
Theorem verify_accepts_build (E : Engine) (outside : list str → option Node)
    (site : Site) (old : Tree) :
  consistent site →
  build site old = Done (expected site)
  ∧ (∃ r, verifyRun E outside (people site) (categories site) (expected site) = Completed r
          ∧ errors r = 0)
  ∧ errors (verify E outside (people site) (categories site) (expected site)).1 = 0
  ∧ (verify E outside (people site) (categories site) (expected site)).2 = 0%Z.
Proof.
  intros Hc. pose proof Hc as (Hpl & _ & _ & _ & _ & Ht & Hss).
  destruct (verifyRun_after_pages E outside (expected site) (people site) (categories site)
              (homepageHtml site) _ _
              (foldl_andThen_fix _ _ _ (λ p r Hp, verifyPerson_pass site outside p r Hc Hp))
              (foldl_andThen_fix _ _ _
                 (λ c r Hin, verifyCategory_build_pass site outside c r Hc Hin)))
    as (r & Hr & Herr).
  { rewrite entryAt_index. by apply expected_index. }
  { by apply expected_css. }
  rewrite (verifyStatic_expected site Hpl) in Herr.
  rewrite verifyHomepage_pass in Herr.
  2:{ intros p Hp. apply homepageHtml_lists; [apply Ht|done]. }
  cbn in Herr.
  split; [by apply build_done|]. split; [by exists r|].
  unfold verify. rewrite Hr. cbn [reportOf status fst snd]. split; [done|].
  unfold exitStatus. by rewrite Herr.
Qed.

End PipelineProps.

(** ** What status 0 establishes *)

Module SoundProps.
Import JsString RegExp Notions Store Fs Build Verify Checks JsStringFacts MapFacts ListFacts
  BuildFacts RenderProps VerifyProps PipelineProps.

Lemma check_zero (condition : bool) (msg : str) (r : Report) :
  errors (check condition msg r) = 0 → condition = true ∧ errors r = 0.
Proof. by destruct condition. Qed.

Lemma foldl_zero {A B} (g : A → nat) (P : B → Prop) (f : A → B → A) (l : list B) (a : A) :
  (∀ a x, g (f a x) = 0 → g a = 0 ∧ P x) →
  g (foldl f a l) = 0 → g a = 0 ∧ Forall P l.
Proof.
  intros Hf. revert a. induction l as [|x l IH]; intros a H; [done|].
  simpl in H. apply IH in H as [H Hl]. apply Hf in H as [H Hx]. by split; [|constructor].
Qed.

Lemma andThen_completed (run : Run) (f : Report → Run) (r : Report) :
  andThen run f = Completed r → ∃ r0, run = Completed r0 ∧ f r0 = Completed r.
Proof. destruct run as [r0|r0]; [|done]. intros H. by exists r0. Qed.

Lemma foldl_andThen_zero {A} (P : A → Prop) (f : Report → A → Run) (l : list A)
    (r r' : Report) :
  (∀ r x r', f r x = Completed r' → errors r' = 0 → errors r = 0 ∧ P x) →
  foldl (λ run x, andThen run (λ r, f r x)) (Completed r) l = Completed r' →
  errors r' = 0 → errors r = 0 ∧ Forall P l.
Proof.
  intros Hf. revert r. induction l as [|x l IH]; intros r Hrun H0.
  - injection Hrun as ->. by split.
  - cbn [foldl andThen] in Hrun. destruct (f r x) as [r1|r1] eqn:Hx.
    + destruct (IH r1 Hrun H0) as [H1 Hl]. destruct (Hf r x r1 Hx H1) as [Hr Hpx].
      split; [done|by constructor].
    + by rewrite foldl_andThen_threw in Hrun.
Qed.

Section WithTree.
Variable E : Engine.
Variable outside : list str → option Node.
Variable tree : Tree.

Lemma existsSync_true (parts : list str) :
  Verify.existsSync outside tree parts = true → is_Some (entryAt outside tree parts).
Proof. unfold Verify.existsSync, exists_. apply bool_decide_eq_true_1. Qed.

Lemma verifyPerson_zero (r : Report) (p : Person) (r' : Report) :
  verifyPerson outside tree r p = Completed r' → errors r' = 0 →
  errors r = 0 ∧ personChecked outside tree p.
Proof.
  destruct (entryAt outside tree [slug p; "index.html" : str]) as [[html|]|] eqn:Hp.
  - rewrite (verifyPerson_file _ _ _ html) by done. intros [= <-].
    unfold verifyPersonHtml.
    destruct (Nat.ltb_spec 100 (length (interview_content p))) as [Hlen|Hlen].
    + intros H. repeat (apply check_zero in H as [? H]).
      split; [done|]. exists html. by split_and!.
    + intros H. repeat (apply check_zero in H as [? H]).
      split; [done|]. exists html. split_and!; try done. lia.
  - by rewrite verifyPerson_dir.
  - rewrite verifyPerson_missing by done. by intros [= <-].
Qed.

Lemma verifyCategory_zero (r : Report) (cat : Category) (r' : Report) :
  verifyCategory outside tree r cat = Completed r' → errors r' = 0 →
  errors r = 0 ∧ categoryChecked outside tree cat.
Proof.
  destruct (entryAt outside tree ["category" : str; cat_slug cat; "index.html" : str])
    as [[html|]|] eqn:Hc.
  - rewrite (verifyCategory_file _ _ _ html) by done. intros [= <-].
    unfold verifyCategoryHtml. intros H.
    apply (foldl_zero errors (λ pid, includes html (cardMarker pid) = true)) in H as [H Hall].
    + split; [done|]. exists html. split; [done|]. by apply Forall_forall.
    + intros a pid Ha. apply check_zero in Ha as [? ?]. by split.
  - by rewrite verifyCategory_dir.
  - rewrite verifyCategory_missing by done. by intros [= <-].
Qed.

Lemma verifyStatic_zero (r : Report) :
  errors (verifyStatic outside tree r) = 0 →
  errors r = 0
  ∧ Forall (λ parts, is_Some (entryAt outside tree parts))
      [ ["index.html" : str]; ["about" : str; "index.html" : str];
        ["submit" : str; "index.html" : str]; ["favicon.ico" : str];
        ["robots.txt" : str] ].
Proof.
  unfold verifyStatic. intros H. repeat (apply check_zero in H as [?%existsSync_true H]).
  split; [done|]. by repeat constructor.
Qed.

Lemma verifyHomepage_zero (people : list Person) (home : str) (r : Report) :
  errors (verifyHomepage people home r) = 0 →
  errors r = 0
  ∧ Forall (λ p, includes home (cardMarker (post_id p)) = true
                 ∧ includes home ("href=" ++ dq ++ "/" ++ slug p ++ "/" ++ dq) = true) people.
Proof.
  unfold verifyHomepage. apply foldl_zero. intros a p H.
  repeat (apply check_zero in H as [? H]). by split.
Qed.

(** A run that reaches the end has read the pages, the homepage and the
    style sheet. *)
Lemma verifyRun_completed (people : list Person) (categories : list Category) (r : Report) :
  verifyRun E outside people categories tree = Completed r →
  ∃ r1 r2 home,
    foldl (λ run p, andThen run (λ r, verifyPerson outside tree r p))
          (Completed (log "Checking person pages..."
                        {| errors := 0; warnings := 0; console := [] |})) people
    = Completed r1
    ∧ foldl (λ run cat, andThen run (λ r, verifyCategory outside tree r cat))
            (Completed (log "Checking category pages..." r1)) categories
      = Completed r2
    ∧ entryAt outside tree ["index.html" : str] = Some (File home)
    ∧ entryAt outside tree ["assets" : str; "css" : str; "techies.css" : str] ≠ Some Dir.
Proof.
  unfold verifyRun. intros (r1 & H1 & H)%andThen_completed.
  apply andThen_completed in H as (r2 & H2 & H).
  exists r1, r2. unfold Verify.readFileSync at 1 in H.
  destruct (entryAt outside tree ["index.html" : str]) as [[home|]|] eqn:Hi; [|done|done].
  exists home. split_and!; [done|done|done|]. cbn [read] in H.
  unfold verifyCss, Verify.existsSync, Verify.readFileSync in H. intros Hd.
  rewrite Hd in H. done.
Qed.

End WithTree.

(** X7.  The verifier is sound: when it ends with status 0, the run has
    reached the end of the script, every person page and every category
    page is a regular file of the tree and holds what the checks look
    for, the five fixed files are in the tree, and the homepage has the
    card marker and the link of every record. *)
Theorem verify_status_zero_is_sound (E : Engine) (outside : list str → option Node)
    (people : list Person) (categories : list Category) (tree : Tree) :
  (verify E outside people categories tree).2 = 0%Z →
  (∃ r, verifyRun E outside people categories tree = Completed r ∧ errors r = 0)
  ∧ Forall (personChecked outside tree) people
  ∧ Forall (categoryChecked outside tree) categories
  ∧ Forall (λ parts, is_Some (entryAt outside tree parts))
      [ ["index.html" : str]; ["about" : str; "index.html" : str];
        ["submit" : str; "index.html" : str]; ["favicon.ico" : str];
        ["robots.txt" : str] ]
  ∧ ∃ home, entryAt outside tree ["index.html" : str] = Some (File home)
      ∧ Forall (λ p, includes home (cardMarker (post_id p)) = true
                     ∧ includes home ("href=" ++ dq ++ "/" ++ slug p ++ "/" ++ dq) = true)
               people.
Proof.
  unfold verify. cbn [snd]. intros Hstatus.
  destruct (verifyRun E outside people categories tree) as [r|r] eqn:Hrun; [|done].
  cbn [status] in Hstatus.
  assert (errors r = 0) as H.
  { destruct (decide (0 < errors r)) as [Hpos|]; [|lia]. by apply exitStatus_pos in Hpos. }
  destruct (verifyRun_completed E outside tree people categories r Hrun)
    as (r1 & r2 & home & H1 & H2 & Hi & Hcss).
  destruct (verifyRun_after_pages E outside tree people categories home r1 r2 H1 H2 Hi Hcss)
    as (r' & Hr' & Herr).
  rewrite Hrun in Hr'. injection Hr' as <-. pose proof H as H0. rewrite Herr in H.
  apply verifyHomepage_zero in H as [H Hhp]. rewrite errors_log in H.
  apply verifyStatic_zero in H as [H Hst]. rewrite errors_log in H.
  apply (foldl_andThen_zero (categoryChecked outside tree) _ _ _ _
           (verifyCategory_zero outside tree) H2) in H as [H Hcs].
  rewrite errors_log in H.
  apply (foldl_andThen_zero (personChecked outside tree) _ _ _ _
           (verifyPerson_zero outside tree) H1) in H as [_ Hps].
  split_and!; try done; [by exists r|by exists home].
Qed.

End SoundProps.

(** ** Plain objects *)

Module ObjectFacts.
Import JsString MapFacts.

(** A dictionary filled by assignments holds, at a key that is not
    [__proto__], the value of the last assignment to it. *)
Lemma foldl_set_last {A} (key val : A → str) (l : list A) (m : gmap str str) (k : str) :
  k ≠ ("__proto__" : str) →
  foldl (λ m x, JsObject.set m (key x) (val x)) m l !! k
  = match last (filter (λ x, key x = k) l) with
    | Some x => Some (val x)
    | None => m !! k
    end.
Proof.
  intros Hk. induction l as [|x l IH] using rev_ind; [done|].
  rewrite foldl_app, filter_app. simpl. unfold JsObject.set at 1.
  destruct (decide (key x = k)) as [<-|Hne].
  - rewrite decide_False by done. rewrite lookup_insert_eq.
    rewrite filter_cons_True by done. by rewrite filter_nil, last_snoc.
  - rewrite filter_cons_False by done. rewrite filter_nil, app_nil_r.
    destruct (decide (key x = ("__proto__" : str))); [done|].
    by rewrite lookup_insert_ne.
Qed.

(** The assignments to [__proto__] leave no property. *)
Lemma foldl_set_proto {A} (key val : A → str) (l : list A) (m : gmap str str) :
  m !! ("__proto__" : str) = None →
  foldl (λ m x, JsObject.set m (key x) (val x)) m l !! ("__proto__" : str) = None.
Proof.
  intros Hm. induction l as [|x l IH] using rev_ind; [done|].
  rewrite foldl_app. simpl. unfold JsObject.set at 1.
  destruct (decide (key x = ("__proto__" : str))); [done|].
  by rewrite lookup_insert_ne.
Qed.

End ObjectFacts.

(** ** More on the extractor: titles, blocks, abstract and interview *)

Module PersonPageProps.
Import JsString RegExp Notions Store Extract Markers JsStringFacts MapFacts ListFacts ExtractProps
  ObjectFacts.

(** *** The listing decides the title *)

Lemma titleBySlug_lookup (entries : list Entry) (s : str) :
  s ≠ ("__proto__" : str) →
  titleBySlug entries !! s
  = entry_title <$> last (filter (λ e, entry_slug e = s) entries).
Proof.
  intros Hs. unfold titleBySlug. rewrite (foldl_set_last entry_slug entry_title) by done.
  by destruct (last _).
Qed.

Lemma titleOf_entry (entries : list Entry) (entry : Entry) :
  entry ∈ entries →
  if decide (entry_slug entry = ("__proto__" : str))
  then titleOf (titleBySlug entries) (entry_slug entry) = EmptyObject
  else ∃ card, last (filter (λ e, entry_slug e = entry_slug entry) entries) = Some card
               ∧ titleOf (titleBySlug entries) (entry_slug entry) = Text (entry_title card).
Proof.
  intros Hin. unfold titleOf, JsObject.get.
  destruct (decide (entry_slug entry = ("__proto__" : str))) as [Hp|Hp]; [done|].
  rewrite titleBySlug_lookup by done.
  destruct (last (filter (λ e, entry_slug e = entry_slug entry) entries)) as [card|] eqn:El;
    [by exists card|].
  apply last_None in El.
  assert (entry ∈ filter (λ e, entry_slug e = entry_slug entry) entries) as Hf
    by by apply list_elem_of_filter.
  rewrite El in Hf. by apply not_elem_of_nil in Hf.
Qed.

(** X8.  The title of a record is the title of the last card of the
    listing that has its slug, which is the card of the record itself
    when no two cards share a slug.  The slug [__proto__] is the
    exception: the assignment to the dictionary leaves no property, the
    lookup gives the prototype of the dictionary, and the title written
    to the store is an empty object. *)
Theorem title_comes_from_last_card (E : Engine) (fs : gmap str str) (home : str) :
  fs !! ("index.html" : str) = Some home →
  ∃ entries run,
    parseHomepage E fs = Some entries ∧ main E fs = Some run
    ∧ Forall2 (λ entry person,
                 if decide (entry_slug entry = ("__proto__" : str))
                 then title person = EmptyObject
                 else ∃ card,
                        last (filter (λ e, entry_slug e = entry_slug entry) entries) = Some card
                        ∧ title person = Text (entry_title card))
              (filter (hasDocument fs) entries) (people run)
    ∧ (NoDup (entry_slug <$> entries) →
       (∀ entry, entry ∈ entries → entry_slug entry ≠ ("__proto__" : str)) →
       title <$> people run = (λ entry, Text (entry_title entry)) <$> filter (hasDocument fs) entries).
Proof.
  intros Hhome. destruct (main_runs E fs home Hhome) as (entries & run & He & Hm & Hp & _).
  exists entries, run. rewrite Hp.
  assert (Forall2 (λ entry person,
                 entry ∈ entries
                 ∧ if decide (entry_slug entry = ("__proto__" : str))
                   then title person = EmptyObject
                   else ∃ card,
                          last (filter (λ e, entry_slug e = entry_slug entry) entries) = Some card
                          ∧ title person = Text (entry_title card))
              (filter (hasDocument fs) entries)
              (omap (personOfEntry E fs (titleBySlug entries)) entries)) as Hall.
  { eapply Forall2_impl; [apply Forall2_elem, loop_correspondence|].
    intros entry person (Hin & html & _ & ->). cbn [title merge].
    apply list_elem_of_filter in Hin as [_ Hin]. split; [done|].
    by apply titleOf_entry. }
  split_and!; [done|done| |].
  - eapply Forall2_impl; [exact Hall|]. by intros entry person [_ H].
  - intros Hnd Hproto.
    apply Forall2_fmap_eq. eapply Forall2_impl; [exact Hall|].
    intros entry person (Hin & H).
    rewrite decide_False in H by by apply Hproto.
    destruct H as (card & Hl & ->).
    rewrite (filter_key_unique entry_slug entries entry Hnd Hin) in Hl. by injection Hl as ->.
Qed.

Lemma title_comes_from_last_card_witness :
  ∃ entries run,
    parseHomepage backtracking Scenario.files = Some entries
    ∧ main backtracking Scenario.files = Some run
    ∧ Forall2 (λ entry person,
                 if decide (entry_slug entry = ("__proto__" : str))
                 then title person = EmptyObject
                 else ∃ card,
                        last (filter (λ e, entry_slug e = entry_slug entry) entries) = Some card
                        ∧ title person = Text (entry_title card))
              (filter (hasDocument Scenario.files) entries) (people run)
    ∧ (NoDup (entry_slug <$> entries) →
       (∀ entry, entry ∈ entries → entry_slug entry ≠ ("__proto__" : str)) →
       title <$> people run
       = (λ entry, Text (entry_title entry)) <$> filter (hasDocument Scenario.files) entries).
Proof.
  apply (title_comes_from_last_card backtracking Scenario.files Scenario.listing).
  reflexivity.
Defined.

(** *** [extractBetween] on a text that wraps a block in the markers *)

Lemma find_at (a m r : str) : meets a m = false → find m (a ++ m ++ r) = Some (length a).
Proof.
  intros Hm. destruct (find_occurs m a r) as [i Hi]. rewrite Hi. f_equal.
  pose proof (find_first _ _ _ a r Hi eq_refl) as Hle.
  destruct (decide (i = length a)) as [|Hne]; [done|]. exfalso.
  assert (i < length a) as Hlt by lia.
  apply find_Some in Hi.
  assert (meets a m = true); [|congruence].
  apply (meets_drop _ _ i); [done|].
  apply (f_equal (drop i)) in Hi. rewrite drop_app_le in Hi by lia.
  rewrite drop_app_length' in Hi by (rewrite length_take, length_app; lia).
  by apply (compat_common _ _ (m ++ r) (drop (i + length m) (a ++ m ++ r))).
Qed.

(** X9.  Round trip: a block wrapped in the two markers is what
    [extractBetween] returns, when the start marker cannot begin inside
    the text before it and the end marker cannot begin inside the block. *)
Theorem extractBetween_returns_wrapped_block (before startMarker block endMarker after : str) :
  meets before startMarker = false →
  meets block endMarker = false →
  extractBetween (before ++ startMarker ++ block ++ endMarker ++ after) startMarker endMarker
  = block.
Proof.
  intros Hs He.
  rewrite (extractBetween_start _ _ _ (length before)) by by apply find_at.
  rewrite (app_assoc before), <- length_app, drop_app_length.
  rewrite find_at by done. by rewrite take_app_length.
Qed.

Lemma extractBetween_returns_wrapped_block_witness :
  extractBetween ("<ul>" ++ "<li class=years>" ++ "12" ++ "</li>" ++ "</ul>")
                 "<li class=years>" "</li>" = "12".
Proof.
  apply (extractBetween_returns_wrapped_block "<ul>" "<li class=years>" "12" "</li>" "</ul>");
    reflexivity.
Defined.

(** *** The abstract and the interview *)

Lemma substring_swapped (s : str) (a : nat) :
  a ≤ length s → substring s (Z.of_nat a) (-1) = take a s.
Proof.
  intros Ha. unfold substring. rewrite clamp_nat by done.
  assert (clamp s (-1) = 0) as -> by (unfold clamp; lia).
  rewrite Nat.min_0_r, Nat.max_0_r. simpl. f_equal. lia.
Qed.

(** X10.  The abstract of a page that has the marker: the text up to the
    markup that closes the column; without that markup, the text up to
    the next closing div; and with no closing div either, the two
    arguments of [substring] are swapped and the result is the page from
    its start to the end of the marker.  Each is trimmed. *)
Theorem abstract_of_marked_page (html : str) (i : nat) :
  find abstractMarker html = Some i →
  parseAbstract html
  = JsString.trim
      match find abstractClosing (drop (i + length abstractMarker) html) with
      | Some j => take j (drop (i + length abstractMarker) html)
      | None =>
          match find "</div>" (drop (i + length abstractMarker) html) with
          | Some j => take j (drop (i + length abstractMarker) html)
          | None => take (i + length abstractMarker) html
          end
      end.
Proof.
  intros Hf. pose proof (find_bound _ _ _ Hf) as Hb.
  unfold parseAbstract. cbv zeta. fold abstractMarker abstractClosing.
  rewrite indexOf_zero, Hf. rewrite decide_False by lia. rewrite <- Nat2Z.inj_add.
  destruct (find abstractClosing (drop (i + length abstractMarker) html)) as [j|] eqn:Hc.
  - pose proof (find_bound _ _ _ Hc) as Hb'. rewrite length_drop in Hb'.
    rewrite (indexOf_found _ _ _ j) by (done || lia).
    rewrite decide_False by lia. rewrite substring_nat by lia. do 2 f_equal. lia.
  - rewrite (indexOf_missing _ abstractClosing) by (done || lia). rewrite decide_True by done.
    destruct (find "</div>" (drop (i + length abstractMarker) html)) as [j|] eqn:Hd.
    + pose proof (find_bound _ _ _ Hd) as Hb'. rewrite length_drop in Hb'.
      rewrite (indexOf_found _ _ _ j) by (done || lia).
      rewrite substring_nat by lia. do 2 f_equal. lia.
    + rewrite indexOf_missing by (done || lia). by rewrite substring_swapped.
Qed.

Lemma abstract_of_marked_page_witness :
  parseAbstract ("<body> " ++ abstractMarker ++ "<p>An engineer.</p>")
  = "<body> " ++ abstractMarker.
Proof.
  etrans; [apply (abstract_of_marked_page _ 7); reflexivity|]. reflexivity.
Defined.

(** X11.  The interview is the block [extractBetween] finds between its two
    markers, trimmed: there is no fallback as for the abstract, so it is
    empty when one of the markers is missing. *)
Theorem interview_is_trimmed_block (html : str) :
  parseInterview html = JsString.trim (extractBetween html postMarker postClosing)
  ∧ (includes html postMarker = false → parseInterview html = [])
  ∧ (∀ i, find postMarker html = Some i →
       includes (drop (i + length postMarker) html) postClosing = false →
       parseInterview html = []).
Proof.
  assert (parseInterview html = JsString.trim (extractBetween html postMarker postClosing)) as H.
  { unfold parseInterview, extractBetween. cbv zeta. fold postMarker postClosing.
    by repeat destruct (decide _). }
  split_and!; [done| |].
  - intros Hn. apply find_None_includes in Hn. by rewrite H, extractBetween_no_start.
  - intros i Hi Hn. apply find_None_includes in Hn.
    by rewrite H, (extractBetween_start _ _ _ i), Hn.
Qed.

(** A page with the two markers, and a page without them. *)
Lemma interview_is_trimmed_block_witness :
  parseInterview ("<body>" ++ postMarker ++ " <p>Hello</p> " ++ postClosing ++ "</body>")
  = "<p>Hello</p>"
  ∧ parseInterview "<body></body>" = [].
Proof.
  split.
  - etrans; [apply (proj1 (interview_is_trimmed_block _))|reflexivity].
  - apply (proj1 (proj2 (interview_is_trimmed_block _))). reflexivity.
Defined.

(** A listing with the slugs [__proto__] and [constructor]: the title
    of the first is the prototype of the dictionary, the title of the
    second its own card's, the assignment having made the name an own
    property. *)
Example titles_of_inherited_names :
  ((λ run, (λ p, (slug p, title p)) <$> people run)
     <$> main backtracking
           {[ ("index.html" : str)
                := ("<html><body>" ++ Scenario.listingCard "5" "__proto__" "Proto" "Keeper"
                    ++ Scenario.listingCard "6" "constructor" "Con" "Maker"
                    ++ "</body></html>" : str);
              ("__proto__/index.html" : str) := Scenario.personDocument "" "Proto";
              ("constructor/index.html" : str) := Scenario.personDocument "" "Con" ]})
  = Some [ ("__proto__" : str, EmptyObject); ("constructor" : str, Text "Maker") ].
Proof. by vm_compute. Qed.

End PersonPageProps.

(** ** White space at the ends of the extracted fields *)

Module TrimProps.
Import JsString RegExp Notions Store Extract Markers JsStringFacts MapFacts ListFacts ExtractProps.

Lemma trimStart_suffix (s : str) : ∃ w, s = w ++ trimStart s.
Proof.
  induction s as [|c s [w IH]]; [by exists []|]. simpl. destruct (isSpace c).
  - exists (c :: w). simpl. by rewrite <- IH.
  - by exists [].
Qed.

Lemma trimStart_head (s : str) c r : trimStart s = c :: r → isSpace c = false.
Proof.
  induction s as [|d s IH]; [done|]. simpl. destruct (isSpace d) eqn:Hd; [done|].
  by intros [= <- _].
Qed.

Lemma trimStart_fixed (s : str) : (∀ c r, s = c :: r → isSpace c = false) → trimStart s = s.
Proof. destruct s as [|c s]; [done|]. intros H. simpl. by rewrite (H c s). Qed.

Lemma trimStart_idemp (s : str) : trimStart (trimStart s) = trimStart s.
Proof. apply trimStart_fixed. intros c r. apply trimStart_head. Qed.

(** The result of [trim] has no white space at its start nor at its end. *)
Lemma trim_ends (s : str) :
  trimStart (JsString.trim s) = JsString.trim s
  ∧ trimStart (rev (JsString.trim s)) = rev (JsString.trim s).
Proof.
  unfold JsString.trim. rewrite rev_involutive. split; [|apply trimStart_idemp].
  destruct (trimStart_suffix (rev (trimStart s))) as [w Hw].
  set (u := trimStart (rev (trimStart s))) in *.
  apply (f_equal (@rev ascii)) in Hw. rewrite rev_involutive, rev_app_distr in Hw.
  apply trimStart_fixed. intros c r Hc. rewrite Hc in Hw. simpl in Hw.
  by apply (trimStart_head s c (r ++ rev w)).
Qed.

Lemma trim_idemp (s : str) : JsString.trim (JsString.trim s) = JsString.trim s.
Proof.
  destruct (trim_ends s) as [H1 H2]. unfold JsString.trim at 1.
  by rewrite H1, H2, rev_involutive.
Qed.

Lemma trim_nil : JsString.trim [] = [].
Proof. done. Qed.

Lemma parseAbstract_trimmed (html : str) :
  JsString.trim (parseAbstract html) = parseAbstract html.
Proof.
  unfold parseAbstract. cbv zeta. repeat destruct (decide _); (done || apply trim_idemp).
Qed.

Lemma parseInterview_trimmed (html : str) :
  JsString.trim (parseInterview html) = parseInterview html.
Proof.
  unfold parseInterview. cbv zeta. repeat destruct (decide _); (done || apply trim_idemp).
Qed.

(** X12.  No text field that [parsePersonPage] trims, nor the title and the
    name of a card of the listing, starts or ends with white space: [trim]
    leaves each of them as it is. *)
Theorem extracted_fields_are_trimmed (E : Engine) (fs : gmap str str) (slug html : str) :
  Forall (λ field, JsString.trim field = field
                   ∧ trimStart field = field ∧ trimStart (rev field) = rev field)
    [ name (personOfPage E slug html); years_in_tech (personOfPage E slug html);
      role (personOfPage E slug html); location (personOfPage E slug html);
      interview_date (personOfPage E slug html); abstract (personOfPage E slug html);
      interview_content (personOfPage E slug html) ]
  ∧ (∀ entries, parseHomepage E fs = Some entries →
       Forall (λ entry, JsString.trim (entry_name entry) = entry_name entry
                        ∧ JsString.trim (entry_title entry) = entry_title entry) entries).
Proof.
  assert (∀ f, JsString.trim f = f →
            JsString.trim f = f ∧ trimStart f = f ∧ trimStart (rev f) = rev f) as Hends.
  { intros f Hf. split; [done|]. rewrite <- Hf. apply trim_ends. }
  split.
  - cbn [name years_in_tech role location interview_date abstract interview_content personOfPage].
    repeat (apply Forall_cons_2;
              [apply Hends;
               first [apply trim_idemp|apply parseAbstract_trimmed|apply parseInterview_trimmed]|]).
    apply Forall_nil_2.
  - intros entries. unfold parseHomepage, readFile. destruct (fs !! _) as [home|]; [|done].
    csimpl. intros [= <-]. apply Forall_fmap, Forall_forall. intros m _. simpl.
    split; apply trim_idemp.
Qed.

End TrimProps.

(** ** The categories of the extractor *)

Module CategoryProps.
Import JsString RegExp Notions Store Extract ExtractCategories JsStringFacts MapFacts
  ObjectFacts.

Section WithRuntime.
Variable E : Engine.
Variable fs : gmap str str.
Variable categoryDir : option (list (str * bool)).
Variable localeCompare : str → str → Z.

Lemma insertBySlug_Permutation (cat : Category) (l : list Category) :
  insertBySlug localeCompare cat l ≡ₚ cat :: l.
Proof.
  induction l as [|c l IH]; [done|]. simpl. destruct (decide _); [done|].
  rewrite IH. apply Permutation_swap.
Qed.

Lemma sortBySlug_Permutation (l : list Category) : sortBySlug localeCompare l ≡ₚ l.
Proof.
  unfold sortBySlug. rewrite <- (app_nil_l l) at 2. generalize (@nil Category) as acc.
  induction l as [|c l IH]; intros acc; [by rewrite app_nil_r|].
  cbn [foldl]. rewrite IH, insertBySlug_Permutation. simpl. apply Permutation_middle.
Qed.

Lemma slugs_elem (s : str) :
  s ∈ slugs categoryDir
  ↔ s ≠ "feed" ∧ ∃ names, categoryDir = Some names ∧ (s, true) ∈ names.
Proof.
  unfold slugs. destruct categoryDir as [names|].
  - rewrite list_elem_of_fmap. split.
    + intros ([s' b] & -> & Hin). apply list_elem_of_filter in Hin as [[Hb Hf] Hin].
      simpl in *. subst b. eauto.
    + intros (Hf & names' & [= <-] & Hin). exists (s, true). split; [done|].
      by apply list_elem_of_filter.
  - split; [by intros ?%not_elem_of_nil|]. by intros (_ & names & ? & _).
Qed.

Lemma parseCategory_slug (s : str) (c : Category) :
  parseCategory E fs s = Some c →
  cat_slug c = s
  ∧ ∃ html, fs !! ("category/" ++ s ++ "/index.html") = Some html
      ∧ display_name c = Text (if decide (extractMatch E html feedTitleRegex = []) then s
                                else extractMatch E html feedTitleRegex)
      ∧ post_ids c = (λ m, numOr (parseInt (group m 1)) 0) <$> execAll E postIdRegex html.
Proof.
  unfold parseCategory. destruct (fs !! _) as [html|]; [|done]. csimpl.
  intros [= <-]. eauto.
Qed.

Lemma parseCategories_elem (c : Category) :
  c ∈ parseCategories E fs categoryDir localeCompare
  ↔ ∃ s, s ∈ slugs categoryDir ∧ parseCategory E fs s = Some c.
Proof.
  unfold parseCategories. rewrite sortBySlug_Permutation. apply list_elem_of_omap.
Qed.

(** The sort, for a consistent comparator. *)
Hypothesis sign : ∀ a b, (localeCompare a b < 0 ↔ 0 < localeCompare b a)%Z.
Hypothesis trans : ∀ a b c,
  (localeCompare a b ≤ 0 → localeCompare b c ≤ 0 → localeCompare a c ≤ 0)%Z.

Lemma insertBySlug_sorted (cat : Category) (l : list Category) :
  StronglySorted (bySlug localeCompare) l →
  StronglySorted (bySlug localeCompare) (insertBySlug localeCompare cat l).
Proof.
  induction 1 as [|c l Hs IH Hall]; simpl; [repeat constructor|].
  destruct (decide _) as [Hlt|Hge].
  - constructor; [by constructor|]. constructor; [unfold bySlug; lia|].
    eapply Forall_impl; [exact Hall|]. intros d Hd. unfold bySlug in *.
    apply (trans _ (cat_slug c)); [lia|done].
  - constructor; [done|]. rewrite insertBySlug_Permutation. constructor; [|done].
    unfold bySlug. destruct (Z.le_gt_cases (localeCompare (cat_slug c) (cat_slug cat)) 0) as [|Hgt];
      [done|]. apply Z.gt_lt_iff, Z.gt_lt, sign in Hgt. lia.
Qed.

Lemma sortBySlug_sorted (l : list Category) :
  StronglySorted (bySlug localeCompare) (sortBySlug localeCompare l).
Proof.
  unfold sortBySlug. assert (StronglySorted (bySlug localeCompare) []) as H by constructor.
  revert H. generalize (@nil Category) as acc.
  induction l as [|c l IH]; intros acc Hacc; [done|].
  cbn [foldl]. by apply IH, insertBySlug_sorted.
Qed.

End WithRuntime.

Lemma omap_parseCategory_slugs (E : Engine) (fs : gmap str str) (l : list str) :
  cat_slug <$> omap (parseCategory E fs) l
  = filter (λ s, is_Some (fs !! ("category/" ++ s ++ "/index.html"))) l.
Proof.
  induction l as [|s l IH]; [done|].
  replace (omap (parseCategory E fs) (s :: l))
    with (option_list (parseCategory E fs s) ++ omap (parseCategory E fs) l)
    by (csimpl; by destruct (parseCategory E fs s)).
  rewrite fmap_app, IH.
  destruct (parseCategory E fs s) as [c|] eqn:Hc.
  - apply parseCategory_slug in Hc as (Hs & html & Hp & _).
    rewrite filter_cons_True by (cbv beta; rewrite Hp; eauto).
    rewrite <- Hs. reflexivity.
  - unfold parseCategory in Hc.
    destruct (fs !! ("category/" ++ s ++ "/index.html")) as [html|] eqn:Hp; [done|].
    rewrite filter_cons_False; [done|]. cbv beta. rewrite Hp. by intros [? ?].
Qed.

Lemma updateDisplayName_slug (names : gmap str str) (c : Category) :
  cat_slug (updateDisplayName names c) = cat_slug c.
Proof.
  unfold updateDisplayName. destruct (JsObject.get _ _) as [[n| |]|]; [|done..].
  by destruct (decide _).
Qed.

(** X13.  The categories are those of the names [readdirSync] lists that are
    directories, are not [feed] and hold an [index.html]: each of them
    once, whatever the order of the listing; without the directory
    [category] there is none. *)
Theorem categories_are_directories_with_page (E : Engine) (fs : gmap str str)
    (categoryDir : option (list (str * bool))) (localeCompare : str → str → Z) :
  cat_slug <$> parseCategories E fs categoryDir localeCompare
  ≡ₚ filter (λ s, is_Some (fs !! ("category/" ++ s ++ "/index.html"))) (slugs categoryDir)
  ∧ (∀ c, c ∈ parseCategories E fs categoryDir localeCompare →
       cat_slug c ≠ "feed"
       ∧ (∃ names, categoryDir = Some names ∧ (cat_slug c, true) ∈ names)
       ∧ is_Some (fs !! ("category/" ++ cat_slug c ++ "/index.html")))
  ∧ (categoryDir = None → parseCategories E fs categoryDir localeCompare = []).
Proof.
  split_and!.
  - unfold parseCategories. rewrite sortBySlug_Permutation.
    by rewrite omap_parseCategory_slugs.
  - intros c Hc. apply parseCategories_elem in Hc as (s & Hs & Hc).
    apply parseCategory_slug in Hc as (-> & html & Hp & _).
    apply slugs_elem in Hs as [Hf Hn]. rewrite Hp. eauto.
  - by intros ->.
Qed.

(** X14.  For a comparator that is consistent, the categories the script
    writes are in the order of their slugs; the update of the display
    names keeps the slugs and the order. *)
Theorem categories_sorted_by_slug (E : Engine) (fs : gmap str str)
    (categoryDir : option (list (str * bool))) (localeCompare : str → str → Z) (home : str) :
  (∀ a b, (localeCompare a b < 0 ↔ 0 < localeCompare b a)%Z) →
  (∀ a b c, (localeCompare a b ≤ 0 → localeCompare b c ≤ 0 → localeCompare a c ≤ 0)%Z) →
  fs !! ("index.html" : str) = Some home →
  ∃ cs, categories E fs categoryDir localeCompare = Some cs
    ∧ cat_slug <$> cs = cat_slug <$> parseCategories E fs categoryDir localeCompare
    ∧ StronglySorted (λ a b, (localeCompare a b ≤ 0)%Z) (cat_slug <$> cs).
Proof.
  intros Hsign Htrans Hhome. unfold categories, readFile. rewrite Hhome. csimpl.
  eexists. split; [reflexivity|].
  assert (∀ names (l : list Category),
            cat_slug <$> (updateDisplayName names <$> l) = cat_slug <$> l) as Hkeep.
  { intros names l. rewrite <- list_fmap_compose. apply list_fmap_ext.
    intros i c _. apply updateDisplayName_slug. }
  split; [apply Hkeep|]. rewrite Hkeep. unfold parseCategories.
  pose proof (sortBySlug_sorted localeCompare Hsign Htrans (omap (parseCategory E fs) (slugs categoryDir)))
    as Hs.
  induction Hs as [|c l Hs IH Hall]; csimpl; constructor; [done|].
  apply Forall_fmap. done.
Qed.

(** X15.  The display name of a category, as it is written to
    [categories.json]: the name the last item of the filter bar with its
    slug gives it; without such an item, or with an empty name, the
    title of its feed when the page has one that is not empty, or else
    its slug.  The dictionary of the names being a plain object, two
    kinds of slug are exceptions: for [__proto__] the name is the
    prototype of the dictionary, written as an empty object; for the
    name of a function every object inherits, and no item of the filter
    bar, the name is that function, which is not written at all.  For
    any other slug that is not empty, the name is a text that is not
    empty. *)
Theorem display_name_priority (E : Engine) (fs : gmap str str)
    (categoryDir : option (list (str * bool))) (localeCompare : str → str → Z) (home : str) :
  fs !! ("index.html" : str) = Some home →
  ∃ cs, categories E fs categoryDir localeCompare = Some cs
    ∧ Forall (λ c,
        ∃ html, fs !! ("category/" ++ cat_slug c ++ "/index.html") = Some html
          ∧ display_name c
            = (let fromFeed := Text (if decide (extractMatch E html feedTitleRegex = [])
                                     then cat_slug c
                                     else extractMatch E html feedTitleRegex) in
               if decide (cat_slug c = ("__proto__" : str)) then EmptyObject
               else match last (filter (λ m, group m 1 = cat_slug c)
                                       (execAll E catNameRegex home)) with
                    | Some m => if decide (group m 2 = []) then fromFeed else Text (group m 2)
                    | None => if decide (cat_slug c ∈ JsObject.inherited) then Absent
                              else fromFeed
                    end)
          ∧ (cat_slug c ≠ [] → cat_slug c ≠ ("__proto__" : str) →
             cat_slug c ∉ JsObject.inherited →
             ∃ n, display_name c = Text n ∧ n ≠ [])) cs.
Proof.
  intros Hhome. unfold categories, readFile. rewrite Hhome. csimpl.
  eexists. split; [reflexivity|]. apply Forall_fmap, Forall_forall. intros c Hc.
  unfold compose. cbv beta zeta.
  apply parseCategories_elem in Hc as (s & _ & Hc).
  apply parseCategory_slug in Hc as (Hs & html & Hp & Hd & _).
  rewrite updateDisplayName_slug. rewrite Hs. exists html. split; [done|].
  unfold updateDisplayName, JsObject.get. rewrite Hs.
  destruct (decide (s = ("__proto__" : str))) as [Hproto|Hproto].
  { rewrite (decide_True (P := s = _)) by exact Hproto. split; [done|]. by intros _ Hn. }
  rewrite (decide_False (P := s = _)) by exact Hproto. unfold catDisplayNames.
  rewrite (foldl_set_last (λ m, group m 1) (λ m, group m 2)) by done. rewrite lookup_empty.
  destruct (last (filter (λ m, group m 1 = s) (execAll E catNameRegex home))) as [m|].
  - destruct (decide (group m 2 = [])) as [Hn|Hn].
    + split; [done|]. intros Hne _ _. rewrite Hd. eexists. split; [done|].
      by destruct (decide _).
    + cbn [display_name]. split; [done|]. intros _ _ _. by exists (group m 2).
  - destruct (decide (s ∈ JsObject.inherited)) as [Hin|Hin]; [by split|].
    split; [done|]. intros Hne _ _. rewrite Hd. eexists. split; [done|].
    by destruct (decide _).
Qed.

End CategoryProps.

Module CategoryScenarioProps.
Import JsString RegExp Notions Store Extract ExtractCategories CategoryScenario CategoryProps.

Lemma compareCodeUnits_sign (a b : str) :
  (compareCodeUnits a b < 0 ↔ 0 < compareCodeUnits b a)%Z.
Proof.
  revert b. induction a as [|c a IH]; intros [|d b]; simpl; [lia..|].
  repeat case_decide; try lia. apply IH.
Qed.

Lemma compareCodeUnits_trans (a b c : str) :
  (compareCodeUnits a b ≤ 0 → compareCodeUnits b c ≤ 0 → compareCodeUnits a c ≤ 0)%Z.
Proof.
  revert b c. induction a as [|x a IH]; intros [|y b] [|z c]; simpl; try lia.
  repeat case_decide; try lia. apply IH.
Qed.

Lemma categories_sorted_by_slug_witness :
  ∃ cs, categories backtracking categoryFiles categoryDir compareCodeUnits = Some cs
    ∧ cat_slug <$> cs = cat_slug <$> parseCategories backtracking categoryFiles categoryDir compareCodeUnits
    ∧ StronglySorted (λ a b, (compareCodeUnits a b ≤ 0)%Z) (cat_slug <$> cs).
Proof.
  apply (categories_sorted_by_slug backtracking categoryFiles categoryDir compareCodeUnits
           ("<ul>" ++ filterItem "frontend" "Front End" ++ "</ul>")).
  - apply compareCodeUnits_sign.
  - apply compareCodeUnits_trans.
  - reflexivity.
Defined.

Lemma display_name_priority_witness :
  ∃ cs, categories backtracking categoryFiles categoryDir compareCodeUnits = Some cs
    ∧ Forall (λ c,
        ∃ html, categoryFiles !! ("category/" ++ cat_slug c ++ "/index.html") = Some html
          ∧ display_name c
            = (let fromFeed := Text (if decide (extractMatch backtracking html feedTitleRegex = [])
                                     then cat_slug c
                                     else extractMatch backtracking html feedTitleRegex) in
               if decide (cat_slug c = ("__proto__" : str)) then EmptyObject
               else match last (filter (λ m, group m 1 = cat_slug c)
                                       (execAll backtracking catNameRegex
                                          ("<ul>" ++ filterItem "frontend" "Front End" ++ "</ul>"))) with
                    | Some m => if decide (group m 2 = []) then fromFeed else Text (group m 2)
                    | None => if decide (cat_slug c ∈ JsObject.inherited) then Absent
                              else fromFeed
                    end)
          ∧ (cat_slug c ≠ [] → cat_slug c ≠ ("__proto__" : str) →
             cat_slug c ∉ JsObject.inherited →
             ∃ n, display_name c = Text n ∧ n ≠ [])) cs.
Proof.
  apply (display_name_priority backtracking categoryFiles categoryDir compareCodeUnits). reflexivity.
Defined.

Lemma categories_are_directories_with_page_witness :
  cat_slug <$> parseCategories backtracking categoryFiles categoryDir compareCodeUnits
  ≡ₚ filter (λ s, is_Some (categoryFiles !! ("category/" ++ s ++ "/index.html")))
            (slugs categoryDir).
Proof.
  exact (proj1 (categories_are_directories_with_page backtracking categoryFiles categoryDir
                  compareCodeUnits)).
Defined.

(** The run on the scenario: [feed], the file and the directory without a
    page are left out; [frontend] gets the name of the filter bar,
    [backend], whose page has no feed title, its slug. *)
Example categories_of_the_scenario :
  ((λ cs : list Category, (λ c, (cat_slug c, display_name c, post_ids c)) <$> cs)
     <$> categories backtracking categoryFiles categoryDir compareCodeUnits)
  = Some [ ("backend" : str, Text "backend", [9%Z]);
           ("frontend" : str, Text "Front End", [42%Z; 7%Z]) ].
Proof. by vm_compute. Qed.

(** The slugs that are names of what every object inherits: the display
    name is no text, and [build] writes what the template literal makes
    of it. *)
Example inherited_names_are_not_texts :
  display_name (updateDisplayName ∅ (Scenario.withCatSlug "constructor" Scenario.backend))
  = Absent
  ∧ display_name (updateDisplayName ∅ (Scenario.withCatSlug "__proto__" Scenario.backend))
    = EmptyObject
  ∧ fieldText Absent = "undefined"
  ∧ fieldText EmptyObject = "[object Object]".
Proof. by vm_compute. Qed.

End CategoryScenarioProps.

(** ** The report of the verifier *)

Module ReportProps.
Import JsString RegExp Notions Store Fs Build Verify References JsStringFacts MapFacts ListFacts
  BuildFacts RenderProps VerifyProps.

Lemma warnings_check (condition : bool) (msg : str) (r : Report) :
  warnings (check condition msg r) = warnings r.
Proof. by destruct condition. Qed.

Section WithTree.
Variable E : Engine.
Variable outside : list str → option Node.
Variable tree : Tree.

Lemma warnings_verifyPerson (r : Report) (p : Person) :
  warnings (reportOf (verifyPerson outside tree r p)) = warnings r.
Proof.
  destruct (entryAt outside tree [slug p; "index.html" : str]) as [[html|]|] eqn:Hp.
  - rewrite (verifyPerson_file _ _ _ html) by done. cbn [reportOf].
    unfold verifyPersonHtml. destruct (Nat.ltb _ _); by rewrite !warnings_check.
  - by rewrite verifyPerson_dir.
  - by rewrite verifyPerson_missing.
Qed.

Lemma warnings_verifyCategory (r : Report) (cat : Category) :
  warnings (reportOf (verifyCategory outside tree r cat)) = warnings r.
Proof.
  destruct (entryAt outside tree ["category" : str; cat_slug cat; "index.html" : str])
    as [[html|]|] eqn:Hc.
  - rewrite (verifyCategory_file _ _ _ html) by done. cbn [reportOf].
    unfold verifyCategoryHtml. rewrite (foldl_keeps warnings); [done|].
    intros a pid. apply warnings_check.
  - by rewrite verifyCategory_dir.
  - by rewrite verifyCategory_missing.
Qed.

Lemma warnings_verifyStatic (r : Report) : warnings (verifyStatic outside tree r) = warnings r.
Proof. unfold verifyStatic. by rewrite !warnings_check. Qed.

Lemma verifyStatic_homepage_missing (r : Report) :
  entryAt outside tree ["index.html" : str] = None →
  0 < errors (verifyStatic outside tree r).
Proof.
  intros H. unfold verifyStatic. do 4 (eapply Nat.lt_le_trans; [|apply errors_check_le]).
  unfold Verify.existsSync. rewrite H. cbn. lia.
Qed.

(** X16.  When the pages of sections 1 and 2 can be read and
    [index.html] is no regular file, the run stops in section 4, when it
    reads the file: an exception ends it, the status is 1, the last line
    printed is the heading of section 4, and no warning has been given,
    since only the later sections warn.  When [index.html] is missing,
    section 3 has counted it as an error; when it is a directory, the
    static check has passed. *)
Theorem verify_stops_without_homepage (people : list Person) (categories : list Category) :
  (∀ p, p ∈ people → entryAt outside tree [slug p; "index.html" : str] ≠ Some Dir) →
  (∀ c, c ∈ categories →
     entryAt outside tree ["category" : str; cat_slug c; "index.html" : str] ≠ Some Dir) →
  (∀ html, entryAt outside tree ["index.html" : str] ≠ Some (File html)) →
  verifyRun E outside people categories tree
  = Threw (verify E outside people categories tree).1
  ∧ (verify E outside people categories tree).2 = 1%Z
  ∧ warnings (verify E outside people categories tree).1 = 0
  ∧ last (console (verify E outside people categories tree).1)
    = Some (Log "Checking homepage completeness...")
  ∧ (entryAt outside tree ["index.html" : str] = None →
     0 < errors (verify E outside people categories tree).1)
  ∧ (entryAt outside tree ["index.html" : str] = Some Dir →
     ∀ r, check (Verify.existsSync outside tree ["index.html" : str]) "Missing: index.html" r
          = r).
Proof.
  intros Hp Hc Hhome.
  assert (∃ r2, verifyRun E outside people categories tree
                = Threw (log "Checking homepage completeness..."
                           (verifyStatic outside tree (log "Checking static pages..." r2)))
                ∧ warnings r2 = 0) as (r2 & Hrun & Hw).
  { unfold verifyRun.
    rewrite foldl_andThen_completed by (intros p r Hin; by apply verifyPerson_completes, Hp).
    cbn [andThen].
    rewrite foldl_andThen_completed
      by (intros c r Hin; by apply verifyCategory_completes, Hc).
    cbn [andThen]. unfold Verify.readFileSync at 1.
    destruct (entryAt outside tree ["index.html" : str]) as [[home|]|] eqn:Hi;
      [by destruct (Hhome home)| |]; cbn [read]; (eexists; split; [reflexivity|]);
      rewrite (foldl_keeps warnings) by apply warnings_verifyCategory; cbn [warnings log];
      by rewrite (foldl_keeps warnings) by apply warnings_verifyPerson. }
  unfold verify. rewrite Hrun. cbn [reportOf status fst snd]. split_and!; try done.
  - cbn [warnings log]. rewrite warnings_verifyStatic. done.
  - cbn [Verify.console log]. apply last_snoc.
  - intros Hnone. rewrite errors_log. by apply verifyStatic_homepage_missing.
  - intros Hdir r. unfold Verify.existsSync. by rewrite Hdir.
Qed.

(** *** The error budget of a page *)

Lemma errors_verifyPersonHtml (p : Person) (html : str) (r : Report) :
  errors r ≤ errors (verifyPersonHtml p html r)
  ∧ errors (verifyPersonHtml p html r)
    ≤ errors r + (if Nat.ltb 100 (length (interview_content p)) then 4 else 3).
Proof.
  unfold verifyPersonHtml. destruct (Nat.ltb _ _); rewrite !errors_check;
    repeat destruct (includes _ _); lia.
Qed.

(** X17.  A page that is missing costs one error and its content checks
    are skipped; a person page that is a regular file costs at most four
    errors, three when the interview has 100 code units or fewer, since
    its snippet is then not looked for; a category page that is a
    regular file costs at most one error for every id; a page path that
    is a directory costs no error, and reading it ends the run. *)
Theorem page_error_budget (r : Report) (p : Person) (cat : Category) :
  (entryAt outside tree [slug p; "index.html" : str] = None →
     ∃ r', verifyPerson outside tree r p = Completed r' ∧ errors r' = S (errors r))
  ∧ (∀ html, entryAt outside tree [slug p; "index.html" : str] = Some (File html) →
       ∃ r', verifyPerson outside tree r p = Completed r'
             ∧ errors r ≤ errors r'
             ∧ errors r' ≤ errors r + (if Nat.ltb 100 (length (interview_content p))
                                       then 4 else 3))
  ∧ (entryAt outside tree [slug p; "index.html" : str] = Some Dir →
       verifyPerson outside tree r p = Threw r)
  ∧ (entryAt outside tree ["category" : str; cat_slug cat; "index.html" : str] = None →
       ∃ r', verifyCategory outside tree r cat = Completed r' ∧ errors r' = S (errors r))
  ∧ (∀ html, entryAt outside tree ["category" : str; cat_slug cat; "index.html" : str]
             = Some (File html) →
       ∃ r', verifyCategory outside tree r cat = Completed r'
             ∧ errors r ≤ errors r'
             ∧ errors r' ≤ errors r + length (post_ids cat))
  ∧ (entryAt outside tree ["category" : str; cat_slug cat; "index.html" : str] = Some Dir →
       verifyCategory outside tree r cat = Threw r).
Proof.
  split_and!.
  - intros Hp. rewrite verifyPerson_missing by done. by eexists.
  - intros html Hp. rewrite (verifyPerson_file _ _ _ html) by done.
    eexists. split; [done|]. apply errors_verifyPersonHtml.
  - apply verifyPerson_dir.
  - intros Hc. rewrite verifyCategory_missing by done. by eexists.
  - intros html Hc. rewrite (verifyCategory_file _ _ _ html) by done.
    eexists. split; [done|]. rewrite verifyCategoryHtml_errors.
    split; [lia|]. apply Nat.add_le_mono_l. apply length_filter.
  - apply verifyCategory_dir.
Qed.

(** *** Asset references are resolved once *)







End WithTree.


End ReportProps.

(** ** The scenarios of the output tree and of the report *)

Module OutputScenarioProps.
Import JsString RegExp Notions Store Fs Build Layout Placement Verify Checks Scenario OutputProps
  PipelineProps SoundProps ReportProps.

Lemma build_fixed_files_witness :
  build (siteOf [ada] [backend]) ∅ = Done (expected (siteOf [ada] [backend]))
  ∧ expected (siteOf [ada] [backend]) !! ["index.html" : str]
    = Some (File (homepageHtml (siteOf [ada] [backend])))
  ∧ expected (siteOf [ada] [backend]) !! ["robots.txt" : str]
    = Some (File ("User-agent: *" ++ nl ++ "Allow: /" ++ nl)).
Proof.
  destruct (build_fixed_files (siteOf [ada] [backend]) ∅ nothing)
    as (H1 & H2 & _ & _ & _ & H3 & _).
  - apply (bool_decide_unpack _). by vm_compute.
  - by split_and!.
Defined.

Lemma homepage_lists_everyone_witness :
  build (siteOf [ada] [backend]) ∅ = Done (expected (siteOf [ada] [backend]))
  ∧ expected (siteOf [ada] [backend]) !! ["index.html" : str]
    = Some (File (homepageHtml (siteOf [ada] [backend])))
  ∧ (∀ p, p ∈ people (siteOf [ada] [backend]) →
       includes (homepageHtml (siteOf [ada] [backend]))
                ("id=" ++ dq ++ "post-" ++ numToString (post_id p) ++ dq) = true
       ∧ includes (homepageHtml (siteOf [ada] [backend]))
                  ("href=" ++ dq ++ "/" ++ slug p ++ "/" ++ dq) = true)
  ∧ verifyHomepage (people (siteOf [ada] [backend])) (homepageHtml (siteOf [ada] [backend]))
                   report0 = report0.
Proof.
  apply (homepage_lists_everyone (siteOf [ada] [backend]) ∅ report0).
  - apply (bool_decide_unpack _). by vm_compute.
  - reflexivity.
Defined.

(** The page of [ada] is a regular file of the tree; nothing is at the
    path of a page the tree found at the start had. *)
Lemma build_domain_witness :
  isFile (expected (siteOf [ada] [backend])) ["ada" : str; "index.html" : str]
  ∧ ¬ isFile (expected (siteOf [ada] [backend])) ["old" : str; "index.html" : str].
Proof.
  destruct (build_domain (siteOf [ada] [backend])
              {[ ["old" : str] := Dir; ["old" : str; "index.html" : str] := File "old" ]}
              ["ada" : str; "index.html" : str]) as [_ H1].
  { apply (bool_decide_unpack _). by vm_compute. }
  destruct (build_domain (siteOf [ada] [backend])
              {[ ["old" : str] := Dir; ["old" : str; "index.html" : str] := File "old" ]}
              ["old" : str; "index.html" : str]) as [_ H2].
  { apply (bool_decide_unpack _). by vm_compute. }
  split.
  - apply H1. right; left. exists ada. split; [by left|reflexivity].
  - intros H. apply H2 in H.
    destruct H as [H|[(p & Hp & H)|[(c & Hc & H)|[(e & c & _ & H)|(e & c & _ & H)]]]].
    + repeat (apply elem_of_cons in H as [H|H]; [discriminate|]).
      by apply not_elem_of_nil in H.
    + apply list_elem_of_singleton in Hp as ->. discriminate.
    + apply list_elem_of_singleton in Hc as ->. discriminate.
    + discriminate.
    + discriminate.
Defined.

(** The script of the assets of the scenario is in the output tree. *)
Lemma build_copies_assets_witness :
  build (siteOf [ada] [backend]) ∅ = Done (expected (siteOf [ada] [backend]))
  ∧ expected (siteOf [ada] [backend]) !! ["assets" : str; "js" : str; "techies.js" : str]
    = Some (File "/* js */").
Proof.
  apply (build_copies_assets (siteOf [ada] [backend]) ∅ "assets"
           {[ ["js" : str] := Dir; ["js" : str; "techies.js" : str] := File "/* js */" ]}
           ["js" : str; "techies.js" : str] (File "/* js */")).
  - apply (bool_decide_unpack _). by vm_compute.
  - left. split; reflexivity.
  - reflexivity.
Defined.

Lemma scenario_consistent : consistent (siteOf [ada] [backend]).
Proof. apply (bool_decide_unpack _). by vm_compute. Qed.

Lemma verify_accepts_build_witness :
  errors (verify backtracking nothing (people (siteOf [ada] [backend]))
            (categories (siteOf [ada] [backend])) (expected (siteOf [ada] [backend]))).1 = 0
  ∧ (verify backtracking nothing (people (siteOf [ada] [backend]))
       (categories (siteOf [ada] [backend])) (expected (siteOf [ada] [backend]))).2 = 0%Z.
Proof.
  destruct (verify_accepts_build backtracking nothing (siteOf [ada] [backend]) ∅)
    as (_ & _ & H).
  - apply (bool_decide_unpack _). by vm_compute.
  - exact H.
Defined.

(** The verifier on an empty tree. *)
Lemma verify_stops_without_homepage_witness :
  (verify backtracking nothing [ada] [backend] ∅).2 = 1%Z
  ∧ warnings (verify backtracking nothing [ada] [backend] ∅).1 = 0
  ∧ last (Verify.console (verify backtracking nothing [ada] [backend] ∅).1)
    = Some (Log "Checking homepage completeness...")
  ∧ 0 < errors (verify backtracking nothing [ada] [backend] ∅).1.
Proof.
  destruct (verify_stops_without_homepage backtracking nothing ∅ [ada] [backend])
    as (_ & H1 & H2 & H3 & H4 & _).
  - intros p Hp. apply list_elem_of_singleton in Hp as ->. discriminate.
  - intros c Hc. apply list_elem_of_singleton in Hc as ->. discriminate.
  - intros html. discriminate.
  - split_and!; [exact H1|exact H2|exact H3|]. apply H4. reflexivity.
Defined.

(** The run of the verifier on the output of the scenario ends with
    status 0. *)
Lemma verify_status_zero_is_sound_witness :
  Forall (personChecked nothing (expected (siteOf [ada] [backend]))) [ada]
  ∧ Forall (categoryChecked nothing (expected (siteOf [ada] [backend]))) [backend].
Proof.
  destruct (verify_status_zero_is_sound backtracking nothing [ada] [backend]
              (expected (siteOf [ada] [backend]))) as (_ & H1 & H2 & _).
  - by vm_compute.
  - by split.
Defined.

(** On an empty tree the page of [ada] and the page of [backend] cost
    one error each. *)
Lemma page_error_budget_witness :
  (∃ r', verifyPerson nothing ∅ report0 ada = Completed r' ∧ errors r' = 1)
  ∧ (∃ r', verifyCategory nothing ∅ report0 backend = Completed r' ∧ errors r' = 1).
Proof.
  destruct (page_error_budget nothing ∅ report0 ada backend) as (H1 & _ & _ & H3 & _).
  split; [apply H1|apply H3]; reflexivity.
Defined.


(** *** Slugs that are not names *)

(** A person whose slug is the name of a file the script has written:
    making the directory of the page throws, and the run ends before the
    homepage is written. *)
Example person_slug_of_a_file_stops_build :
  match build (siteOf [withSlug "robots.txt" ada] [backend]) ∅ with
  | Thrown t => t !! ["robots.txt" : str] = Some (File robots)
                ∧ t !! ["index.html" : str] = None
  | _ => False
  end.
Proof. by vm_compute. Qed.

(** A category whose slug is [..]: its page is written to
    [category/../index.html], which is [index.html], over the
    homepage. *)
Example category_slug_dotdot_takes_homepage :
  categoryPath (withCatSlug ".." backend) = Some ["index.html" : str]
  ∧ match build (siteOf [ada] [withCatSlug ".." backend]) ∅ with
    | Done t => t !! ["index.html" : str]
                = Some (File (categoryHtml (siteOf [ada] [withCatSlug ".." backend])
                                (withCatSlug ".." backend)))
    | _ => False
    end.
Proof. by vm_compute. Qed.

(** A category whose slug leads into the copy of the assets: its page
    is written there. *)
Example category_slug_into_assets :
  match build (siteOf [ada] [withCatSlug "../assets/js" backend]) ∅ with
  | Done t => t !! ["assets" : str; "js" : str; "index.html" : str]
              = Some (File (categoryHtml (siteOf [ada] [withCatSlug "../assets/js" backend])
                              (withCatSlug "../assets/js" backend)))
              ∧ t !! ["category" : str; "backend" : str; "index.html" : str] = None
  | _ => False
  end.
Proof. by vm_compute. Qed.

(** Two records whose slugs are different texts and the same path: the
    page of the second replaces the page of the first. *)
Example slugs_of_one_path_share_a_page :
  personPath (withSlug "./ada" ada2) = personPath ada
  ∧ match build (siteOf [ada; withSlug "./ada" ada2] [backend]) ∅ with
    | Done t => t !! ["ada" : str; "index.html" : str]
                = Some (File (personHtml (siteOf [ada; withSlug "./ada" ada2] [backend])
                                (withSlug "./ada" ada2)))
    | _ => False
    end.
Proof. by vm_compute. Qed.

(** A slug that leaves the output directory: the run goes on outside
    what the tree holds. *)
Example person_slug_leaves_output :
  personPath (withSlug "../ada" ada) = None
  ∧ match build (siteOf [withSlug "../ada" ada] [backend]) ∅ with
    | Outside _ => True
    | _ => False
    end.
Proof. by vm_compute. Qed.

End OutputScenarioProps.
